(** * personal-feed: the content collector and the recommendation resolver

    A shallow embedding of [firestore-gorse-sync/index.js] (the recommendation
    engine and its HTTP endpoint), of the collector it loads (rate limiter,
    document ids, normalisation, retry, fetchers and the collection
    orchestrator) and of the older feed parser of
    [firestore-gorse-sync/ingestion.js].

    Conventions of the embedding.
    - A JavaScript string is a [string]: a sequence of code units, here
      restricted to the code units below 256 (Latin-1).
    - [Date.now()] and [new Date()] are read from an explicit argument [now],
      a number of milliseconds, of type [Z].
    - A JavaScript [Map] is a [gmap]; the Firestore collections that the code
      reads and writes by document id are [gmap]s from id to document.
    - A JavaScript number that the code only uses as an integer is a [Z] or
      a [nat]; a score, which the code divides, is an exact rational [Q].
    - What the outside world answers (a feed, an HTTP API, the ranker) is an
      argument of the function that asks for it. *)

From Stdlib Require Import ZArith QArith Qminmax Lqa Ascii String List Sorted Lia Bool.
From stdpp Require Import base tactics option list gmap strings pretty.

Local Open Scope Z_scope.

(** ** JavaScript strings *)

Module JsString.

(** [String.prototype.toLowerCase] on one Latin-1 code unit: A-Z, and the
    accented capitals U+00C0..U+00DE without the multiplication sign. *)
Definition lowerChar (c : ascii) : ascii :=
  let n := N_of_ascii c in
  if ((65 <=? n) && (n <=? 90))%N
     || ((192 <=? n) && (n <=? 222) && negb (n =? 215))%N
  then ascii_of_N (n + 32) else c.

Fixpoint toLowerCase (s : string) : string :=
  match s with
  | EmptyString => EmptyString
  | String c s' => String (lowerChar c) (toLowerCase s')
  end.

(** [s.startsWith(p)] *)
Fixpoint startsWith (p s : string) : bool :=
  match p, s with
  | EmptyString, _ => true
  | String _ _, EmptyString => false
  | String a p', String b s' => if ascii_dec a b then startsWith p' s' else false
  end.

(** [s.includes(t)]: [t] occurs in [s] at some position. *)
Fixpoint includes (s t : string) : bool :=
  startsWith t s ||
  match s with
  | EmptyString => false
  | String _ s' => includes s' t
  end.

(** [s.substring(0, n)] *)
Fixpoint substring0 (n : nat) (s : string) : string :=
  match n, s with
  | O, _ => EmptyString
  | S _, EmptyString => EmptyString
  | S n', String c s' => String c (substring0 n' s')
  end.

(** [s.substring(n)], used to cut a matched prefix off. *)
Fixpoint dropChars (n : nat) (s : string) : string :=
  match n, s with
  | O, _ => s
  | S _, EmptyString => EmptyString
  | S n', String _ s' => dropChars n' s'
  end.

Fixpoint mapChars (f : ascii -> ascii) (s : string) : string :=
  match s with
  | EmptyString => EmptyString
  | String c s' => String (f c) (mapChars f s')
  end.

(** The value of [a || b] on strings: the empty string is falsy, and so
    is a missing property ([None]). *)
Definition truthy (o : option string) : option string :=
  match o with
  | Some EmptyString => None
  | _ => o
  end.

Definition orElse (a b : option string) : option string :=
  match truthy a with
  | Some s => Some s
  | None => b
  end.

Definition orDefault (a : option string) (d : string) : string :=
  match truthy a with
  | Some s => s
  | None => d
  end.

(** The UTF-8 bytes of a Latin-1 string, as [hash.update(str)] feeds them. *)
Definition utf8Char (c : ascii) : list Z :=
  let n := Z.of_N (N_of_ascii c) in
  if n <? 128 then [n]
  else [Z.lor 192 (Z.shiftr n 6); Z.lor 128 (Z.land n 63)].

Fixpoint utf8 (s : string) : list Z :=
  match s with
  | EmptyString => []
  | String c s' => utf8Char c ++ utf8 s'
  end.

End JsString.

(** ** MD5 (RFC 1321), as [crypto.createHash('md5')] computes it *)

Module Md5.

Definition w32 (x : Z) : Z := x mod 4294967296.
Definition add32 (x y : Z) : Z := w32 (x + y).
Definition not32 (x : Z) : Z := Z.lxor x 4294967295.
Definition rotl32 (x c : Z) : Z :=
  w32 (Z.lor (Z.shiftl x c) (Z.shiftr x (32 - c))).

Definition shifts : list Z :=
  [ 7; 12; 17; 22; 7; 12; 17; 22; 7; 12; 17; 22; 7; 12; 17; 22;
    5; 9; 14; 20; 5; 9; 14; 20; 5; 9; 14; 20; 5; 9; 14; 20;
    4; 11; 16; 23; 4; 11; 16; 23; 4; 11; 16; 23; 4; 11; 16; 23;
    6; 10; 15; 21; 6; 10; 15; 21; 6; 10; 15; 21; 6; 10; 15; 21 ].

Definition sines : list Z :=
  [ 0xd76aa478; 0xe8c7b756; 0x242070db; 0xc1bdceee;
    0xf57c0faf; 0x4787c62a; 0xa8304613; 0xfd469501;
    0x698098d8; 0x8b44f7af; 0xffff5bb1; 0x895cd7be;
    0x6b901122; 0xfd987193; 0xa679438e; 0x49b40821;
    0xf61e2562; 0xc040b340; 0x265e5a51; 0xe9b6c7aa;
    0xd62f105d; 0x02441453; 0xd8a1e681; 0xe7d3fbc8;
    0x21e1cde6; 0xc33707d6; 0xf4d50d87; 0x455a14ed;
    0xa9e3e905; 0xfcefa3f8; 0x676f02d9; 0x8d2a4c8a;
    0xfffa3942; 0x8771f681; 0x6d9d6122; 0xfde5380c;
    0xa4beea44; 0x4bdecfa9; 0xf6bb4b60; 0xbebfbc70;
    0x289b7ec6; 0xeaa127fa; 0xd4ef3085; 0x04881d05;
    0xd9d4d039; 0xe6db99e5; 0x1fa27cf8; 0xc4ac5665;
    0xf4292244; 0x432aff97; 0xab9423a7; 0xfc93a039;
    0x655b59c3; 0x8f0ccc92; 0xffeff47d; 0x85845dd1;
    0x6fa87e4f; 0xfe2ce6e0; 0xa3014314; 0x4e0811a1;
    0xf7537e82; 0xbd3af235; 0x2ad7d2bb; 0xeb86d391 ].

Record state := State { sa : Z; sb : Z; sc : Z; sd : Z }.

Definition init : state :=
  State 0x67452301 0xefcdab89 0x98badcfe 0x10325476.

(** Little-endian bytes of a word and back. *)
Definition bytesOfWord (x : Z) : list Z :=
  [ Z.land x 255; Z.land (Z.shiftr x 8) 255;
    Z.land (Z.shiftr x 16) 255; Z.land (Z.shiftr x 24) 255 ].

Fixpoint wordsOfBytes (n : nat) (bs : list Z) : list Z :=
  match n, bs with
  | S n', b0 :: b1 :: b2 :: b3 :: rest =>
      (b0 + 256 * b1 + 65536 * b2 + 16777216 * b3) :: wordsOfBytes n' rest
  | _, _ => []
  end.

(** The message, the bit 1, zeroes up to 56 modulo 64, and the length in
    bits on 64 bits. *)
Definition padding (len : Z) : list Z :=
  let zeroes := (55 - len) mod 64 in
  let bits := (8 * len) mod 18446744073709551616 in
  [128] ++ repeat 0 (Z.to_nat zeroes)
        ++ bytesOfWord (w32 bits) ++ bytesOfWord (Z.shiftr bits 32).

Definition pad (msg : list Z) : list Z :=
  msg ++ padding (Z.of_nat (length msg)).

Definition round (m : list Z) (i : nat) (st : state) : state :=
  let '(State a b c d) := st in
  let iz := Z.of_nat i in
  let '(f, g) :=
    if iz <? 16 then (Z.lor (Z.land b c) (Z.land (not32 b) d), iz)
    else if iz <? 32 then
      (Z.lor (Z.land d b) (Z.land (not32 d) c), (5 * iz + 1) mod 16)
    else if iz <? 48 then (Z.lxor b (Z.lxor c d), (3 * iz + 5) mod 16)
    else (Z.lxor c (Z.lor b (not32 d)), (7 * iz) mod 16) in
  let f' := add32 (add32 (add32 f a) (nth i sines 0)) (nth (Z.to_nat g) m 0) in
  State d (add32 b (rotl32 f' (nth i shifts 0))) b c.

Definition block (st : state) (m : list Z) : state :=
  let r := fold_left (fun s i => round m i s) (seq 0 64) st in
  State (add32 (sa st) (sa r)) (add32 (sb st) (sb r))
        (add32 (sc st) (sc r)) (add32 (sd st) (sd r)).

Fixpoint blocks (n : nat) (bs : list Z) (st : state) : state :=
  match n with
  | O => st
  | S n' =>
      match bs with
      | [] => st
      | _ => blocks n' (skipn 64 bs) (block st (wordsOfBytes 16 (firstn 64 bs)))
      end
  end.

Definition digest (msg : list Z) : list Z :=
  let p := pad msg in
  let st := blocks (length p) p init in
  bytesOfWord (sa st) ++ bytesOfWord (sb st)
    ++ bytesOfWord (sc st) ++ bytesOfWord (sd st).

Definition hexDigit (n : Z) : ascii :=
  if n <? 10 then ascii_of_N (Z.to_N (48 + n)) else ascii_of_N (Z.to_N (87 + n)).

Fixpoint hex (bs : list Z) : string :=
  match bs with
  | [] => EmptyString
  | b :: rest =>
      String (hexDigit (Z.shiftr (Z.land b 255) 4))
             (String (hexDigit (Z.land b 15)) (hex rest))
  end.

(** [crypto.createHash('md5').update(s).digest('hex')] *)
Definition md5hex (s : string) : string := hex (digest (JsString.utf8 s)).

End Md5.

(** ** Errors, promises and dates *)

(** What the code reads of a thrown error: its message, [error.status] and
    [error.response?.status]. *)
Record JsError := mkError {
  message : string;
  status : option Z;
  responseStatus : option Z
}.

(** [new Error(msg)] *)
Definition Error (msg : string) : JsError := mkError msg None None.

(** The outcome of an awaited call: the value, or the error thrown. *)
Inductive Result (A : Type) : Type :=
  | Ok (a : A)
  | Throw (e : JsError).
Arguments Ok {A} a.
Arguments Throw {A} e.

(** A date as text: the text a source gives, or [toISOString()] of an
    instant. *)
Inductive DateText :=
  | Text (s : string)
  | IsoOf (ms : Z).

(** [new Date(text)]: the text is kept unparsed; the ISO text of an
    instant parses back to that instant. *)
Inductive JsDate :=
  | DateParse (s : string)
  | DateMs (ms : Z).

Definition newDate (t : DateText) : JsDate :=
  match t with
  | Text s => DateParse s
  | IsoOf ms => DateMs ms
  end.

Definition truthyDate (o : option DateText) : option DateText :=
  match o with
  | Some (Text EmptyString) => None
  | _ => o
  end.

Definition orElseDate (a b : option DateText) : option DateText :=
  match truthyDate a with
  | Some t => Some t
  | None => b
  end.

(** ** The collector *)

Module Collector.
Import JsString.

(** *** Rate limiter *)

Module RateLimiter.

Record t := Make {
  maxPerSecond : nat;
  hostQueues : gmap string (list Z)
}.

(** [new RateLimiter(maxPerSecond)] *)
Definition new (maxPerSecond : nat) : t := Make maxPerSecond ∅.

(** [while (queue.length && queue[0] < now - 1000) queue.shift()] *)
Fixpoint evict (now : Z) (queue : list Z) : list Z :=
  match queue with
  | [] => []
  | oldest :: rest =>
      if oldest <? now - 1000 then evict now rest else queue
  end.

(** What one pass through the body of [throttle] decides: the caller
    goes on, or sleeps [delay] milliseconds and calls [throttle] again. *)
Inductive outcome :=
  | Proceed
  | Wait (delay : Z).

(** One pass on the queue of one host, at the instant [now]. With an
    empty queue at the limit (a limit of 0) [queue[0]] is undefined and
    the delay is NaN, which the timer takes as 1 ms. *)
Definition pass (maxPerSecond : nat) (now : Z) (queue : list Z)
  : list Z * outcome :=
  let queue := evict now queue in
  if (maxPerSecond <=? length queue)%nat then
    match queue with
    | oldestTimestamp :: _ =>
        (queue, Wait (1000 - (now - oldestTimestamp) + 10))
    | [] => (queue, Wait 1)
    end
  else (queue ++ [now], Proceed).

(** One pass of [throttle(host)]: the body up to the [await] or to the
    [push]. The body runs without interruption, calls of several
    callers interleave only at the [await]. *)
Definition attempt (host : string) (now : Z) (rl : t) : t * outcome :=
  let queue := default [] (hostQueues rl !! host) in
  let '(queue', o) := pass (maxPerSecond rl) now queue in
  (Make (maxPerSecond rl) (<[host := queue']> (hostQueues rl)), o).


(** Passes of any callers in the order in which they run: each is a
    host and the instant of the pass. The log keeps the outcomes. *)
Fixpoint run (events : list (string * Z)) (rl : t)
  : t * list (string * Z * outcome) :=
  match events with
  | [] => (rl, [])
  | (host, now) :: rest =>
      let '(rl', o) := attempt host now rl in
      let '(rl'', log) := run rest rl' in
      (rl'', (host, now, o) :: log)
  end.


(** [getHost(url)] is [new URL(url).hostname]; the parsing of URLs is
    not part of this development, a caller passes the host. *)

End RateLimiter.

(** *** Document ids *)

(** [.replace(/^https?:\/\//, '')] *)
Definition stripScheme (s : string) : string :=
  if startsWith "https://" s then dropChars 8 s
  else if startsWith "http://" s then dropChars 7 s
  else s.

(** [.replace(/\/$/, '')] *)
Fixpoint stripTrailingSlash (s : string) : string :=
  match s with
  | EmptyString => EmptyString
  | String c EmptyString => if ascii_dec c "/" then EmptyString else s
  | String c s' => String c (stripTrailingSlash s')
  end.

Definition isLowerAlnum (c : ascii) : bool :=
  let n := N_of_ascii c in
  (((97 <=? n) && (n <=? 122)) || ((48 <=? n) && (n <=? 57)))%N.

(** [.replace(/[^a-z0-9]/g, '_')] *)
Definition replaceNonAlnum (s : string) : string :=
  mapChars (fun c => if isLowerAlnum c then c else "_"%char) s.

Definition normalizeUrl (url : string) : string :=
  substring0 100
    (replaceNonAlnum (stripTrailingSlash (stripScheme (toLowerCase url)))).

Definition generateDocId (url : string) : string :=
  let normalized := normalizeUrl url in
  let hash := substring0 20 (Md5.md5hex normalized) in
  hash.

(** *** Text of a feed item *)

Fixpoint hasChar (c : ascii) (s : string) : bool :=
  match s with
  | EmptyString => false
  | String d s' => if ascii_dec c d then true else hasChar c s'
  end.

(** [.replace(/<[^>]*>/g, ' ')]: a [<] opens a match when a [>] follows
    somewhere; the match ends at the first [>]. *)
Fixpoint stripTagsFrom (inTag : bool) (s : string) : string :=
  match s with
  | EmptyString => EmptyString
  | String c s' =>
      if inTag then
        if ascii_dec c ">" then String " " (stripTagsFrom false s')
        else stripTagsFrom true s'
      else if ascii_dec c "<" then
        if hasChar ">" s' then stripTagsFrom true s'
        else String c (stripTagsFrom false s')
      else String c (stripTagsFrom false s')
  end.

Definition stripTags (s : string) : string := stripTagsFrom false s.

(** [.replace(/pat/g, rep)] for a literal, non-empty [pat]: matches are
    taken from the left and do not overlap; [skip] counts the characters
    of the current match still to pass. *)
Fixpoint replaceAllFrom (pat rep : string) (skip : nat) (s : string) : string :=
  match s with
  | EmptyString => EmptyString
  | String c s' =>
      match skip with
      | S k => replaceAllFrom pat rep k s'
      | O =>
          if startsWith pat s
          then rep +:+ replaceAllFrom pat rep (String.length pat - 1) s'
          else String c (replaceAllFrom pat rep O s')
      end
  end.

Definition replaceAll (pat rep s : string) : string :=
  replaceAllFrom pat rep O s.

(** [\s] on Latin-1: tab, line feed, vertical tab, form feed, carriage
    return, space and no-break space. *)
Definition isSpace (c : ascii) : bool :=
  let n := N_of_ascii c in
  (((9 <=? n) && (n <=? 13)) || (n =? 32) || (n =? 160))%N.

(** [.replace(/\s+/g, ' ')] *)
Fixpoint collapseSpacesFrom (inRun : bool) (s : string) : string :=
  match s with
  | EmptyString => EmptyString
  | String c s' =>
      if isSpace c then
        if inRun then collapseSpacesFrom true s'
        else String " " (collapseSpacesFrom true s')
      else String c (collapseSpacesFrom false s')
  end.

Definition collapseSpaces (s : string) : string := collapseSpacesFrom false s.

Fixpoint trimStart (s : string) : string :=
  match s with
  | EmptyString => EmptyString
  | String c s' => if isSpace c then trimStart s' else s
  end.

Fixpoint trimEnd (s : string) : string :=
  match s with
  | EmptyString => EmptyString
  | String c s' =>
      match trimEnd s' with
      | EmptyString => if isSpace c then EmptyString else String c EmptyString
      | r => String c r
      end
  end.

(** [.trim()] *)
Definition trim (s : string) : string := trimEnd (trimStart s).

(** [stripHTML(html)]; a missing or empty [html] gives the empty string. *)
Definition stripHTML (html : string) : string :=
  trim
    (collapseSpaces
      (replaceAll "&#39;" "'"
        (replaceAll "&quot;" (String (ascii_of_nat 34) EmptyString)
          (replaceAll "&gt;" ">"
            (replaceAll "&lt;" "<"
              (replaceAll "&amp;" "&"
                (replaceAll "&nbsp;" " "
                  (stripTags html)))))))).

(** *** Content records *)

(** An item as a feed parser or an API adapter hands it over. *)
Module RawItem.
Record t := Make {
  title : option string;
  description : option string;
  contentSnippet : option string;
  summary : option string;
  isoDate : option DateText;
  pubDate : option DateText;
  published : option DateText;
  link : option string;
  url : option string
}.
Definition empty : t := Make None None None None None None None None None.
End RawItem.

(** What [normalizeContent] returns. *)
Module Content.
Record t := Make {
  title : string;
  excerpt : string;
  plain_text : string;
  tags : list string;
  publishedAt : JsDate;
  source : string;
  url : string;
  license : string;
  contentType : string;
  important : bool
}.
End Content.

Definition normalizeContent (now : Z) (item : RawItem.t) (source : string)
    (tags : list string) (license : string) (contentType : string)
  : Content.t :=
  let title :=
    substring0 200 (stripHTML (orDefault (RawItem.title item) "Untitled")) in
  let description :=
    stripHTML
      (orDefault
        (orElse (RawItem.description item)
          (orElse (RawItem.contentSnippet item) (RawItem.summary item))) "") in
  let excerpt := substring0 200 description in
  let plainText :=
    if decide (license = "public-domain") then description else excerpt in
  let publishedAt :=
    default (IsoOf now)
      (orElseDate (RawItem.isoDate item)
        (orElseDate (RawItem.pubDate item) (truthyDate (RawItem.published item)))) in
  Content.Make title excerpt plainText tags (newDate publishedAt) source
    (orDefault (orElse (RawItem.link item) (RawItem.url item)) "")
    license contentType false.

(** *** Retry with exponential backoff *)

(** [error.status || error.response?.status]: 0 is falsy. *)
Definition errorStatus (e : JsError) : option Z :=
  match status e with
  | Some s => if s =? 0 then responseStatus e else Some s
  | None => responseStatus e
  end.

(** [status === 429 || (status >= 500 && status < 600)] *)
Definition retryable (st : option Z) : bool :=
  match st with
  | Some s => (s =? 429) || ((500 <=? s) && (s <? 600))
  | None => false
  end.

(** A run of [retryWithBackoff]: what it returns or throws, the delays it
    slept in order, in milliseconds, and how often it called [fn]. *)
Record Retried (A : Type) := mkRetried {
  outcome : Result A;
  sleeps : list Z;
  calls : nat
}.
Arguments mkRetried {A} outcome sleeps calls.
Arguments outcome {A} r.
Arguments sleeps {A} r.
Arguments calls {A} r.

(** The loop [for (let i = ...; i < maxRetries; i++)] from [i] on, with
    [remaining = maxRetries - i]. The [i]-th call of [fn] answers [fn i]. *)
Fixpoint retryFrom {A} (fn : nat -> Result A) (remaining i : nat) : Retried A :=
  match remaining with
  | O => mkRetried (Throw (Error "Max retries exceeded")) [] O
  | S remaining' =>
      match fn i with
      | Ok a => mkRetried (Ok a) [] 1
      | Throw error =>
          if retryable (errorStatus error) then
            let delay := 2 ^ Z.of_nat i * 1000 in
            let r := retryFrom fn remaining' (S i) in
            mkRetried (outcome r) (delay :: sleeps r) (S (calls r))
          else mkRetried (Throw error) [] 1
      end
  end.

Definition retryWithBackoff {A} (fn : nat -> Result A) (maxRetries : nat)
  : Retried A := retryFrom fn maxRetries O.

(** *** What the sources answer *)

(** The answer to one [fetch(url)]: the request fails, or a response with
    its status code and what [res.json()] or [res.text()] gives. *)
Inductive HttpAnswer (A : Type) : Type :=
  | NetworkFailure (e : JsError)
  | Response (statusCode : Z) (body : Result A).
Arguments NetworkFailure {A} e.
Arguments Response {A} statusCode body.

(** The function that the API fetchers hand to [retryWithBackoff]:
    [fetch], then [if (!res.ok) throw new Error(`HTTP ${res.status}`)],
    then the body. *)
Definition request {A} (answer : HttpAnswer A) : Result A :=
  match answer with
  | NetworkFailure e => Throw e
  | Response statusCode body =>
      if (200 <=? statusCode) && (statusCode <? 300) then body
      else Throw (Error ("HTTP " +:+ pretty statusCode))
  end.

Record NewsArticle := mkNewsArticle {
  na_title : option string;
  na_description : option string;
  na_url : option string;
  na_publishedAt : option string
}.

Record GuardianArticle := mkGuardianArticle {
  webTitle : option string;
  trailText : option string;
  webUrl : option string;
  webPublicationDate : option string;
  sectionName : option string
}.

(** One [<entry>] of the arXiv response: the text captured by the four
    regular expressions of [fetchArXiv], [None] where one does not match. *)
Record ArxivEntry := mkArxivEntry {
  titleMatch : option string;
  summaryMatch : option string;
  linkMatch : option string;
  publishedMatch : option string
}.

Record World := mkWorld {
  (** [parser.parseURL(url)]: the items of the feed, or the error *)
  parseURL : string -> Result (list RawItem.t);
  NEWSAPI_KEY : string;
  GUARDIAN_API_KEY : string;
  (** the [n]-th request for a topic; [articles] of the body *)
  newsApi : string -> nat -> HttpAnswer (option (list NewsArticle));
  (** [response?.results] of the body *)
  guardianApi : nat -> HttpAnswer (option (list GuardianArticle));
  (** the entries found in the body *)
  arxivApi : nat -> HttpAnswer (list ArxivEntry)
}.

(** *** Fetchers *)

Record Item := mkItem {
  docId : string;
  data : Content.t
}.

Record FetchResult := mkFetchResult {
  success : bool;
  source : string;
  error : option string;
  items : list Item
}.

Definition dateText (o : option string) : option DateText := Text <$> o.

(** Generic RSS fetcher. The wait in [rateLimiter.throttle(host)] that
    comes first delays the fetch and does not change its result. *)
Definition fetchRSS (w : World) (now : Z) (url : string) (tags : list string)
    (license contentType : string) : FetchResult :=
  match parseURL w url with
  | Ok feedItems =>
      mkFetchResult true url None
        (omap (fun item =>
                 match truthy (RawItem.link item) with
                 | None => None
                 | Some link =>
                     Some (mkItem (generateDocId link)
                             (normalizeContent now item url tags license contentType))
                 end) feedItems)
  | Throw e => mkFetchResult false url (Some (message e)) []
  end.

Record FeedSource := mkSource {
  feedUrl : string;
  feedTags : list string;
  feedContentType : option string
}.

Definition feed (url : string) (tags : list string) : FeedSource :=
  mkSource url tags None.

(** [for (const { url, tags } of sources) results.push(await fetchRSS(url, tags))] *)
Definition fetchFeeds (w : World) (now : Z) (sources : list FeedSource)
  : list FetchResult :=
  map (fun s => fetchRSS w now (feedUrl s) (feedTags s) "rss"
                  (default "article" (truthy (feedContentType s)))) sources.

Definition newsSources : list FeedSource :=
  [ feed "http://feeds.bbci.co.uk/news/rss.xml" ["news"; "world"];
    feed "https://www.reutersagency.com/feed/?best-topics=world-news" ["news"; "world"];
    feed "http://rss.cnn.com/rss/cnn_topstories.rss" ["news"; "world"];
    feed "https://feeds.npr.org/1001/rss.xml" ["news"; "world"];
    feed "https://www.aljazeera.com/xml/rss/all.xml" ["news"; "world"; "international"];
    feed "https://www.cbsnews.com/latest/rss/main" ["news"; "world"];
    feed "https://abcnews.go.com/abcnews/topstories" ["news"; "world"];
    feed "https://feeds.a.dj.com/rss/RSSWorldNews.xml" ["news"; "world"; "business"];
    feed "https://www.economist.com/the-world-this-week/rss.xml" ["news"; "world"; "business"];
    feed "https://www.ft.com/?format=rss" ["news"; "business"; "finance"] ].

Definition aiTechSources : list FeedSource :=
  [ feed "https://medium.com/feed/tag/artificial-intelligence" ["ai"; "technology"];
    feed "https://towardsdatascience.com/feed" ["ai"; "data-science"; "technology"];
    feed "https://machinelearningmastery.com/feed/" ["ai"; "machine-learning"; "technology"];
    feed "https://www.kdnuggets.com/feed" ["ai"; "data-science"; "machine-learning"];
    feed "https://www.theverge.com/rss/index.xml" ["technology"; "gadgets"];
    feed "https://feeds.arstechnica.com/arstechnica/index" ["technology"; "science"];
    feed "https://techcrunch.com/feed/" ["technology"; "startups"; "business"];
    feed "https://www.wired.com/feed/rss" ["technology"; "science"; "culture"];
    feed "https://www.engadget.com/rss.xml" ["technology"; "gadgets"];
    feed "https://www.cnet.com/rss/news/" ["technology"; "gadgets"];
    feed "https://www.zdnet.com/news/rss.xml" ["technology"; "business"];
    feed "https://www.technologyreview.com/feed/" ["technology"; "science"; "innovation"];
    feed "https://www.theguardian.com/technology/rss" ["technology"; "news"];
    feed "https://dev.to/feed" ["technology"; "programming"; "development"];
    feed "https://news.ycombinator.com/rss" ["technology"; "startups"; "programming"];
    feed "https://www.smashingmagazine.com/feed/" ["technology"; "design"; "development"] ].

Definition scienceSources : list FeedSource :=
  [ feed "https://www.sciencedaily.com/rss/top/science.xml" ["science"; "research"];
    feed "https://www.nature.com/feeds/newsroom.xml" ["science"; "research"; "academic"];
    feed "https://www.scientificamerican.com/feed/" ["science"; "research"];
    feed "https://www.newscientist.com/feed/home" ["science"; "research"; "technology"];
    feed "https://phys.org/rss-feed/" ["science"; "physics"; "research"];
    feed "https://www.sciencenews.org/feed" ["science"; "research"];
    feed "https://www.space.com/feeds/all" ["science"; "space"; "astronomy"];
    feed "https://www.livescience.com/feeds/all" ["science"; "research"] ].

Definition poetrySources : list FeedSource :=
  [ mkSource "https://www.poetryfoundation.org/rss/poems" ["poetry"; "literature"] (Some "poem");
    feed "https://www.themarginalian.org/feed/" ["literature"; "essays"; "culture"] ].

Definition environmentSources : list FeedSource :=
  [ feed "https://earthobservatory.nasa.gov/feeds/rss/eo.rss" ["environment"; "climate"; "nasa"];
    feed "https://www.unep.org/rss.xml" ["environment"; "climate"; "sustainability"] ].

Definition businessSources : list FeedSource :=
  [ feed "https://feeds.bloomberg.com/markets/news.rss" ["business"; "finance"; "markets"];
    feed "https://www.forbes.com/real-time/feed2/" ["business"; "finance"; "entrepreneurship"];
    feed "https://fortune.com/feed/" ["business"; "finance"; "leadership"];
    feed "https://hbr.org/feed" ["business"; "management"; "leadership"];
    feed "https://www.entrepreneur.com/latest.rss" ["business"; "startups"; "entrepreneurship"];
    feed "https://www.inc.com/rss/" ["business"; "startups"; "growth"];
    feed "https://www.fastcompany.com/latest/rss" ["business"; "innovation"; "technology"] ].

Definition designSources : list FeedSource :=
  [ feed "https://www.designboom.com/feed/" ["design"; "architecture"; "art"];
    feed "https://www.dezeen.com/feed/" ["design"; "architecture"; "interiors"];
    feed "https://www.creativebloq.com/feed" ["design"; "creativity"; "art"];
    feed "https://www.itsnicethat.com/feed" ["design"; "art"; "creativity"];
    feed "https://www.behance.net/feeds/projects" ["design"; "art"; "creativity"];
    feed "https://dribbble.com/stories.rss" ["design"; "ui"; "ux"];
    feed "https://sidebar.io/feed" ["design"; "ui"; "ux"] ].

Definition healthSources : list FeedSource :=
  [ feed "https://www.health.harvard.edu/blog/feed" ["health"; "wellness"; "medicine"];
    feed "https://www.medicalnewstoday.com/rss/news.xml" ["health"; "medicine"; "research"];
    feed "https://www.webmd.com/rss/rss.aspx?RSSSource=RSS_PUBLIC" ["health"; "wellness"];
    feed "https://www.healthline.com/rss" ["health"; "wellness"; "nutrition"];
    feed "https://www.psychologytoday.com/us/blog/feed" ["psychology"; "mental-health"; "wellness"] ].

(** One topic of [fetchNewsAPI]: the items it adds; an error is logged and
    adds none. *)
Definition newsApiTopic (w : World) (now : Z) (topic : string) : list Item :=
  match outcome (retryWithBackoff (fun n => request (newsApi w topic n)) 3) with
  | Ok (Some articles) =>
      omap (fun article =>
              match truthy (na_url article) with
              | None => None
              | Some url =>
                  Some (mkItem (generateDocId url)
                          (normalizeContent now
                             (RawItem.Make (na_title article) (na_description article)
                                None None None (dateText (na_publishedAt article)) None
                                (na_url article) None)
                             "NewsAPI" ["news"; topic] "api" "article"))
              end) articles
  | Ok None => []
  | Throw _ => []
  end.

Definition fetchNewsAPI (w : World) (now : Z) : FetchResult :=
  if decide (NEWSAPI_KEY w = "") then
    mkFetchResult false "NewsAPI" (Some "API key not configured") []
  else
    let allItems := newsApiTopic w now "science" ++ newsApiTopic w now "technology" in
    mkFetchResult (0 <? length allItems)%nat "NewsAPI" None allItems.

Definition fetchGuardianAPI (w : World) (now : Z) : FetchResult :=
  if decide (GUARDIAN_API_KEY w = "") then
    mkFetchResult false "Guardian" (Some "API key not configured") []
  else
    match outcome (retryWithBackoff (fun n => request (guardianApi w n)) 3) with
    | Ok results =>
        mkFetchResult true "Guardian" None
          (omap (fun article =>
                   match truthy (webUrl article) with
                   | None => None
                   | Some url =>
                       Some (mkItem (generateDocId url)
                               (normalizeContent now
                                  (RawItem.Make (webTitle article)
                                     (Some (orDefault (trailText article) ""))
                                     None None None
                                     (dateText (webPublicationDate article)) None
                                     (webUrl article) None)
                                  "Guardian"
                                  ["news";
                                   orDefault (toLowerCase <$> sectionName article) "general"]
                                  "api" "article"))
                   end) (default [] results))
    | Throw e => mkFetchResult false "Guardian" (Some (message e)) []
    end.

Definition fetchArXiv (w : World) (now : Z) : FetchResult :=
  match outcome (retryWithBackoff (fun n => request (arxivApi w n)) 3) with
  | Ok entries =>
      mkFetchResult true "arXiv" None
        (omap (fun entry =>
                 match titleMatch entry, linkMatch entry with
                 | Some title, Some link =>
                     Some (mkItem (generateDocId link)
                             (normalizeContent now
                                (RawItem.Make (Some (stripHTML title))
                                   (Some (from_option stripHTML "" (summaryMatch entry)))
                                   None None None
                                   (Some (from_option Text (IsoOf now) (publishedMatch entry)))
                                   None (Some link) None)
                                "arXiv" ["science"; "research"; "academic"; "ai"]
                                "restricted" "article"))
                 | _, _ => None
                 end) entries)
  | Throw e => mkFetchResult false "arXiv" (Some (message e)) []
  end.

Definition fetchNewsContent w now := fetchFeeds w now newsSources.
Definition fetchAITechContent w now := fetchFeeds w now aiTechSources.
Definition fetchScienceContent w now :=
  fetchFeeds w now scienceSources ++ [fetchArXiv w now].
Definition fetchPoetryContent w now := fetchFeeds w now poetrySources.
Definition fetchEnvironmentContent w now := fetchFeeds w now environmentSources.
Definition fetchBusinessContent w now := fetchFeeds w now businessSources.
Definition fetchDesignContent w now := fetchFeeds w now designSources.
Definition fetchHealthContent w now := fetchFeeds w now healthSources.

(** *** The collection orchestrator *)

(** A document of the [content] collection: the record and [createdAt]. *)
Record Stored := mkStored {
  doc : Content.t;
  createdAt : Z
}.

Record SourceError := mkSourceError {
  errSource : string;
  errError : string
}.

(** The metrics of a run, without its two clock readings ([timestamp] and
    [duration]). *)
Record Metrics := mkMetrics {
  feedsAttempted : nat;
  feedsSucceeded : nat;
  newItemsAdded : nat;
  totalItemsInFirestore : nat;
  syncedToGorse : nat;
  errors : list SourceError
}.

Record Db := mkDb {
  content : gmap string Stored;
  collection_metrics_latest : option Metrics;
  last_collection_run_state : option Metrics
}.

Record Options := mkOptions {
  dry : bool;
  sources : option (list string)
}.

(** [process.env.MAX_NEW_ITEMS_PER_RUN || '2000'] *)
Definition MAX_NEW_ITEMS_PER_RUN_default : nat := 2000.

(** The fetcher groups by name. A fetcher catches the errors of its own
    requests, so each of these promises is fulfilled. *)
Definition fetchers (w : World) (now : Z)
  : list (string * Result (list FetchResult)) :=
  [ ("news", Ok (fetchNewsContent w now));
    ("ai-tech", Ok (fetchAITechContent w now));
    ("science", Ok (fetchScienceContent w now));
    ("poetry", Ok (fetchPoetryContent w now));
    ("environment", Ok (fetchEnvironmentContent w now));
    ("business", Ok (fetchBusinessContent w now));
    ("design", Ok (fetchDesignContent w now));
    ("health", Ok (fetchHealthContent w now));
    ("newsapi", Ok [fetchNewsAPI w now]);
    ("guardian", Ok [fetchGuardianAPI w now]) ].

(** [sources ? fetchers.filter(f => sources.includes(f.name)) : fetchers] *)
Definition activeFetchers {A} (sources : option (list string))
    (fetchers : list (string * A)) : list (string * A) :=
  match sources with
  | Some names => filter (fun f => fst f ∈ names) fetchers
  | None => fetchers
  end.

(** [fn().catch(err => [])] *)
Definition catchEmpty (r : Result (list FetchResult)) : list FetchResult :=
  match r with
  | Ok results => results
  | Throw _ => []
  end.

Record Aggregate := mkAggregate {
  allItems : list Item;
  aggErrors : list SourceError;
  aggAttempted : nat;
  aggSucceeded : nat
}.

(** The body of [for (const result of flatResults)]. *)
Definition aggregateStep (acc : Aggregate) (result : FetchResult) : Aggregate :=
  if success result then
    mkAggregate (allItems acc ++ items result) (aggErrors acc)
      (S (aggAttempted acc)) (S (aggSucceeded acc))
  else
    mkAggregate (allItems acc)
      (aggErrors acc
         ++ [mkSourceError (source result) (orDefault (error result) "Unknown error")])
      (S (aggAttempted acc)) (aggSucceeded acc).

Definition aggregate (flatResults : list FetchResult) : Aggregate :=
  fold_left aggregateStep flatResults (mkAggregate [] [] O O).

(** What can go wrong with the storage while one item is written. *)
Inductive Fault :=
  | NoFault
  | GetThrows
  | SetThrows.

Record Persist := mkPersist {
  stored : gmap string Stored;
  added : nat;
  existingItems : nat;
  itemsToSync : list Item
}.

(** The loop [for (const item of allItems)]; [faults n] is what happens to
    the storage at the [n]-th item of the list. A thrown error is logged
    and the loop goes on with the next item. *)
Fixpoint persistFrom (cap : nat) (now : Z) (faults : nat -> Fault)
    (items : list Item) (st : Persist) : Persist :=
  match items with
  | [] => st
  | item :: rest =>
      if (cap <=? added st)%nat then st
      else
        let next := persistFrom cap now (fun n => faults (S n)) rest in
        match faults O with
        | GetThrows => next st
        | fault =>
            match stored st !! docId item with
            | Some _ =>
                next (mkPersist (stored st) (added st) (S (existingItems st))
                        (itemsToSync st))
            | None =>
                match fault with
                | SetThrows => next st
                | _ =>
                    next (mkPersist
                            (<[docId item := mkStored (data item) now]> (stored st))
                            (S (added st)) (existingItems st)
                            (itemsToSync st ++ [item]))
                end
            end
        end
  end.

Definition persist (cap : nat) (now : Z) (faults : nat -> Fault)
    (items : list Item) (content : gmap string Stored) : Persist :=
  persistFrom cap now faults items (mkPersist content O O []).

(** The item shape of the ranker. *)
Record GorseItem := mkGorseItem {
  ItemId : string;
  IsHidden : bool;
  Categories : list string;
  Timestamp : JsDate;
  Labels : list string;
  Comment : string
}.

Definition toGorseItem (item : Item) : GorseItem :=
  mkGorseItem (docId item) false (Content.tags (data item))
    (Content.publishedAt (data item))
    (if Content.important (data item) then ["important"] else [])
    (Content.title (data item)).

Inductive CollectResult :=
  | DryRun (feedsAttempted feedsSucceeded itemsFound : nat)
           (errors : list SourceError)
  | Complete (metrics : Metrics).

(** The run from the results of the fetcher groups on. *)
Definition collectFrom (groups : list (string * Result (list FetchResult)))
    (gorseRequest : list GorseItem -> Result unit)
    (faults : nat -> Fault) (cap : nat) (now : Z)
    (db : Db) (options : Options) : Db * CollectResult :=
  let allResults := map (fun f => catchEmpty (snd f)) (activeFetchers (sources options) groups) in
  let flatResults := concat allResults in
  let agg := aggregate flatResults in
  if dry options then
    (db, DryRun (aggAttempted agg) (aggSucceeded agg) (length (allItems agg))
           (aggErrors agg))
  else
    let p := persist cap now faults (allItems agg) (content db) in
    let syncedToGorse :=
      match itemsToSync p with
      | [] => O
      | _ =>
          let gorseItems := map toGorseItem (itemsToSync p) in
          match gorseRequest gorseItems with
          | Ok _ => length gorseItems
          | Throw _ => O
          end
      end in
    let metrics :=
      mkMetrics (aggAttempted agg) (aggSucceeded agg) (added p)
        (size (stored p)) syncedToGorse (aggErrors agg) in
    (mkDb (stored p) (Some metrics) (Some metrics), Complete metrics).

Definition collectAllContent (w : World)
    (gorseRequest : list GorseItem -> Result unit)
    (faults : nat -> Fault) (cap : nat) (now : Z)
    (db : Db) (options : Options) : Db * CollectResult :=
  collectFrom (fetchers w now) gorseRequest faults cap now db options.

End Collector.

(** ** The older feed parser of [ingestion.js] *)

Module Ingestion.
Import JsString.

(** [generateDocId(url, guid)] of [ingestion.js] *)
Definition isAlnum (c : ascii) : bool :=
  let n := N_of_ascii c in
  (((97 <=? n) && (n <=? 122)) || ((65 <=? n) && (n <=? 90))
   || ((48 <=? n) && (n <=? 57)))%N.

Definition generateDocId (url : string) (guid : option string) : string :=
  let source := orDefault guid url in
  substring0 100 (mapChars (fun c => if isAlnum c then c else "_"%char) source).

(** [extractPlainText(html)] *)
Definition extractPlainText (html : string) : string :=
  substring0 500
    (Collector.trim (Collector.collapseSpaces (Collector.stripTags html))).

(** A feed item as [parseFeed] reads it. *)
Record FeedItem := mkFeedItem {
  title : option string;
  link : option string;
  guid : option string;
  isoDate : option string;
  contentSnippet : option string;
  summary : option string;
  description : option string;
  itemContent : option string;
  contentEncoded : option string
}.

(** [contentData] of [parseFeed]: no license is recorded. *)
Record ContentData := mkContentData {
  cdTitle : string;
  excerpt : string;
  plain_text : string;
  tags : list string;
  publishedAt : JsDate;
  source : string;
  url : string;
  important : bool;
  contentType : string;
  createdAt : Z
}.

(** The record that [parseFeed] builds for an item with a link whose id
    is not stored yet. *)
Definition contentData (now : Z) (feedUrl : string) (tags : list string)
    (link : string) (item : FeedItem) : ContentData :=
  let excerpt :=
    orDefault (orElse (contentSnippet item)
                 (orElse (summary item) (description item))) "" in
  let plainText :=
    extractPlainText
      (orDefault (orElse (itemContent item)
                    (orElse (contentEncoded item) (Some excerpt))) "") in
  mkContentData (orDefault (title item) "Untitled") (substring0 300 excerpt)
    plainText tags
    (match truthy (isoDate item) with
     | Some d => DateParse d
     | None => DateMs now
     end)
    feedUrl link false "article" now.

Record ParsedFeed := mkParsedFeed {
  pfSuccess : bool;
  pfFeedUrl : string;
  totalItems : nat;
  newItems : list (string * ContentData);
  pfError : option string
}.

(** [parseFeed(feedUrl, tags, db)]; [exists id] is [doc.exists] for the
    document [id] of the [content] collection. *)
Definition parseFeed (parseURL : string -> Result (list FeedItem))
    (exists_ : string -> bool) (now : Z) (feedUrl : string)
    (tags : list string) : ParsedFeed :=
  match parseURL feedUrl with
  | Ok feedItems =>
      mkParsedFeed true feedUrl (length feedItems)
        (omap (fun item =>
                 match truthy (link item) with
                 | None => None
                 | Some l =>
                     let docId := generateDocId l (guid item) in
                     if exists_ docId then None
                     else Some (docId, contentData now feedUrl tags l item)
                 end) feedItems)
        None
  | Throw e => mkParsedFeed false feedUrl O [] (Some (message e))
  end.

(** *** Feed cooldown and the gathering loop of [ingestAllFeeds] *)

(** [process.env.MAX_ITEMS_PER_SYNC || '500'] *)
Definition MAX_ITEMS_PER_SYNC_default : nat := 500.
Definition FEED_COOLDOWN_MS : Z := 60 * 60 * 1000.

(** [isFeedOnCooldown(feedUrl)] at the instant [now]; a last fetch at 0
    is falsy. *)
Definition isFeedOnCooldown (now : Z) (feedUrl : string)
    (feedLastFetched : gmap string Z) : bool :=
  match feedLastFetched !! feedUrl with
  | Some lastFetch => negb (lastFetch =? 0) && (now - lastFetch <? FEED_COOLDOWN_MS)
  | None => false
  end.

(** [markFeedFetched(feedUrl)] *)
Definition markFeedFetched (now : Z) (feedUrl : string)
    (feedLastFetched : gmap string Z) : gmap string Z :=
  <[feedUrl := now]> feedLastFetched.

(** An entry of [FEED_SOURCES]. *)
Record FeedCategory := mkCategory {
  category : string;
  feeds : list string;
  categoryTags : list string
}.

Definition FEED_SOURCES : list FeedCategory :=
  [ mkCategory "ai-tech"
      [ "https://medium.com/feed/tag/artificial-intelligence";
        "https://towardsdatascience.com/feed";
        "https://feeds.arstechnica.com/arstechnica/index" ]
      ["ai"; "technology"];
    mkCategory "science-health"
      [ "https://www.sciencedaily.com/rss/top/science.xml";
        "https://www.nature.com/feeds/newsroom.xml";
        "https://www.nih.gov/news-events/news-releases/rss.xml" ]
      ["science"; "health"];
    mkCategory "poetry-literature"
      [ "https://www.poetryfoundation.org/rss/poems";
        "https://lithub.com/feed/";
        "https://www.theparisreview.org/blog/feed/";
        "https://www.themarginalian.org/feed/" ]
      ["poetry"; "literature"];
    mkCategory "environment"
      [ "https://earthobservatory.nasa.gov/feeds/rss/eo.rss";
        "https://www.unep.org/rss.xml" ]
      ["environment"; "climate"] ].

(** What the first loop of [ingestAllFeeds] keeps: the cooldown map, the
    items gathered and the counters of [stats]; the details that [debug]
    adds to the result are left out. *)
Record Gathered := mkGathered {
  feedLastFetched : gmap string Z;
  allNewItems : list (string * ContentData);
  totalFeeds : nat;
  successfulFeeds : nat;
  failedFeeds : nat;
  totalNewItems : nat;
  errors : list (string * option string)
}.

(** The world of a run: the parser, the documents stored when the run
    starts (nothing is written before the loop ends), the limit, the mode
    and the clock; [clock n] is the instant at which the run handles its
    [n]-th feed. *)
Record Run := mkRun {
  parseURL : string -> Result (list FeedItem);
  exists_ : string -> bool;
  maxItems : nat;
  mode : string;
  clock : nat -> Z
}.

(** [allNewItems.length >= MAX_ITEMS_PER_SYNC] *)
Definition limitReached (r : Run) (g : Gathered) : bool :=
  (maxItems r <=? length (allNewItems g))%nat.

(** The body of [for (const feedUrl of config.feeds)]: the state after
    it, and whether it ends in [break]. *)
Definition gatherFeed (r : Run) (tags : list string) (feedUrl : string)
    (g : Gathered) : Gathered * bool :=
  let now := clock r (totalFeeds g) in
  let g :=
    mkGathered (feedLastFetched g) (allNewItems g) (S (totalFeeds g))
      (successfulFeeds g) (failedFeeds g) (totalNewItems g) (errors g) in
  if bool_decide (mode r = "incremental")
     && isFeedOnCooldown now feedUrl (feedLastFetched g)
  then (g, false)
  else
    let result := parseFeed (parseURL r) (exists_ r) now feedUrl tags in
    let g :=
      if pfSuccess result then
        mkGathered (markFeedFetched now feedUrl (feedLastFetched g))
          (allNewItems g ++ newItems result) (totalFeeds g)
          (S (successfulFeeds g)) (failedFeeds g)
          (totalNewItems g + length (newItems result)) (errors g)
      else
        mkGathered (feedLastFetched g) (allNewItems g) (totalFeeds g)
          (successfulFeeds g) (S (failedFeeds g)) (totalNewItems g)
          (errors g ++ [(feedUrl, pfError result)]) in
    (g, limitReached r g).

Fixpoint gatherFeeds (r : Run) (tags : list string) (feeds : list string)
    (g : Gathered) : Gathered :=
  match feeds with
  | [] => g
  | feedUrl :: rest =>
      let '(g', stop) := gatherFeed r tags feedUrl g in
      if stop then g' else gatherFeeds r tags rest g'
  end.

(** [for (const [category, config] of Object.entries(FEED_SOURCES))] *)
Fixpoint gatherCategories (r : Run) (categories : list FeedCategory)
    (g : Gathered) : Gathered :=
  match categories with
  | [] => g
  | c :: rest =>
      let g' := gatherFeeds r (categoryTags c) (feeds c) g in
      if limitReached r g' then g' else gatherCategories r rest g'
  end.

(** The state with which a run starts, given the cooldown map. *)
Definition startOfRun (feedLastFetched : gmap string Z) : Gathered :=
  mkGathered feedLastFetched [] O O O O [].

(** The first loop of [ingestAllFeeds(db, gorseRequest, options)]. *)
Definition gather (r : Run) (feedLastFetched : gmap string Z) : Gathered :=
  gatherCategories r FEED_SOURCES (startOfRun feedLastFetched).

End Ingestion.

(** ** The recommendation engine of [index.js] *)

Module Recommender.
Import JsString.

Definition CACHE_TTL_MS : Z := 5 * 60 * 1000.
Definition RATE_LIMIT_MS : Z := 1 * 1000.

(** A document of the [users] collection, as far as it is read. *)
Record UserDoc := mkUser {
  interests : option (list string);
  displayName : option string
}.

(** A document of the [content] collection, as far as it is read;
    [publishedAt] is the instant of its Firestore timestamp. *)
Record ContentDoc := mkContent {
  tags : option (list string);
  publishedAt : option Z;
  important : bool;
  contentType : string;
  title : string;
  excerpt : string;
  url : string
}.

(** The Firestore that the engine reads. [recentContent cutoff] is the
    answer to the query on [content]:
    [where('publishedAt', '>=', cutoff).orderBy('publishedAt', 'desc').limit(300)],
    the documents with their ids in the order of the snapshot. *)
Record Firestore := mkFirestore {
  users : gmap string UserDoc;
  content : gmap string ContentDoc;
  recentContent : Z -> list (string * ContentDoc)
}.

Record RecItem := mkRecItem {
  contentId : string;
  score : Q;
  itemTitle : string;
  itemExcerpt : string;
  itemTags : option (list string);
  itemPublishedAt : option Z;
  itemUrl : string
}.

Record RecResult := mkResult {
  items : list RecItem;
  source : string;
  reason : option string;
  cached : bool
}.

(** *** Fallback scoring *)

(** [tags.filter(tag => userInterests.includes(tag)).length] *)
Definition tagMatchCount (userInterests tags : list string) : nat :=
  length (List.filter (fun tag => bool_decide (tag ∈ userInterests)) tags).

(** The test under [userInterests.some] of both matchers. *)
Definition containsEither (tag interest : string) : bool :=
  includes (toLowerCase tag) (toLowerCase interest)
  || includes (toLowerCase interest) (toLowerCase tag).

(** [userInterests.some(interest => ...)] for one tag *)
Definition partialTag (userInterests : list string) (tag : string) : bool :=
  existsb (containsEither tag) userInterests.

(** [tags.filter(tag => userInterests.some(...)).length] *)
Definition partialMatches (userInterests tags : list string) : nat :=
  length (List.filter (partialTag userInterests) tags).

(** [(Date.now() - publishedAt.getTime()) / (1000 * 60 * 60 * 24)] *)
Definition daysSince (now publishedAt : Z) : Q :=
  (inject_Z (now - publishedAt) / inject_Z (1000 * 60 * 60 * 24))%Q.

(** [Math.max(0, 5 - daysSince / 7)] *)
Definition recencyBoost (now publishedAt : Z) : Q :=
  Qmax 0 (5 - daysSince now publishedAt / 7)%Q.

Definition importanceBoost (data : ContentDoc) : Q :=
  if important data then 3%Q else 0%Q.

(** [data.contentType === 'article' ? 1 : 0.8] *)
Definition contentTypeBoost (data : ContentDoc) : Q :=
  if decide (contentType data = "article") then 1%Q else (8 # 10)%Q.

Definition fallbackScore (userInterests : list string) (now : Z)
    (data : ContentDoc) : Q :=
  let tags := default [] (tags data) in
  let publishedAt := default now (publishedAt data) in
  let tagMatchScore := inject_Z (Z.of_nat (tagMatchCount userInterests tags) * 10) in
  let partialMatchScore := inject_Z (Z.of_nat (partialMatches userInterests tags) * 5) in
  ((tagMatchScore + partialMatchScore + recencyBoost now publishedAt
    + importanceBoost data) * contentTypeBoost data)%Q.

(** The body of [contentSnapshot.forEach]: the scored item, when the
    document matches an interest at all. *)
Definition scoreDoc (userInterests : list string) (now : Z)
    (d : string * ContentDoc) : option RecItem :=
  let '(id, data) := d in
  let tags := default [] (tags data) in
  if (0 <? tagMatchCount userInterests tags)%nat
     || (0 <? partialMatches userInterests tags)%nat
  then Some (mkRecItem id (fallbackScore userInterests now data) (title data)
               (excerpt data) (Recommender.tags data)
               (Some (default now (publishedAt data))) (url data))
  else None.

(** [scoredItems.sort((a, b) => b.score - a.score)]: descending, and
    stable, as the sort of the engine is. *)
Fixpoint insertByScore (x : RecItem) (l : list RecItem) : list RecItem :=
  match l with
  | [] => [x]
  | y :: l' =>
      if Qle_bool (score y) (score x) then x :: l
      else y :: insertByScore x l'
  end.

Definition sortByScore (l : list RecItem) : list RecItem :=
  foldr insertByScore [] l.

(** The pool of the fallback: content of the last 120 days. *)
Definition cutoffDate (now : Z) : Z := now - 120 * (1000 * 60 * 60 * 24).

Definition fallbackEmpty (reason : string) : RecResult :=
  mkResult [] "fallback" (Some reason) false.

Definition getFallbackRecommendations (fs : Firestore) (now : Z)
    (uid : string) (count : nat) : RecResult :=
  match users fs !! uid with
  | None => fallbackEmpty "user_not_found"
  | Some user =>
      let userInterests := default [] (interests user) in
      match userInterests with
      | [] => fallbackEmpty "no_interests"
      | _ =>
          match recentContent fs (cutoffDate now) with
          | [] => fallbackEmpty "no_content"
          | snapshot =>
              let scoredItems := omap (scoreDoc userInterests now) snapshot in
              mkResult (take count (sortByScore scoredItems)) "fallback" None false
          end
      end
  end.

(** *** Cache and request throttle *)

Record CacheEntry := mkEntry {
  data : RecResult;
  timestamp : Z
}.

Definition getCacheKey (uid : string) (count : nat) : string :=
  uid +:+ ":" +:+ pretty count.

Definition getCachedRecommendations (now : Z) (uid : string) (count : nat)
    (cache : gmap string CacheEntry)
  : gmap string CacheEntry * option RecResult :=
  let key := getCacheKey uid count in
  match cache !! key with
  | None => (cache, None)
  | Some cached =>
      if CACHE_TTL_MS <? now - timestamp cached then (delete key cache, None)
      else (cache, Some (data cached))
  end.

Definition setCachedRecommendations (now : Z) (uid : string) (count : nat)
    (data : RecResult) (cache : gmap string CacheEntry)
  : gmap string CacheEntry :=
  <[getCacheKey uid count := mkEntry data now]> cache.

Definition invalidateCache (uid : string) (cache : gmap string CacheEntry)
  : gmap string CacheEntry :=
  filter (fun kv => startsWith (uid +:+ ":") (fst kv) = false) cache.

(** [lastCall && now - lastCall < RATE_LIMIT_MS]: a last call at 0 is
    falsy. *)
Definition checkRateLimit (now : Z) (uid : string) (rateLimitMap : gmap string Z)
  : gmap string Z * bool :=
  match rateLimitMap !! uid with
  | Some lastCall =>
      if negb (lastCall =? 0) && (now - lastCall <? RATE_LIMIT_MS)
      then (rateLimitMap, false)
      else (<[uid := now]> rateLimitMap, true)
  | None => (<[uid := now]> rateLimitMap, true)
  end.

(** *** The resolver *)

(** An entry of the answer of the ranker: an object with [Id] and
    [Score], or a bare id. *)
Inductive GorseRec :=
  | RecObject (Id : string) (Score : option Q)
  | RecString (id : string).

(** [rec.Id || rec] where it names a document; with an empty id the
    document reference cannot be built and the call throws. *)
Definition recId (rec : GorseRec) : option string :=
  match rec with
  | RecObject Id _ => truthy (Some Id)
  | RecString id => truthy (Some id)
  end.

(** [gorseRecommendations[idx].Score || 1.0] *)
Definition recScore (rec : GorseRec) : Q :=
  match rec with
  | RecObject _ (Some s) => if Qeq_bool s 0 then 1%Q else s
  | _ => 1%Q
  end.

(** [tags.some(tag => userInterests.includes(tag.toLowerCase()))] *)
Definition hasExactMatch (userInterests tags : list string) : bool :=
  existsb (fun tag => bool_decide (toLowerCase tag ∈ userInterests)) tags.

Definition hasPartialMatch (userInterests tags : list string) : bool :=
  existsb (partialTag userInterests) tags.

(** [userInterests.length === 0 || hasExactMatch || hasPartialMatch] *)
Definition relevant (userInterests tags : list string) : bool :=
  (length userInterests =? 0)%nat
  || hasExactMatch userInterests tags
  || hasPartialMatch userInterests tags.

(** The body of [contentDocs.forEach] for the candidate [rec] with the
    id [id]: the item pushed, if any. *)
Definition resolveCandidate (fs : Firestore) (userInterests : list string)
    (rec : GorseRec) (id : string) : option RecItem :=
  match content fs !! id with
  | None => None
  | Some data =>
      if relevant userInterests (default [] (tags data)) then
        Some (mkRecItem id (recScore rec) (title data) (excerpt data)
                (tags data) (publishedAt data) (url data))
      else None
  end.

(** The ranker path from the answer of the ranker on: [None] where the
    code throws into its [catch]. *)
Definition rankerItems (fs : Firestore) (now : Z) (uid : string) (count : nat)
    (gorseRecommendations : list GorseRec) : option (list RecItem) :=
  let recs := take count gorseRecommendations in
  itemIds ← mapM recId recs;
  let userInterests :=
    match users fs !! uid with
    | Some user => default [] (interests user)
    | None => []
    end in
  let items :=
    omap (fun p => resolveCandidate fs userInterests (fst p) (snd p))
         (zip recs itemIds) in
  let items :=
    if (length items <? count)%nat && (0 <? length userInterests)%nat then
      items ++ Recommender.items
                 (getFallbackRecommendations fs now uid (count - length items))
    else items in
  Some (take count items).

(** [getRecommendationsForUser(uid, count)]; [gorse uid n] is the answer
    of the ranker to [/api/recommend/uid?n=n]. *)
Definition getRecommendationsForUser (fs : Firestore)
    (gorse : string -> nat -> Result (list GorseRec)) (now : Z)
    (uid : string) (count : nat) (cache : gmap string CacheEntry)
  : gmap string CacheEntry * RecResult :=
  match getCachedRecommendations now uid count cache with
  | (cache, Some cached) =>
      (cache, mkResult (items cached) (source cached) (reason cached) true)
  | (cache, None) =>
      match gorse uid (count * 2)%nat with
      | Throw _ => (cache, getFallbackRecommendations fs now uid count)
      | Ok gorseRecommendations =>
          match take count gorseRecommendations with
          | [] => (cache, getFallbackRecommendations fs now uid count)
          | _ =>
              match rankerItems fs now uid count gorseRecommendations with
              | None => (cache, getFallbackRecommendations fs now uid count)
              | Some items =>
                  let result := mkResult items "gorse" None false in
                  (setCachedRecommendations now uid count result cache, result)
              end
          end
      end
  end.

(** *** The HTTP endpoints *)

Record State := mkState {
  cache : gmap string CacheEntry;
  rateLimitMap : gmap string Z
}.

Inductive Response :=
  | Json (recommendations : RecResult)
  | BadRequest400
  | RateLimited429.

(** [app.get('/recommendations')] with the query [uid] and the parsed
    [count]. *)
Definition recommendationsEndpoint (fs : Firestore)
    (gorse : string -> nat -> Result (list GorseRec)) (now : Z)
    (uid : option string) (count : nat) (st : State) : State * Response :=
  match truthy uid with
  | None => (st, BadRequest400)
  | Some uid =>
      match checkRateLimit now uid (rateLimitMap st) with
      | (rl, false) => (mkState (cache st) rl, RateLimited429)
      | (rl, true) =>
          let '(c, recommendations) :=
            getRecommendationsForUser fs gorse now uid count (cache st) in
          (mkState c rl, Json recommendations)
      end
  end.

(** The state part of [app.post('/invalidate-cache')]. *)
Definition invalidateEndpoint (uid : string) (st : State) : State :=
  mkState (invalidateCache uid (cache st)) (delete uid (rateLimitMap st)).

(** *** Other endpoints that touch the cache or the interests *)

Inductive SyncResponse :=
  | SyncDone
  | SyncBadRequest400
  | SyncFailed500 (message : string).

(** [app.post('/interaction/sync')]; [gorseRequest type userId contentId]
    is the answer of the ranker to the feedback. *)
Definition interactionSyncEndpoint
    (gorseRequest : string -> string -> string -> Result unit)
    (userId contentId type : option string) (st : State)
  : State * SyncResponse :=
  match truthy userId, truthy contentId, truthy type with
  | Some userId, Some contentId, Some type =>
      match gorseRequest type userId contentId with
      | Ok _ =>
          (mkState (invalidateCache userId (cache st)) (rateLimitMap st), SyncDone)
      | Throw error => (st, SyncFailed500 (message error))
      end
  | _, _, _ => (st, SyncBadRequest400)
  end.

(** The update that [app.post('/normalize-interests')] queues for one
    user document, if any. *)
Definition normalizedInterests (data : UserDoc) : option (list string) :=
  match interests data with
  | Some interests =>
      let normalized := map toLowerCase interests in
      if decide (interests = normalized) then None
      else Some normalized
  | None => None
  end.

(** The users after the batch is committed, and [usersUpdated]. *)
Definition normalizeInterestsEndpoint (users : gmap string UserDoc)
  : gmap string UserDoc * nat :=
  (fmap (fun data =>
           match normalizedInterests data with
           | Some l => mkUser (Some l) (displayName data)
           | None => data
           end) users,
   length (List.filter (fun kv => bool_decide (is_Some (normalizedInterests (snd kv))))
             (map_to_list users))).

End Recommender.

(** ** The Firestore to ranker synchronisation of [index.js] *)

Module Sync.
Import JsString.

(** [process.env.SYNC_PAGE_SIZE || '500'] *)
Definition SYNC_PAGE_SIZE_default : nat := 500.

Record GorseUser := mkGorseUser {
  UserId : string;
  UserLabels : list string;
  UserComment : string
}.

(** The item that [syncAllItems] builds of a content document. *)
Definition itemOfDoc (now : Z) (d : string * Recommender.ContentDoc)
  : Collector.GorseItem :=
  let '(id, data) := d in
  Collector.mkGorseItem id false (default [] (Recommender.tags data))
    (DateMs (default now (Recommender.publishedAt data)))
    (if Recommender.important data then ["important"] else [])
    (Recommender.title data).

(** The user that [syncAllUsers] builds of a user document. *)
Definition userOfDoc (d : string * Recommender.UserDoc) : GorseUser :=
  let '(id, data) := d in
  mkGorseUser id (default [] (Recommender.interests data))
    (orDefault (Recommender.displayName data) "").

(** What a sync returns. *)
Inductive SyncResult :=
  | Synced (totalSynced : nat)
  | SyncError (error : string).

(** How the [while (true)] of a sync ends, and the batches posted to the
    ranker on the way, in their order. *)
Record Paged (G : Type) := mkPaged {
  outcome : Result nat;
  posted : list (list G);
  queries : nat
}.
Arguments mkPaged {G} outcome posted queries.
Arguments outcome {G} p.
Arguments posted {G} p.
Arguments queries {G} p.

(** The loop of [syncAllItems], [syncAllUsers] and
    [syncRecentInteractions]. The collection does not change during the
    run: [remaining] are the documents of the query after the cursor
    [lastDoc], in the order of the query, and a page is the first
    [pageSize] of them. [post] is the ranker; [fuel] bounds the number of
    pages. *)
Fixpoint syncPages {D G} (toGorse : D -> G) (post : list G -> Result unit)
    (pageSize fuel : nat) (remaining : list D) (totalSynced : nat)
  : option (Paged G) :=
  match fuel with
  | O => None
  | S fuel' =>
      let snapshot := take pageSize remaining in
      match snapshot with
      | [] => Some (mkPaged (Ok totalSynced) [] 1)
      | _ =>
          let items := map toGorse snapshot in
          match post items with
          | Throw error => Some (mkPaged (Throw error) [] 1)
          | Ok _ =>
              let totalSynced := (totalSynced + length items)%nat in
              if (length snapshot <? pageSize)%nat
              then Some (mkPaged (Ok totalSynced) [items] 1)
              else
                p ← syncPages toGorse post pageSize fuel'
                      (drop pageSize remaining) totalSynced;
                Some (mkPaged (outcome p) (items :: posted p) (S (queries p)))
          end
      end
  end.

(** A sync as a whole: the loop, then the write of the metadata document
    [setMeta totalSynced]; an error of either is caught. *)
Definition syncAll {D G} (toGorse : D -> G) (post : list G -> Result unit)
    (setMeta : nat -> Result unit) (pageSize fuel : nat) (docs : list D)
  : option (SyncResult * list (list G)) :=
  p ← syncPages toGorse post pageSize fuel docs O;
  Some (match outcome p with
        | Ok totalSynced =>
            match setMeta totalSynced with
            | Ok _ => Synced totalSynced
            | Throw error => SyncError (message error)
            end
        | Throw error => SyncError (message error)
        end, posted p).

Definition syncAllItems (now : Z) := syncAll (itemOfDoc now).
Definition syncAllUsers := syncAll userOfDoc.

End Sync.

(** ** The article parser of [article-parser.js] *)

Module ArticleParser.
Import JsString.

(** [htmlToPlainText(html)]; a missing or empty [html] gives the empty
    string. *)
Definition htmlToPlainText (html : string) : string :=
  let text := Collector.stripTags html in
  let text :=
    Collector.replaceAll "&#39;" "'"
      (Collector.replaceAll "&quot;" (String (ascii_of_nat 34) EmptyString)
        (Collector.replaceAll "&gt;" ">"
          (Collector.replaceAll "&lt;" "<"
            (Collector.replaceAll "&amp;" "&"
              (Collector.replaceAll "&nbsp;" " " text))))) in
  Collector.trim (Collector.collapseSpaces text).

End ArticleParser.

(** ** The feed screen of [app/(tabs)/feed.tsx] *)

Module FeedScreen.
Import JsString.

(** [text.split(/\s+/).filter(word => word.length > 0).length]: the runs
    of characters other than white space; [inWord] tells that the
    character before belongs to such a run. *)
Fixpoint countWordsFrom (inWord : bool) (text : string) : nat :=
  match text with
  | EmptyString => O
  | String c text' =>
      if Collector.isSpace c then countWordsFrom false text'
      else ((if inWord then O else 1) + countWordsFrom true text')%nat
  end.

Definition countWords (text : string) : nat := countWordsFrom false text.

(** [getReadingTime(text)], in minutes; [Math.ceil(words / wordsPerMinute)]
    on natural numbers. *)
Definition getReadingTime (text : string) : nat :=
  let wordsPerMinute := 200%nat in
  let words := countWords text in
  if (words <? 50)%nat then 3%nat
  else Nat.max 1 ((words + (wordsPerMinute - 1)) / wordsPerMinute).

End FeedScreen.

(** ** The bookmarks of [services/bookmarkService.ts] *)

Module Bookmarks.
Import JsString.

Record Bookmark := mkBookmark {
  userId : string;
  contentId : string;
  title : string;
  url : string;
  excerpt : option string;
  tags : list string;
  bookmarkedAt : Z
}.

(** The id of the document of a bookmark: [`${userId}_${contentId}`]. *)
Definition bookmarkId (userId contentId : string) : string :=
  userId +:+ "_" +:+ contentId.

(** [bookmarks] is the collection, by document id; user ids and content
    ids are ids of the store, which hold no slash. [setDoc], [deleteDoc]
    and [getDocs] are what the store answers to the call: it is done, or
    it throws and the collection stays as it was. *)

(** [saveBookmark]: [setDoc] refuses a document with a field that is
    [undefined], so that a bookmark without excerpt is not written;
    whatever is thrown is caught and thrown again as one error. *)
Definition saveBookmark (setDoc : Result unit) (now : Z)
    (userId contentId title url : string) (excerpt : option string)
    (tags : list string) (bookmarks : gmap string Bookmark)
  : gmap string Bookmark * Result unit :=
  match excerpt, setDoc with
  | Some _, Ok _ =>
      (<[bookmarkId userId contentId :=
           mkBookmark userId contentId title url excerpt tags now]> bookmarks,
       Ok tt)
  | _, _ => (bookmarks, Throw (Error "Failed to save bookmark"))
  end.

Definition removeBookmark (deleteDoc : Result unit) (userId contentId : string)
    (bookmarks : gmap string Bookmark) : gmap string Bookmark * Result unit :=
  match deleteDoc with
  | Ok _ => (delete (bookmarkId userId contentId) bookmarks, Ok tt)
  | Throw _ => (bookmarks, Throw (Error "Failed to remove bookmark"))
  end.

(** [isBookmarked]: an error of the query is caught and answered with
    [false]. *)
Definition isBookmarked (getDocs : Result unit) (userId contentId : string)
    (bookmarks : gmap string Bookmark) : bool :=
  match getDocs with
  | Ok _ => bool_decide (is_Some (bookmarks !! bookmarkId userId contentId))
  | Throw _ => false
  end.

End Bookmarks.

(** * Notions of the statements, and sample inputs *)

Section CollectorNotions.
Import JsString Collector.

(** ** Document ids *)

Fixpoint endsWithSlash (s : string) : bool :=
  match s with
  | EmptyString => false
  | String c EmptyString => if ascii_dec c "/" then true else false
  | String _ s' => endsWithSlash s'
  end.

(** A character that [generateDocId] replaces by the filler and that
    plays no part in the scheme or in the trailing slash. *)
Definition fillerChar (c : ascii) : Prop :=
  isLowerAlnum c = false /\ c <> ":"%char /\ c <> "/"%char.

(** Two strings that agree but for the choice of such characters. *)
Inductive sameUpToFiller : string -> string -> Prop :=
  | sutf_nil : sameUpToFiller EmptyString EmptyString
  | sutf_same c s t :
      sameUpToFiller s t -> sameUpToFiller (String c s) (String c t)
  | sutf_filler a b s t :
      fillerChar a -> fillerChar b -> sameUpToFiller s t ->
      sameUpToFiller (String a s) (String b t).

(** ** Rate limiter *)





Definition burst15 : list (string * Z) := repeat ("example.com", 5000) 15.
Definition retry5 : list (string * Z) := repeat ("example.com", 6010) 5.

(** ** Retry *)

(** The call threw an error that [retryWithBackoff] retries. *)
Definition retryableError {A} (r : Result A) : bool :=
  match r with
  | Ok _ => false
  | Throw e => retryable (errorStatus e)
  end.

(** The delay after the failed attempt [i], in milliseconds. *)
Definition backoff (i : nat) : Z := 2 ^ Z.of_nat i * 1000.

Definition flaky (n : nat) : Result nat :=
  match n with
  | O => Throw (mkError "Service Unavailable" (Some 503) None)
  | 1%nat => Throw (mkError "Too Many Requests" None (Some 429))
  | _ => Ok 7%nat
  end.

Definition notFound (n : nat) : Result nat :=
  Throw (mkError "Not Found" (Some 404) None).

Definition alwaysDown (n : nat) : Result nat :=
  Throw (mkError "Bad Gateway" (Some 502) None).

(** ** Content records *)

(** [item.description || item.contentSnippet || item.summary || ''],
    stripped: the description of [normalizeContent]. *)
Definition strippedDescription (item : RawItem.t) : string :=
  stripHTML
    (orDefault
       (orElse (RawItem.description item)
          (orElse (RawItem.contentSnippet item) (RawItem.summary item))) "").

(** The record keeps no more than the capped excerpt. *)
Definition excerptOnly (c : Content.t) : Prop :=
  (String.length (Content.excerpt c) <= 200)%nat
  /\ Content.plain_text c = Content.excerpt c
  /\ Content.license c <> "public-domain".

(** All the results of a run of the fetchers of the collector. *)
Definition fetchedResults (w : World) (now : Z) : list FetchResult :=
  concat (map (fun f => catchEmpty (snd f)) (fetchers w now)).

Definition longSummary : string := string_of_list_ascii (repeat "a"%char 250).

Definition longFeedItem : Ingestion.FeedItem :=
  Ingestion.mkFeedItem (Some "A title") (Some "https://example.com/post")
    None None None (Some longSummary) None
    (Some (string_of_list_ascii (repeat "b"%char 600))) None.

Definition sampleRaw : RawItem.t :=
  RawItem.Make (Some "<b>Title</b>") (Some "<p>Some &amp; text</p>") None None
    None None None (Some "https://example.com/a") None.

(** ** Collection runs *)

(** The results of the fetcher groups that a run with [options] starts,
    in the order in which the run reads them. *)
Definition attemptedResults (w : World) (now : Z) (options : Options)
  : list FetchResult :=
  concat (map (fun f => catchEmpty (snd f))
            (activeFetchers (sources options) (fetchers w now))).

(** The items that the run finds: those of the results that succeeded. *)
Definition discovered (w : World) (now : Z) (options : Options) : list Item :=
  concat (map items (List.filter success (attemptedResults w now options))).

(** The entry of the error list for a failed result. *)
Definition errorEntry (r : FetchResult) : SourceError :=
  mkSourceError (source r) (orDefault (error r) "Unknown error").

Definition failed (r : FetchResult) : bool := negb (success r).




Definition resultAdded (res : CollectResult) : nat :=
  match res with
  | DryRun _ _ _ _ => O
  | Complete m => newItemsAdded m
  end.


(** A storage without faults. *)
Definition noFault : nat -> Fault := fun _ => NoFault.

(** The documents written for the items [new], in their order. *)
Definition writeAll (now : Z) (new : list Item) (content : gmap string Stored)
  : gmap string Stored :=
  foldl (fun m item => <[docId item := mkStored (data item) now]> m) content new.

(** What of a result does not depend on the instant of the fetch. *)
Definition outline (r : FetchResult) : bool * string * list string :=
  (success r, source r, map docId (items r)).

(** The groups of two runs, name by name, with the same outlines. *)
Definition sameGroups (g1 g2 : string * Result (list FetchResult)) : Prop :=
  fst g1 = fst g2
  /\ map outline (catchEmpty (snd g1)) = map outline (catchEmpty (snd g2)).

Definition post (n : nat) : RawItem.t :=
  RawItem.Make (Some ("Post " +:+ pretty n)) (Some "<p>Body</p>") None None
    None None None (Some ("https://example.com/post/" +:+ pretty n)) None.

(** Only the first feed answers, with [n] posts; every other source is
    down or has no key. *)
Definition oneFeed (n : nat) : World :=
  mkWorld
    (fun url =>
       if decide (url = "http://feeds.bbci.co.uk/news/rss.xml")
       then Ok (map post (seq 0 n)) else Throw (Error "timeout"))
    "" ""
    (fun _ _ => NetworkFailure (Error "down"))
    (fun _ => NetworkFailure (Error "down"))
    (fun _ => NetworkFailure (Error "down")).

Definition emptyDb : Db := mkDb ∅ None None.
Definition live : Options := mkOptions false None.
Definition gorseUp : list GorseItem -> Result unit := fun _ => Ok tt.

End CollectorNotions.

(** For the items of a fetcher, built by [omap]: each comes from
    [normalizeContent] with a license that is not public-domain, to which
    [lem] applies. *)
Ltac items_of_omap lem :=
  apply Forall_forall; intros x Hx;
  apply list_elem_of_omap in Hx as (y & _ & Hy);
  repeat match type of Hy with
         | match ?d with _ => _ end = Some _ => destruct d; try discriminate
         end;
  injection Hy as <-; simpl; apply lem; discriminate.


Section RecommenderNotions.
Import JsString Recommender.

(** ** Matching of tags and interests *)

(** [t] occurs in [s] as a run of consecutive characters. *)
Definition occursIn (t s : string) : Prop :=
  exists pre post, s = pre +:+ t +:+ post.

(** Equal without regard to case. *)
Definition ciEqual (tag interest : string) : Prop :=
  toLowerCase tag = toLowerCase interest.

(** One contains the other, without regard to case. *)
Definition ciContains (tag interest : string) : Prop :=
  occursIn (toLowerCase interest) (toLowerCase tag)
  \/ occursIn (toLowerCase tag) (toLowerCase interest).

(** ** Fallback scores *)

(** Following the words of the specification: the pairs of a tag and an
    interest of which one contains the other, without the pairs of equal
    strings, which count as exact. *)
Definition specPartialPairs (userInterests tags : list string) : nat :=
  length
    (List.filter
       (fun p => containsEither (fst p) (snd p)
                 && negb (bool_decide (fst p = snd p)))
       (list_prod tags userInterests)).

(** The score after the words of the specification. *)
Definition specScore (userInterests : list string) (now : Z) (data : ContentDoc)
  : Q :=
  let tags := default [] (tags data) in
  ((inject_Z (Z.of_nat (tagMatchCount userInterests tags) * 10)
    + inject_Z (Z.of_nat (specPartialPairs userInterests tags) * 5)
    + recencyBoost now (default now (publishedAt data))
    + importanceBoost data) * contentTypeBoost data)%Q.

(** The tags that match an interest in part and none verbatim. *)
Definition partialOnly (userInterests tags : list string) : nat :=
  length
    (List.filter
       (fun tag => partialTag userInterests tag
                   && negb (bool_decide (tag ∈ userInterests)))
       tags).

Definition day : Z := 1000 * 60 * 60 * 24.

Definition machineLearningDoc : ContentDoc :=
  mkContent (Some ["machine-learning"]) (Some 1000) false "article"
    "A title" "An excerpt" "https://example.com/ml".

Definition twoExactToday : ContentDoc :=
  mkContent (Some ["technology"; "design"]) (Some (40 * day)) false "poem"
    "A title" "An excerpt" "https://example.com/first".

Definition onePartialOld : ContentDoc :=
  mkContent (Some ["tech"; "poetry"]) (Some (40 * day - 30 * day)) true "article"
    "A title" "An excerpt" "https://example.com/second".

Definition technologyDesign : list string := ["technology"; "design"].

Definition taggedDoc (tags : list string) : ContentDoc :=
  mkContent (Some tags) (Some 0) false "article" "A title" "An excerpt"
    "https://example.com/a".

(** A user interested in technology and design, and three stored
    documents; the query for recent content finds nothing. *)
Definition sampleStore : Firestore :=
  mkFirestore
    {[ "u1" := mkUser (Some technologyDesign) (Some "User") ]}
    {[ "c1" := taggedDoc ["technology"];
       "c2" := taggedDoc ["tech-news"];
       "c3" := taggedDoc ["poetry"] ]}
    (fun _ => []).

Definition rankerUp (uid : string) (n : nat) : Result (list GorseRec) :=
  Ok [ RecObject "c1" (Some (9 # 10)); RecObject "c2" (Some (8 # 10));
       RecObject "c3" (Some (7 # 10)) ].

Definition rankerDown (uid : string) (n : nat) : Result (list GorseRec) :=
  Throw (Error "Gorse API error (503): unavailable").

(** ** Cache and request throttle *)

(** The cache holds for [(uid, count)] the entry [entry], not older than
    the time to live. *)
Definition freshEntry (now : Z) (uid : string) (count : nat)
    (cache : gmap string CacheEntry) (entry : CacheEntry) : Prop :=
  cache !! getCacheKey uid count = Some entry
  /\ now - timestamp entry <= CACHE_TTL_MS.

(** The cache holds nothing that is fresh for [(uid, count)]. *)
Definition noFreshEntry (now : Z) (uid : string) (count : nat)
    (cache : gmap string CacheEntry) : Prop :=
  forall entry, cache !! getCacheKey uid count = Some entry ->
    CACHE_TTL_MS < now - timestamp entry.

(** The user called less than the throttle window ago. *)
Definition throttled (now : Z) (uid : string) (rateLimitMap : gmap string Z)
  : Prop :=
  exists lastCall,
    rateLimitMap !! uid = Some lastCall /\ lastCall <> 0
    /\ now - lastCall < RATE_LIMIT_MS.

(** [{ ...cached, cached: true }] *)
Definition markCached (r : RecResult) : RecResult :=
  mkResult (items r) (source r) (reason r) true.

(** Every entry of the cache is a result of the ranker path. *)
Definition rankerOnly (cache : gmap string CacheEntry) : Prop :=
  forall key entry, cache !! key = Some entry ->
    source (data entry) = "gorse" /\ cached (data entry) = false.

(** The call of the ranker gives nothing to resolve: it throws, it
    answers no candidate, or a candidate without an id. *)
Definition rankerFails (gorse : string -> nat -> Result (list GorseRec))
    (uid : string) (count : nat) : Prop :=
  match gorse uid (count * 2)%nat with
  | Throw _ => True
  | Ok recs => take count recs = [] \/ mapM recId (take count recs) = None
  end.

(** Requests to the endpoint in their order: the instant, the user and
    the count of each; [gorseAt now] is the ranker at that instant. *)
Fixpoint serveAll (fs : Firestore)
    (gorseAt : Z -> string -> nat -> Result (list GorseRec))
    (requests : list (Z * string * nat)) (st : State)
  : State * list Response :=
  match requests with
  | [] => (st, [])
  | (now, uid, count) :: rest =>
      let '(st', response) :=
        recommendationsEndpoint fs (gorseAt now) now (Some uid) count st in
      let '(st'', responses) := serveAll fs gorseAt rest st' in
      (st'', response :: responses)
  end.

Definition emptyState : State := mkState ∅ ∅.

(** The ranker answers until the instant 2000 and is down from then on. *)
Definition rankerUntil2000 (now : Z) : string -> nat -> Result (list GorseRec) :=
  if now <? 2000 then rankerUp else rankerDown.

End RecommenderNotions.

(** * Notions of the further properties *)

Section RankingNotions.
Import JsString Recommender.




(** The interests that the ranker path reads for [uid]: those stored, or
    none where the user or the field is missing. *)
Definition storedInterests (fs : Firestore) (uid : string) : list string :=
  match users fs !! uid with
  | Some user => default [] (interests user)
  | None => []
  end.

(** The document [id] is stored and relevant to the interests. *)
Definition relevantStored (fs : Firestore) (userInterests : list string)
    (id : string) : bool :=
  match content fs !! id with
  | Some data => relevant userInterests (default [] (tags data))
  | None => false
  end.

(** A store with two documents the ranker may name, and a query for
    recent content that answers a third. *)
Definition mixedStore : Firestore :=
  mkFirestore
    {[ "u1" := mkUser (Some technologyDesign) (Some "User") ]}
    {[ "c1" := taggedDoc ["technology"];
       "c3" := taggedDoc ["poetry"];
       "new" := twoExactToday ]}
    (fun _ => [ ("new", twoExactToday) ]).

End RankingNotions.

Section CacheNotions.
Import JsString Recommender.

(** A call of one of the two endpoints that touch the throttle map. *)
Inductive Call :=
  | Recommendations (now : Z) (uid : string) (count : nat)
  | InvalidateCache (uid : string).

(** What a call answers: the response of the recommendations; that the
    cache and the throttle of the user are cleared (whatever the sync of
    the interests to the ranker, which comes after, answers); or that
    the invalidation is refused for want of a user id. *)
Inductive Reply :=
  | Answer (response : Response)
  | Invalidated
  | InvalidateBadRequest400.

(** Calls of the two endpoints in their order. *)
Fixpoint serveCalls (fs : Firestore)
    (gorseAt : Z -> string -> nat -> Result (list GorseRec))
    (calls : list Call) (st : State) : State * list Reply :=
  match calls with
  | [] => (st, [])
  | Recommendations now uid count :: rest =>
      let '(st', response) :=
        recommendationsEndpoint fs (gorseAt now) now (Some uid) count st in
      let '(st'', replies) := serveCalls fs gorseAt rest st' in
      (st'', Answer response :: replies)
  | InvalidateCache uid :: rest =>
      match truthy (Some uid) with
      | Some uid =>
          let '(st'', replies) := serveCalls fs gorseAt rest (invalidateEndpoint uid st) in
          (st'', Invalidated :: replies)
      | None =>
          let '(st'', replies) := serveCalls fs gorseAt rest st in
          (st'', InvalidateBadRequest400 :: replies)
      end
  end.

(** The instants at which [uid] was answered with recommendations, in
    runs: an invalidation for [uid] ends a run and starts the next. *)
Fixpoint answeredRuns (uid : string) (calls : list Call) (replies : list Reply)
  : list (list Z) :=
  match calls, replies with
  | Recommendations now u _ :: calls', Answer (Json _) :: replies' =>
      if decide (u = uid) then
        match answeredRuns uid calls' replies' with
        | run :: runs => (now :: run) :: runs
        | [] => [[now]]
        end
      else answeredRuns uid calls' replies'
  | InvalidateCache u :: calls', Invalidated :: replies' =>
      if decide (u = uid) then [] :: answeredRuns uid calls' replies'
      else answeredRuns uid calls' replies'
  | _ :: calls', _ :: replies' => answeredRuns uid calls' replies'
  | _, _ => [[]]
  end.

(** The instants of the requests for recommendations among the calls. *)
Definition instants (calls : list Call) : list Z :=
  omap (fun call => match call with
                    | Recommendations now _ _ => Some now
                    | InvalidateCache _ => None
                    end) calls.

(** The calls come at instants after the epoch that do not decrease. *)
Definition clockAdvancesOver (calls : list Call) : Prop :=
  StronglySorted Z.le (instants calls) /\ Forall (fun now => 0 < now) (instants calls).



End CacheNotions.

Section SyncNotions.
Import JsString Recommender.

(** All the interests of the user are in lower case. *)
Definition lowerCased (data : UserDoc) : Prop :=
  forall l i, interests data = Some l -> i ∈ l -> toLowerCase i = i.

Definition mixedCaseUsers : gmap string UserDoc :=
  {[ "u1" := mkUser (Some ["Technology"; "design"]) (Some "User");
     "u2" := mkUser (Some ["poetry"]) None;
     "u3" := mkUser None None ]}.

(** A ranker that accepts every batch, and one that rejects the batches
    that hold the document [bad]. *)
Definition acceptAll {G} : list G -> Result unit := fun _ => Ok tt.

Definition rejectWith (bad : nat) (batch : list nat) : Result unit :=
  if bool_decide (bad ∈ batch) then Throw (Error "Gorse API error (500): failed")
  else Ok tt.

End SyncNotions.

Section TextNotions.
Import JsString Collector.

(** Every character of the string passes the test. *)
Fixpoint allChars (p : ascii -> bool) (s : string) : bool :=
  match s with
  | EmptyString => true
  | String c s' => p c && allChars p s'
  end.

Definition startsBlank (s : string) : bool :=
  match s with
  | String c _ => isSpace c
  | EmptyString => false
  end.

Fixpoint endsBlank (s : string) : bool :=
  match s with
  | EmptyString => false
  | String c EmptyString => isSpace c
  | String _ s' => endsBlank s'
  end.

(** Every white-space character of the string is a blank, and no two
    follow each other. *)
Fixpoint singleBlanks (s : string) : bool :=
  match s with
  | EmptyString => true
  | String c s' =>
      (if isSpace c then bool_decide (c = " "%char) && negb (startsBlank s') else true)
      && singleBlanks s'
  end.

(** No [<] of the string has a [>] after it. *)
Fixpoint tagFree (s : string) : bool :=
  match s with
  | EmptyString => true
  | String c s' =>
      (if ascii_dec c "<" then negb (hasChar ">" s') else true) && tagFree s'
  end.

(** 0-9 and a-f. *)
Definition isHexDigit (c : ascii) : bool :=
  let n := N_of_ascii c in
  (((48 <=? n) && (n <=? 57)) || ((97 <=? n) && (n <=? 102)))%N.

(** 0-9, A-Z, a-z and the underscore. *)
Definition isIdChar (c : ascii) : bool :=
  Ingestion.isAlnum c || bool_decide (c = "_"%char).

End TextNotions.

Section ThinningNotions.
Import JsString Collector.

Definition notAngle (c : ascii) : Prop := c <> "<"%char /\ c <> ">"%char.

(** [t] comes from [s] by leaving characters out and by replacing
    characters other than angle brackets by such characters. *)
Inductive thinned : string -> string -> Prop :=
  | thinned_nil : thinned EmptyString EmptyString
  | thinned_skip c s t : thinned s t -> thinned (String c s) t
  | thinned_keep c s t : thinned s t -> thinned (String c s) (String c t)
  | thinned_swap c d s t :
      notAngle c -> notAngle d -> thinned s t ->
      thinned (String c s) (String d t).

Definition markedUp : Ingestion.FeedItem :=
  Ingestion.mkFeedItem (Some "A title") (Some "https://example.com/post")
    (Some "tag:example.com,2024:post/1") None None None None
    (Some "<p>Some   <b>bold</b> text</p> <") None.

End ThinningNotions.

Section GatherNotions.
Import JsString Ingestion.

(** The feeds of [FEED_SOURCES], in the order of a run. *)
Definition configuredFeeds : list string := concat (map feeds FEED_SOURCES).

(** One more feed counted, nothing else changed. *)
Definition counted (n : nat) (g : Gathered) : Gathered :=
  mkGathered (feedLastFetched g) (allNewItems g) (n + totalFeeds g)
    (successfulFeeds g) (failedFeeds g) (totalNewItems g) (errors g).

(** What holds of the state of a run that started with the cooldown map
    [m]. *)
Record Accounted (r : Run) (m : gmap string Z) (g : Gathered) : Prop := {
  acc_items : totalNewItems g = length (allNewItems g);
  acc_feeds : (successfulFeeds g + failedFeeds g <= totalFeeds g)%nat;
  acc_errors : length (errors g) = failedFeeds g;
  acc_unstored : Forall (fun it => exists_ r (fst it) = false) (allNewItems g);
  acc_marks : forall feedUrl t,
    feedLastFetched g !! feedUrl = Some t ->
    m !! feedUrl = Some t
    \/ exists n feedItems, t = clock r n /\ parseURL r feedUrl = Ok feedItems
}.

(** Every feed answers two posts; nothing is stored. *)
Definition twoPosts (link : string) : list FeedItem :=
  [ mkFeedItem (Some "First") (Some (link +:+ "/1")) None None None None None None None;
    mkFeedItem (Some "Second") (Some (link +:+ "/2")) None None None None None None None ].

Definition sampleRun (maxItems : nat) (mode : string) : Run :=
  mkRun (fun feedUrl => Ok (twoPosts feedUrl)) (fun _ => false) maxItems mode
    (fun n => 7200000 + Z.of_nat n).

(** All the configured feeds fetched at the instant [t]. *)
Definition allFetchedAt (t : Z) : gmap string Z :=
  list_to_map (map (fun feedUrl => (feedUrl, t)) configuredFeeds).

End GatherNotions.

Section CollectorCoverage.
Import JsString Collector.

(** The status of the response is not one of the 2xx. *)
Definition notOk (statusCode : Z) : Prop := statusCode < 200 \/ 300 <= statusCode.

(** The record of a fetched item agrees with the result it came in. *)
Definition wellFormedItem (r : FetchResult) (item : Item) : Prop :=
  docId item = generateDocId (Content.url (data item))
  /\ Content.source (data item) = source r
  /\ Content.important (data item) = false
  /\ (String.length (Content.title (data item)) <= 200)%nat.

(** The names of the fetcher groups. *)
Definition groupNames : list string :=
  ["news"; "ai-tech"; "science"; "poetry"; "environment"; "business";
   "design"; "health"; "newsapi"; "guardian"].

(** The metrics of a live run that starts no fetcher. *)
Definition idleMetrics (db : Db) : Metrics :=
  mkMetrics O O O (size (content db)) O [].

(** Every API answers 503; the feeds are down. *)
Definition unavailable : World :=
  mkWorld (fun _ => Throw (Error "timeout")) "news-key" "guardian-key"
    (fun _ _ => Response 503 (Ok None))
    (fun _ => Response 503 (Ok None))
    (fun _ => Response 503 (Ok [])).

End CollectorCoverage.

Section ClientNotions.
Import JsString.

Definition fiftyWords : string :=
  string_of_list_ascii (concat (repeat [" "%char; "a"%char] 50)).

End ClientNotions.

(** * Properties *)

(** ** The embedding computes: known digests and small runs *)

Example md5_empty : Md5.md5hex "" = "d41d8cd98f00b204e9800998ecf8427e".
Proof. vm_compute. reflexivity. Qed.

Example md5_abc : Md5.md5hex "abc" = "900150983cd24fb0d6963f7d28e17f72".
Proof. vm_compute. reflexivity. Qed.

Example md5_two_blocks :
  Md5.md5hex "yyyyyyyyyyyyyyyyyyyyyyyyyyyyyyyyyyyyyyyyyyyyyyyyyyyyyyyyyyyyyyyy"
  = "b0c4864f4e28d2d76929c38d87db7ed5".
Proof. vm_compute. reflexivity. Qed.

Example stripHTML_sample :
  Collector.stripHTML "<p>Hello&nbsp;<b>big</b>   world &amp;lt; </p> <unclosed"
  = "Hello big world < <unclosed".
Proof. vm_compute. reflexivity. Qed.

Example normalizeUrl_sample :
  Collector.normalizeUrl "HTTPS://Example.com/A-b/" = "example_com_a_b".
Proof. vm_compute. reflexivity. Qed.

Section StringFacts.
Import JsString.

Lemma length_substring0 n s :
  String.length (substring0 n s) = Nat.min n (String.length s).
Proof.
  revert s. induction n as [|n IH]; intros [|c s]; simpl; auto.
Qed.

Lemma lowerChar_idem c : lowerChar (lowerChar c) = lowerChar c.
Proof. destruct c as [[] [] [] [] [] [] [] []]; reflexivity. Qed.

Lemma toLowerCase_idem s : toLowerCase (toLowerCase s) = toLowerCase s.
Proof. induction s as [|c s IH]; simpl; [|rewrite lowerChar_idem, IH]; reflexivity. Qed.

Lemma append_cons c s t : String c s +:+ t = String c (s +:+ t).
Proof. reflexivity. Qed.

Lemma append_nil_l t : "" +:+ t = t.
Proof. reflexivity. Qed.

End StringFacts.

Section DocumentIds.
Import JsString Collector.

Lemma length_hex bs : String.length (Md5.hex bs) = (2 * length bs)%nat.
Proof. induction bs as [|b bs IH]; simpl; [reflexivity | rewrite IH; lia]. Qed.

Lemma length_md5hex s : String.length (Md5.md5hex s) = 32%nat.
Proof. unfold Md5.md5hex. rewrite length_hex. reflexivity. Qed.

Lemma length_generateDocId url : String.length (generateDocId url) = 20%nat.
Proof.
  unfold generateDocId. rewrite length_substring0, length_md5hex. reflexivity.
Qed.

Lemma lowerChar_slash c : lowerChar c = "/"%char <-> c = "/"%char.
Proof. destruct c as [[] [] [] [] [] [] [] []]; vm_compute; split; congruence. Qed.

Lemma toLowerCase_app s t : toLowerCase (s +:+ t) = toLowerCase s +:+ toLowerCase t.
Proof. induction s as [|c s IH]; simpl; [|rewrite IH]; reflexivity. Qed.

Lemma endsWithSlash_lower s : endsWithSlash (toLowerCase s) = endsWithSlash s.
Proof.
  induction s as [|c [|d s] IH]; [reflexivity| |].
  - simpl. destruct (ascii_dec (lowerChar c) "/") as [H|H], (ascii_dec c "/") as [H'|H'];
      try reflexivity.
    + destruct (lowerChar_slash c) as [F _]. elim H'. exact (F H).
    + destruct (lowerChar_slash c) as [_ F]. elim H. exact (F H').
  - exact IH.
Qed.

Lemma endsWithSlash_drop n s :
  endsWithSlash s = false -> endsWithSlash (dropChars n s) = false.
Proof.
  revert s. induction n as [|n IH]; intros [|c s] H; simpl; auto.
  apply IH. destruct s; [reflexivity | exact H].
Qed.

Lemma stripTrailingSlash_id t :
  endsWithSlash t = false -> stripTrailingSlash t = t.
Proof.
  induction t as [|c [|d t] IH]; intros H; [reflexivity| |].
  - simpl in *. destruct (ascii_dec c "/"); [discriminate | reflexivity].
  - change (String c (stripTrailingSlash (String d t)) = String c (String d t)).
    f_equal. apply IH. exact H.
Qed.

Lemma stripTrailingSlash_snoc t :
  endsWithSlash t = false -> stripTrailingSlash (t +:+ "/") = t.
Proof.
  induction t as [|c [|d t] IH]; intros H; [reflexivity| |].
  - reflexivity.
  - change (String c (stripTrailingSlash (String d t +:+ "/")) = String c (String d t)).
    f_equal. apply IH. exact H.
Qed.

Lemma startsWith_app p s t :
  startsWith p s = true -> startsWith p (s +:+ t) = true.
Proof.
  revert s. induction p as [|a p IH]; intros [|b s] H; simpl in *; auto; try discriminate.
  destruct (ascii_dec a b); [auto | discriminate].
Qed.

Lemma dropChars_app p s t :
  startsWith p s = true ->
  dropChars (String.length p) (s +:+ t) = dropChars (String.length p) s +:+ t.
Proof.
  revert s. induction p as [|a p IH]; intros [|b s] H; simpl in *; auto; try discriminate.
  destruct (ascii_dec a b); [auto | discriminate].
Qed.

Lemma snoc_inj s t c d :
  s +:+ String c "" = t +:+ String d "" -> s = t /\ c = d.
Proof.
  revert t. induction s as [|a s IH]; intros [|b t] H.
  - rewrite !append_nil_l in H. injection H as ->. auto.
  - rewrite append_nil_l, append_cons in H. injection H as -> H.
    destruct t; discriminate.
  - rewrite append_nil_l, append_cons in H. injection H as -> H.
    destruct s; discriminate.
  - rewrite !append_cons in H. injection H as -> H.
    destruct (IH _ H) as [-> ->]. auto.
Qed.

Lemma startsWith_snoc p s c :
  startsWith p s = false -> startsWith p (s +:+ String c "") = true ->
  p = s +:+ String c "".
Proof.
  revert s. induction p as [|a p IH]; intros [|b s] H1 H2; simpl in H1; try discriminate.
  - rewrite append_nil_l in *. simpl in H2.
    destruct (ascii_dec a c); [subst|discriminate].
    destruct p; [reflexivity|discriminate].
  - rewrite append_cons in *. simpl in H2.
    destruct (ascii_dec a b); [subst|discriminate].
    f_equal. apply IH; assumption.
Qed.

Lemma stripScheme_snoc s :
  endsWithSlash s = false -> stripScheme (s +:+ "/") = stripScheme s +:+ "/".
Proof.
  intros H. unfold stripScheme.
  destruct (startsWith "https://" s) eqn:E1.
  { rewrite (startsWith_app _ _ _ E1). exact (dropChars_app "https://" s "/" E1). }
  destruct (startsWith "https://" (s +:+ "/")) eqn:E1'.
  { exfalso. pose proof (startsWith_snoc _ _ _ E1 E1') as Hp.
    change "https://" with ("https:/" +:+ "/") in Hp.
    apply snoc_inj in Hp as [<- _]. discriminate H. }
  destruct (startsWith "http://" s) eqn:E2.
  { rewrite (startsWith_app _ _ _ E2). exact (dropChars_app "http://" s "/" E2). }
  destruct (startsWith "http://" (s +:+ "/")) eqn:E2'.
  { exfalso. pose proof (startsWith_snoc _ _ _ E2 E2') as Hp.
    change "http://" with ("http:/" +:+ "/") in Hp.
    apply snoc_inj in Hp as [<- _]. discriminate H. }
  reflexivity.
Qed.

Lemma normalizeUrl_trailing_slash u :
  endsWithSlash u = false -> normalizeUrl (u +:+ "/") = normalizeUrl u.
Proof.
  intros H. unfold normalizeUrl.
  rewrite toLowerCase_app. change (toLowerCase "/") with "/".
  assert (Hs : endsWithSlash (toLowerCase u) = false) by (rewrite endsWithSlash_lower; exact H).
  rewrite (stripScheme_snoc _ Hs).
  assert (Ht : endsWithSlash (stripScheme (toLowerCase u)) = false).
  { unfold stripScheme.
    destruct (startsWith "https://" _); [apply endsWithSlash_drop; exact Hs|].
    destruct (startsWith "http://" _); [apply endsWithSlash_drop; exact Hs|exact Hs]. }
  rewrite (stripTrailingSlash_snoc _ Ht), (stripTrailingSlash_id _ Ht). reflexivity.
Qed.

Lemma normalizeUrl_scheme u :
  normalizeUrl ("http://" +:+ u) = normalizeUrl ("https://" +:+ u).
Proof. reflexivity. Qed.

Lemma fillerChar_not_alnum a : fillerChar a -> isLowerAlnum a = false.
Proof. intros [H _]. exact H. Qed.

Lemma sameUpToFiller_startsWith p s t :
  (forall c, c ∈ list_ascii_of_string p ->
     isLowerAlnum c = true \/ c = ":"%char \/ c = "/"%char) ->
  sameUpToFiller s t -> startsWith p s = startsWith p t.
Proof.
  revert s t. induction p as [|a p IH]; intros s t Hp Hst; [reflexivity|].
  assert (Hp' : forall c, c ∈ list_ascii_of_string p ->
                 isLowerAlnum c = true \/ c = ":"%char \/ c = "/"%char).
  { intros c Hc. apply Hp. simpl. right. exact Hc. }
  assert (Ha : isLowerAlnum a = true \/ a = ":"%char \/ a = "/"%char).
  { apply Hp. simpl. left. }
  destruct Hst as [|c s t Hst|b d s t [Hb1 [Hb2 Hb3]] [Hd1 [Hd2 Hd3]] Hst]; simpl.
  - reflexivity.
  - destruct (ascii_dec a c); [apply IH; assumption | reflexivity].
  - destruct (ascii_dec a b) as [E1|E1], (ascii_dec a d) as [E2|E2];
      try reflexivity; exfalso; destruct Ha as [Ha|[Ha|Ha]]; congruence.
Qed.

Lemma sameUpToFiller_drop n s t :
  sameUpToFiller s t -> sameUpToFiller (dropChars n s) (dropChars n t).
Proof.
  intros H. revert n. induction H; intros [|n]; simpl; try constructor; auto.
Qed.

Lemma sameUpToFiller_stripScheme s t :
  sameUpToFiller s t -> sameUpToFiller (stripScheme s) (stripScheme t).
Proof.
  intros H. unfold stripScheme.
  rewrite (sameUpToFiller_startsWith "https://" s t), (sameUpToFiller_startsWith "http://" s t);
    try assumption.
  - destruct (startsWith "https://" t); [apply sameUpToFiller_drop; assumption|].
    destruct (startsWith "http://" t); [apply sameUpToFiller_drop; assumption|assumption].
  - intros c Hc. simpl in Hc.
    repeat (apply elem_of_cons in Hc as [->|Hc]; [vm_compute; tauto|]).
    inversion Hc.
  - intros c Hc. simpl in Hc.
    repeat (apply elem_of_cons in Hc as [->|Hc]; [vm_compute; tauto|]).
    inversion Hc.
Qed.

Lemma stripTrailingSlash_cons2 c d s :
  stripTrailingSlash (String c (String d s))
  = String c (stripTrailingSlash (String d s)).
Proof. reflexivity. Qed.

Lemma stripTrailingSlash_single c :
  stripTrailingSlash (String c "") = if ascii_dec c "/" then "" else String c "".
Proof. reflexivity. Qed.

Lemma sameUpToFiller_stripTrailingSlash s t :
  sameUpToFiller s t ->
  sameUpToFiller (stripTrailingSlash s) (stripTrailingSlash t).
Proof.
  induction 1 as [|c s t H IH|a b s t Ha Hb H IH].
  - constructor.
  - revert IH. destruct H; intros IH.
    + rewrite stripTrailingSlash_single. destruct (ascii_dec c "/"); repeat constructor.
    + rewrite !stripTrailingSlash_cons2. constructor. exact IH.
    + rewrite !stripTrailingSlash_cons2. constructor. exact IH.
  - revert IH. destruct H; intros IH.
    + rewrite !stripTrailingSlash_single.
      destruct (ascii_dec a "/") as [->|_]; [destruct Ha as [_ [_ Ha]]; congruence|].
      destruct (ascii_dec b "/") as [->|_]; [destruct Hb as [_ [_ Hb]]; congruence|].
      apply sutf_filler; [assumption..|constructor].
    + rewrite !stripTrailingSlash_cons2. apply sutf_filler; assumption.
    + rewrite !stripTrailingSlash_cons2. apply sutf_filler; assumption.
Qed.

Lemma sameUpToFiller_replaceNonAlnum s t :
  sameUpToFiller s t -> replaceNonAlnum s = replaceNonAlnum t.
Proof.
  unfold replaceNonAlnum.
  induction 1 as [|c s t H IH|a b s t Ha Hb H IH]; simpl.
  - reflexivity.
  - rewrite IH. reflexivity.
  - rewrite IH, (fillerChar_not_alnum _ Ha), (fillerChar_not_alnum _ Hb). reflexivity.
Qed.

Lemma normalizeUrl_filler u v :
  sameUpToFiller (toLowerCase u) (toLowerCase v) -> normalizeUrl u = normalizeUrl v.
Proof.
  intros H. unfold normalizeUrl. f_equal.
  apply sameUpToFiller_replaceNonAlnum, sameUpToFiller_stripTrailingSlash,
    sameUpToFiller_stripScheme, H.
Qed.

(** C8: the id of a URL is the first 20 hexadecimal digits of the MD5
    digest of the URL in lower case, without its scheme and without a
    trailing slash, every character outside a-z and 0-9 replaced by the
    filler, cut to 100 characters. It has 20 characters. Two URLs with the
    same normal form have the same id: URLs that differ in the case of
    letters, in http against https, by a trailing slash, or in the choice
    of the characters that the filler replaces. *)
Theorem generateDocId_deterministic :
  (forall url,
     generateDocId url
     = substring0 20
         (Md5.md5hex
            (substring0 100
               (replaceNonAlnum
                  (stripTrailingSlash (stripScheme (toLowerCase url)))))))
  /\ (forall url, String.length (generateDocId url) = 20%nat)
  /\ (forall u v, normalizeUrl u = normalizeUrl v -> generateDocId u = generateDocId v)
  /\ (forall u v, toLowerCase u = toLowerCase v -> generateDocId u = generateDocId v)
  /\ (forall u, generateDocId ("http://" +:+ u) = generateDocId ("https://" +:+ u))
  /\ (forall u, endsWithSlash u = false ->
                generateDocId (u +:+ "/") = generateDocId u)
  /\ (forall u v, sameUpToFiller (toLowerCase u) (toLowerCase v) ->
                  generateDocId u = generateDocId v).
Proof.
  repeat apply conj.
  - reflexivity.
  - apply length_generateDocId.
  - intros u v H. unfold generateDocId. rewrite H. reflexivity.
  - intros u v H. unfold generateDocId, normalizeUrl. rewrite H. reflexivity.
  - intros u. unfold generateDocId. rewrite normalizeUrl_scheme. reflexivity.
  - intros u H. unfold generateDocId. rewrite (normalizeUrl_trailing_slash _ H). reflexivity.
  - intros u v H. unfold generateDocId. rewrite (normalizeUrl_filler _ _ H). reflexivity.
Qed.

Lemma generateDocId_deterministic_witness :
  generateDocId "HTTPS://Example.com/A-b/" = generateDocId "http://example.com/a_b"
  /\ generateDocId "http://example.com/a_b" = "1d50f30a841c5989fdab".
Proof.
  destruct generateDocId_deterministic as (_ & _ & Hnorm & Hcase & Hscheme & Hslash & Hfill).
  split.
  - transitivity (generateDocId "https://example.com/a-b/").
    { apply Hcase. vm_compute. reflexivity. }
    transitivity (generateDocId "https://example.com/a-b").
    { apply (Hslash "https://example.com/a-b"). vm_compute. reflexivity. }
    transitivity (generateDocId "https://example.com/a_b").
    { apply Hfill. cbn.
      repeat first [ apply sutf_nil | apply sutf_same
                   | apply sutf_filler; [vm_compute; repeat split; congruence..|] ]. }
    symmetry. apply (Hscheme "example.com/a_b").
  - vm_compute. reflexivity.
Defined.

End DocumentIds.

Section RateLimiterFacts.
Import JsString Collector.
Import RateLimiter.








Lemma attempt_max host now rl :
  maxPerSecond (fst (attempt host now rl)) = maxPerSecond rl.
Proof. unfold attempt. destruct (pass _ _ _). reflexivity. Qed.




Lemma evict_head now oldest rest :
  oldest < now - 1000 -> evict now (oldest :: rest) = evict now rest.
Proof.
  intros H. simpl. destruct (Z.ltb_spec oldest (now - 1000)); [reflexivity | lia].
Qed.






Example throttle_burst :
  map (fun e => snd e) (snd (run burst15 (new 10)))
  = repeat Proceed 10 ++ repeat (Wait 1010) 5
  /\ map (fun e => snd e)
       (snd (run retry5 (fst (run burst15 (new 10)))))
     = repeat Proceed 5.
Proof. vm_compute. split; reflexivity. Qed.

End RateLimiterFacts.

Section RetryFacts.
Import JsString Collector.

Section RetryLoop.
Context {A : Type} (fn : nat -> Result A).

Lemma retryFrom_settles k : forall remaining i,
  (k < remaining)%nat ->
  (forall j, (j < k)%nat -> retryableError (fn (i + j)) = true) ->
  retryableError (fn (i + k)) = false ->
  retryFrom fn remaining i
  = mkRetried (fn (i + k)) (map backoff (seq i k)) (S k).
Proof.
  induction k as [|k IH]; intros remaining i Hk Hbefore Hat.
  - destruct remaining as [|remaining]; [lia|]. simpl.
    rewrite Nat.add_0_r in Hat |- *. unfold retryableError in Hat.
    destruct (fn i) as [a|e]; [reflexivity|]. rewrite Hat. reflexivity.
  - destruct remaining as [|remaining]; [lia|]. simpl.
    pose proof (Hbefore O ltac:(lia)) as H0. rewrite Nat.add_0_r in H0.
    unfold retryableError in H0. destruct (fn i) as [a|e]; [discriminate|].
    rewrite H0. rewrite (IH remaining (S i)).
    + cbn [outcome sleeps calls seq map]. replace (S i + k)%nat with (i + S k)%nat by lia.
      reflexivity.
    + lia.
    + intros j Hj. replace (S i + j)%nat with (i + S j)%nat by lia.
      apply Hbefore. lia.
    + replace (S i + k)%nat with (i + S k)%nat by lia. exact Hat.
Qed.

Lemma retryFrom_exhausts : forall remaining i,
  (forall j, (j < remaining)%nat -> retryableError (fn (i + j)) = true) ->
  retryFrom fn remaining i
  = mkRetried (Throw (Error "Max retries exceeded"))
      (map backoff (seq i remaining)) remaining.
Proof.
  induction remaining as [|remaining IH]; intros i Hall; [reflexivity|].
  simpl. pose proof (Hall O ltac:(lia)) as H0. rewrite Nat.add_0_r in H0.
  unfold retryableError in H0. destruct (fn i) as [a|e]; [discriminate|].
  rewrite H0, (IH (S i)); [reflexivity|].
  intros j Hj. replace (S i + j)%nat with (i + S j)%nat by lia. apply Hall. lia.
Qed.

End RetryLoop.

Lemma retryable_iff st :
  retryable st = true
  <-> exists s, st = Some s /\ (s = 429 \/ 500 <= s < 600).
Proof.
  unfold retryable. destruct st as [s|].
  - rewrite orb_true_iff, andb_true_iff, Z.eqb_eq, Z.leb_le, Z.ltb_lt. split.
    + intros H. exists s. split; [reflexivity | lia].
    + intros [s' [[= <-] H]]. lia.
  - split; [discriminate | intros [s [H _]]; discriminate].
Qed.

(** C9: [retryWithBackoff] calls [fn] again only after an error whose
    status is 429 or from 500 to 599, and sleeps [2^i] seconds after the
    failed attempt [i]. The first attempt that returns, or throws another
    error, ends the run with that value or that very error. When every
    attempt throws a retryable error the run ends with the error
    "Max retries exceeded", which none of the attempts threw. *)
Theorem retryWithBackoff_retries_only_retryable
    {A : Type} (fn : nat -> Result A) (maxRetries : nat) :
  (forall k, (k < maxRetries)%nat ->
     (forall j, (j < k)%nat -> retryableError (fn j) = true) ->
     retryableError (fn k) = false ->
     retryWithBackoff fn maxRetries
     = mkRetried (fn k) (map backoff (seq 0 k)) (S k))
  /\ ((forall j, (j < maxRetries)%nat -> retryableError (fn j) = true) ->
      retryWithBackoff fn maxRetries
      = mkRetried (Throw (Error "Max retries exceeded"))
          (map backoff (seq 0 maxRetries)) maxRetries
      /\ forall j, (j < maxRetries)%nat ->
           fn j <> Throw (Error "Max retries exceeded"))
  /\ (forall e,
        retryable (errorStatus e) = true
        <-> exists s, errorStatus e = Some s /\ (s = 429 \/ 500 <= s < 600)).
Proof.
  repeat apply conj.
  - intros k Hk Hbefore Hat. unfold retryWithBackoff.
    apply (retryFrom_settles fn k maxRetries O); assumption.
  - intros Hall. split.
    + unfold retryWithBackoff. apply retryFrom_exhausts. exact Hall.
    + intros j Hj E. specialize (Hall j Hj). rewrite E in Hall. discriminate.
  - intros e. apply retryable_iff.
Qed.

Lemma retryWithBackoff_retries_only_retryable_witness :
  retryWithBackoff flaky 3 = mkRetried (Ok 7%nat) [1000; 2000] 3
  /\ retryWithBackoff notFound 3
     = mkRetried (Throw (mkError "Not Found" (Some 404) None)) [] 1
  /\ retryWithBackoff alwaysDown 3
     = mkRetried (Throw (Error "Max retries exceeded")) [1000; 2000; 4000] 3.
Proof.
  split; [|split].
  - apply (proj1 (retryWithBackoff_retries_only_retryable flaky 3) 2%nat).
    + lia.
    + intros [|[|j]] Hj; [reflexivity | reflexivity | lia].
    + reflexivity.
  - apply (proj1 (retryWithBackoff_retries_only_retryable notFound 3) O).
    + lia.
    + intros j Hj. lia.
    + reflexivity.
  - apply (proj1 (proj2 (retryWithBackoff_retries_only_retryable alwaysDown 3))).
    intros j Hj. reflexivity.
Defined.

End RetryFacts.

Section ExcerptCap.
Import JsString Collector.

Lemma normalizeContent_excerpt now item source tags license contentType :
  let c := normalizeContent now item source tags license contentType in
  Content.excerpt c = substring0 200 (strippedDescription item)
  /\ (String.length (Content.excerpt c) <= 200)%nat
  /\ Content.license c = license
  /\ (license <> "public-domain" -> Content.plain_text c = Content.excerpt c)
  /\ (license = "public-domain" -> Content.plain_text c = strippedDescription item).
Proof.
  cbv zeta. unfold normalizeContent.
  cbn [Content.excerpt Content.plain_text Content.license].
  fold (strippedDescription item). repeat apply conj.
  - reflexivity.
  - rewrite length_substring0. lia.
  - reflexivity.
  - intros H. destruct (decide (license = "public-domain")); [contradiction | reflexivity].
  - intros H. destruct (decide (license = "public-domain")); [reflexivity | contradiction].
Qed.

Lemma normalizeContent_excerptOnly now item source tags license contentType :
  license <> "public-domain" ->
  excerptOnly (normalizeContent now item source tags license contentType).
Proof.
  intros H.
  destruct (normalizeContent_excerpt now item source tags license contentType)
    as (_ & Hlen & Hlic & Hplain & _).
  split; [exact Hlen | split; [exact (Hplain H) | rewrite Hlic; exact H]].
Qed.

Lemma fetchRSS_excerptOnly w now url tags contentType :
  Forall (fun item => excerptOnly (data item))
    (items (fetchRSS w now url tags "rss" contentType)).
Proof.
  unfold fetchRSS. destruct (parseURL w url); simpl; [|constructor].
  items_of_omap normalizeContent_excerptOnly.
Qed.

Lemma fetchFeeds_excerptOnly w now sources :
  Forall (fun r => Forall (fun item => excerptOnly (data item)) (items r))
    (fetchFeeds w now sources).
Proof.
  unfold fetchFeeds. apply Forall_map, Forall_forall. intros s _.
  apply fetchRSS_excerptOnly.
Qed.

Lemma fetchArXiv_excerptOnly w now :
  Forall (fun item => excerptOnly (data item)) (items (fetchArXiv w now)).
Proof.
  unfold fetchArXiv.
  destruct (outcome (retryWithBackoff _ 3)); simpl; [|constructor].
  items_of_omap normalizeContent_excerptOnly.
Qed.

Lemma newsApiTopic_excerptOnly w now topic :
  Forall (fun item => excerptOnly (data item)) (newsApiTopic w now topic).
Proof.
  unfold newsApiTopic.
  destruct (outcome (retryWithBackoff _ 3)) as [[articles|]|]; try constructor.
  items_of_omap normalizeContent_excerptOnly.
Qed.

Lemma fetchNewsAPI_excerptOnly w now :
  Forall (fun item => excerptOnly (data item)) (items (fetchNewsAPI w now)).
Proof.
  unfold fetchNewsAPI. destruct (decide (NEWSAPI_KEY w = "")); simpl; [constructor|].
  apply Forall_app. split; apply newsApiTopic_excerptOnly.
Qed.

Lemma fetchGuardianAPI_excerptOnly w now :
  Forall (fun item => excerptOnly (data item)) (items (fetchGuardianAPI w now)).
Proof.
  unfold fetchGuardianAPI. destruct (decide (GUARDIAN_API_KEY w = "")); simpl; [constructor|].
  destruct (outcome (retryWithBackoff _ 3)); simpl; [|constructor].
  items_of_omap normalizeContent_excerptOnly.
Qed.

Lemma fetchedResults_excerptOnly w now :
  Forall (fun r => Forall (fun item => excerptOnly (data item)) (items r))
    (fetchedResults w now).
Proof.
  unfold fetchedResults. apply Forall_concat, Forall_fmap, Forall_forall.
  intros group Hgroup. unfold fetchers in Hgroup.
  repeat (apply elem_of_cons in Hgroup as [->|Hgroup]);
    [..|inversion Hgroup]; cbn [snd catchEmpty compose];
    try apply fetchFeeds_excerptOnly.
  - unfold fetchScienceContent. apply Forall_app. split.
    + apply fetchFeeds_excerptOnly.
    + repeat constructor. apply fetchArXiv_excerptOnly.
  - repeat constructor. apply fetchNewsAPI_excerptOnly.
  - repeat constructor. apply fetchGuardianAPI_excerptOnly.
Qed.

Lemma contentData_caps now feedUrl tags link item :
  let cd := Ingestion.contentData now feedUrl tags link item in
  (String.length (Ingestion.excerpt cd) <= 300)%nat
  /\ (String.length (Ingestion.plain_text cd) <= 500)%nat.
Proof.
  cbv zeta. unfold Ingestion.contentData, Ingestion.extractPlainText.
  cbn [Ingestion.excerpt Ingestion.plain_text]. rewrite !length_substring0. lia.
Qed.

(** C2, as the code has it. A record of [normalizeContent] has an excerpt
    of at most 200 characters, the first 200 of the stripped description;
    its full text is the excerpt unless the license is public-domain, and
    the whole stripped description if it is. Every item that the fetchers
    of the collector produce keeps no more than the capped excerpt. A
    record of the older [parseFeed] has no license, an excerpt of at most
    300 characters and a plain text of at most 500. *)
Theorem normalizeContent_excerpt_cap :
  (forall now item source tags license contentType,
     let c := normalizeContent now item source tags license contentType in
     Content.excerpt c = substring0 200 (strippedDescription item)
     /\ (String.length (Content.excerpt c) <= 200)%nat
     /\ Content.license c = license
     /\ (license <> "public-domain" -> Content.plain_text c = Content.excerpt c)
     /\ (license = "public-domain" -> Content.plain_text c = strippedDescription item))
  /\ (forall w now r item,
        r ∈ fetchedResults w now -> item ∈ items r -> excerptOnly (data item))
  /\ (forall now feedUrl tags link item,
        let cd := Ingestion.contentData now feedUrl tags link item in
        (String.length (Ingestion.excerpt cd) <= 300)%nat
        /\ (String.length (Ingestion.plain_text cd) <= 500)%nat).
Proof.
  repeat apply conj.
  - apply normalizeContent_excerpt.
  - intros w now r item Hr Hitem.
    pose proof (fetchedResults_excerptOnly w now) as H.
    rewrite Forall_forall in H. specialize (H r Hr).
    rewrite Forall_forall in H. exact (H item Hitem).
  - apply contentData_caps.
Qed.

Lemma normalizeContent_excerpt_cap_witness :
  Content.plain_text (normalizeContent 0 sampleRaw "feed" ["news"] "rss" "article")
  = Content.excerpt (normalizeContent 0 sampleRaw "feed" ["news"] "rss" "article")
  /\ Content.plain_text
       (normalizeContent 0 sampleRaw "feed" ["news"] "public-domain" "article")
     = "Some & text".
Proof.
  destruct normalizeContent_excerpt_cap as (H & _ & _).
  split.
  - destruct (H 0 sampleRaw "feed" ["news"] "rss" "article")
      as (_ & _ & _ & Hrss & _).
    apply Hrss. discriminate.
  - destruct (H 0 sampleRaw "feed" ["news"] "public-domain" "article")
      as (_ & _ & _ & _ & Hpd).
    rewrite (Hpd eq_refl). vm_compute. reflexivity.
Defined.

(** The older parser keeps 250 characters of excerpt and 500 of plain text
    for an item of a feed. *)
Lemma parseFeed_exceeds_excerpt_cap :
  exists id cd,
    Ingestion.newItems
      (Ingestion.parseFeed (fun _ => Ok [longFeedItem]) (fun _ => false) 0
         "https://example.com/feed" ["news"]) = [(id, cd)]
    /\ String.length (Ingestion.excerpt cd) = 250%nat
    /\ String.length (Ingestion.plain_text cd) = 500%nat
    /\ Ingestion.plain_text cd <> Ingestion.excerpt cd
    /\ ~ (String.length (Ingestion.excerpt cd) <= 200)%nat.
Proof.
  eexists _, _. split; [reflexivity|].
  split; [vm_compute; reflexivity|].
  split; [vm_compute; reflexivity|].
  split; [vm_compute; discriminate|].
  vm_compute. lia.
Qed.

End ExcerptCap.

Section PersistLoop.
Import JsString Collector.

Section PersistFacts.
Context (cap : nat) (now : Z).

Lemma persistFrom_stop faults items st :
  (cap <= added st)%nat -> persistFrom cap now faults items st = st.
Proof.
  intros H. destruct items; simpl; [reflexivity|].
  destruct (Nat.leb_spec cap (added st)); [reflexivity | lia].
Qed.

(** The shape of a run of the loop: it appends to [itemsToSync] a
    sublist [new] of the items, writes these and nothing else. *)
Lemma persistFrom_shape items : forall faults st,
  exists new,
    sublist new items
    /\ itemsToSync (persistFrom cap now faults items st) = itemsToSync st ++ new
    /\ stored (persistFrom cap now faults items st) = writeAll now new (stored st)
    /\ added (persistFrom cap now faults items st) = (added st + length new)%nat
    /\ (added st <= cap -> added (persistFrom cap now faults items st) <= cap)%nat
    /\ Forall (fun item => stored st !! docId item = None) new
    /\ NoDup (map docId new).
Proof.
  induction items as [|item rest IH]; intros faults st.
  - exists []. simpl. rewrite app_nil_r, Nat.add_0_r.
    repeat split; auto; constructor.
  - simpl. destruct (Nat.leb_spec cap (added st)) as [Hcap|Hcap].
    { exists []. rewrite app_nil_r, Nat.add_0_r. simpl.
      repeat split; auto; try constructor. apply sublist_nil_l. }
    set (faults' := fun n => faults (S n)).
    assert (Hskip : forall st', stored st' = stored st -> added st' = added st ->
              itemsToSync st' = itemsToSync st ->
              exists new, sublist new (item :: rest)
                /\ itemsToSync (persistFrom cap now faults' rest st') = itemsToSync st ++ new
                /\ stored (persistFrom cap now faults' rest st') = writeAll now new (stored st)
                /\ added (persistFrom cap now faults' rest st') = (added st + length new)%nat
                /\ (added st <= cap -> added (persistFrom cap now faults' rest st') <= cap)%nat
                /\ Forall (fun item => stored st !! docId item = None) new
                /\ NoDup (map docId new)).
    { intros st' E1 E2 E3. destruct (IH faults' st') as (new & H1 & H2 & H3 & H4 & H5 & H6 & H7).
      exists new. rewrite E1, E2, E3 in *. repeat split; auto.
      apply sublist_cons. exact H1. }
    destruct (faults O) eqn:Ef.
    + destruct (stored st !! docId item) eqn:El.
      * apply Hskip; reflexivity.
      * destruct (IH faults' (mkPersist (<[docId item := mkStored (data item) now]> (stored st))
                     (S (added st)) (existingItems st) (itemsToSync st ++ [item])))
          as (new & H1 & H2 & H3 & H4 & H5 & H6 & H7).
        simpl in *. exists (item :: new). repeat split.
        -- apply sublist_skip. exact H1.
        -- rewrite H2, <- app_assoc. reflexivity.
        -- rewrite H3. reflexivity.
        -- rewrite H4. simpl. lia.
        -- intros _. apply H5. lia.
        -- constructor; [exact El|].
           eapply Forall_impl; [exact H6|]. simpl. intros x Hx.
           destruct (decide (docId item = docId x)) as [E|E].
           ++ rewrite E, lookup_insert_eq in Hx. discriminate.
           ++ rewrite lookup_insert_ne in Hx by exact E. exact Hx.
        -- simpl. constructor; [|exact H7].
           intros Hin. apply list_elem_of_fmap in Hin as (x & Ex & Hx).
           rewrite Forall_forall in H6. specialize (H6 x Hx).
           rewrite <- Ex, lookup_insert_eq in H6. discriminate.
    + apply Hskip; reflexivity.
    + destruct (stored st !! docId item) eqn:El; apply Hskip; reflexivity.
Qed.

Lemma persistFrom_preserves items : forall faults st id s,
  stored st !! id = Some s ->
  stored (persistFrom cap now faults items st) !! id = Some s.
Proof.
  induction items as [|item rest IH]; intros faults st id s Hid; [exact Hid|].
  simpl. destruct (Nat.leb_spec cap (added st)); [exact Hid|].
  destruct (faults O); [|apply IH; exact Hid|].
  - destruct (stored st !! docId item) eqn:El; apply IH; simpl; [exact Hid|].
    rewrite lookup_insert_ne; [exact Hid|]. intros E. congruence.
  - destruct (stored st !! docId item); apply IH; exact Hid.
Qed.

Lemma persistFrom_ext items : forall faults1 faults2 st,
  (forall n, faults1 n = faults2 n) ->
  persistFrom cap now faults1 items st = persistFrom cap now faults2 items st.
Proof.
  induction items as [|item rest IH]; intros faults1 faults2 st H; [reflexivity|].
  simpl. rewrite (H O).
  destruct (Nat.leb_spec cap (added st)); [reflexivity|].
  destruct (faults2 O); [|apply IH; intros; apply H|].
  - destruct (stored st !! docId item); apply IH; intros; apply H.
  - destruct (stored st !! docId item); apply IH; intros; apply H.
Qed.

(** Where every id is stored already, the loop writes nothing. *)
Lemma persistFrom_all_stored items : forall faults st,
  Forall (fun id => is_Some (stored st !! id)) (map docId items) ->
  stored (persistFrom cap now faults items st) = stored st
  /\ added (persistFrom cap now faults items st) = added st
  /\ itemsToSync (persistFrom cap now faults items st) = itemsToSync st.
Proof.
  induction items as [|item rest IH]; intros faults st Hall; [auto|].
  simpl. destruct (Nat.leb_spec cap (added st)); [auto|].
  inversion Hall as [|? ? [s Hs] Hrest]; subst. rewrite Hs.
  destruct (faults O);
    match goal with
    | |- context [persistFrom _ _ _ _ ?st'] =>
        destruct (IH (fun n => faults (S n)) st') as (H1 & H2 & H3);
          [exact Hrest | rewrite H1, H2, H3; auto]
    end.
Qed.

(** A loop without faults that ends below the cap has passed every item:
    all their ids are stored. *)
Lemma persistFrom_below_cap items : forall st,
  (added (persistFrom cap now noFault items st) < cap)%nat ->
  Forall (fun id => is_Some (stored (persistFrom cap now noFault items st) !! id))
    (map docId items).
Proof.
  induction items as [|item rest IH]; intros st Hlt; [constructor|].
  simpl in *. destruct (Nat.leb_spec cap (added st)); [simpl in Hlt; lia|].
  unfold noFault in *. fold noFault in *.
  change (fun n : nat => noFault (S n)) with noFault in *.
  destruct (stored st !! docId item) eqn:El.
  - constructor; [|apply IH; exact Hlt].
    eexists. apply persistFrom_preserves. exact El.
  - constructor; [|apply IH; exact Hlt].
    eexists. apply persistFrom_preserves. simpl. apply lookup_insert_eq.
Qed.

(** Without faults, of items with distinct ids none of which is stored,
    the loop writes the first [cap] and drops the rest. *)
Lemma persistFrom_take items : forall st,
  NoDup (map docId items) ->
  Forall (fun id => stored st !! id = None) (map docId items) ->
  itemsToSync (persistFrom cap now noFault items st)
  = itemsToSync st ++ take (cap - added st) items
  /\ added (persistFrom cap now noFault items st)
     = (added st + Nat.min (cap - added st) (length items))%nat.
Proof.
  induction items as [|item rest IH]; intros st Hnd Hnew.
  - simpl. rewrite take_nil, app_nil_r. split; [reflexivity | lia].
  - simpl. destruct (Nat.leb_spec cap (added st)) as [Hc|Hc].
    { replace (cap - added st)%nat with O by lia. simpl. rewrite app_nil_r.
      split; [reflexivity | lia]. }
    unfold noFault at 3. change (fun n : nat => noFault (S n)) with noFault.
    inversion Hnd as [|? ? Hnotin Hnd']; subst.
    inversion Hnew as [|? ? Hitem Hrest]; subst. rewrite Hitem.
    destruct (IH (mkPersist (<[docId item := mkStored (data item) now]> (stored st))
                    (S (added st)) (existingItems st) (itemsToSync st ++ [item])))
      as [H1 H2]; [exact Hnd'| |].
    { simpl. rewrite Forall_forall in Hrest |- *. intros id Hid.
      rewrite lookup_insert_ne; [apply Hrest; exact Hid|].
      intros E. subst. contradiction. }
    simpl in H1, H2. rewrite H1, H2, <- app_assoc. simpl.
    destruct (cap - added st)%nat as [|k] eqn:Ek; [lia|].
    replace (cap - S (added st))%nat with k by lia. simpl. split; [reflexivity | lia].
Qed.

End PersistFacts.

(** *** What a fetch finds does not depend on the instant of the fetch *)

Lemma omap_docId {X} (f g : X -> option Item) l :
  (forall x, docId <$> f x = docId <$> g x) ->
  map docId (omap f l) = map docId (omap g l).
Proof.
  intros H. induction l as [|x l IH]; [reflexivity|].
  change (omap f (x :: l))
    with (match f x with Some y => y :: omap f l | None => omap f l end).
  change (omap g (x :: l))
    with (match g x with Some y => y :: omap g l | None => omap g l end).
  specialize (H x). destruct (f x), (g x); simpl in H; try discriminate.
  - injection H as H. cbn [map]. rewrite H, IH. reflexivity.
  - exact IH.
Qed.

Lemma fetchRSS_outline w now1 now2 url tags license contentType :
  outline (fetchRSS w now1 url tags license contentType)
  = outline (fetchRSS w now2 url tags license contentType).
Proof.
  unfold fetchRSS, outline. destruct (parseURL w url); simpl; [|reflexivity].
  f_equal. apply omap_docId. intros x. destruct (truthy _); reflexivity.
Qed.

Lemma fetchFeeds_outline w now1 now2 sources :
  map outline (fetchFeeds w now1 sources) = map outline (fetchFeeds w now2 sources).
Proof.
  unfold fetchFeeds. rewrite !map_map. apply map_ext. intros s.
  apply fetchRSS_outline.
Qed.

Lemma fetchArXiv_outline w now1 now2 :
  outline (fetchArXiv w now1) = outline (fetchArXiv w now2).
Proof.
  unfold fetchArXiv, outline. destruct (outcome _); simpl; [|reflexivity].
  f_equal. apply omap_docId. intros x.
  destruct (titleMatch x), (linkMatch x); reflexivity.
Qed.

Lemma newsApiTopic_ids w now1 now2 topic :
  map docId (newsApiTopic w now1 topic) = map docId (newsApiTopic w now2 topic).
Proof.
  unfold newsApiTopic. destruct (outcome _) as [[articles|]|]; try reflexivity.
  apply omap_docId. intros x. destruct (truthy _); reflexivity.
Qed.

Lemma fetchNewsAPI_outline w now1 now2 :
  outline (fetchNewsAPI w now1) = outline (fetchNewsAPI w now2).
Proof.
  unfold fetchNewsAPI, outline. destruct (decide _); simpl; [reflexivity|].
  assert (E : map docId (newsApiTopic w now1 "science" ++ newsApiTopic w now1 "technology")
              = map docId (newsApiTopic w now2 "science" ++ newsApiTopic w now2 "technology")).
  { rewrite !map_app, (newsApiTopic_ids w now1 now2 "science"),
      (newsApiTopic_ids w now1 now2 "technology"). reflexivity. }
  rewrite E. f_equal. f_equal.
  rewrite <- (length_map docId), E, length_map. reflexivity.
Qed.

Lemma fetchGuardianAPI_outline w now1 now2 :
  outline (fetchGuardianAPI w now1) = outline (fetchGuardianAPI w now2).
Proof.
  unfold fetchGuardianAPI, outline. destruct (decide _); simpl; [reflexivity|].
  destruct (outcome _); simpl; [|reflexivity].
  f_equal. apply omap_docId. intros x. destruct (truthy _); reflexivity.
Qed.

Lemma fetchers_outline w now1 now2 :
  Forall2 sameGroups (fetchers w now1) (fetchers w now2).
Proof.
  unfold fetchers.
  repeat (apply List.Forall2_cons; [split; [reflexivity|]; cbn [snd catchEmpty]|]);
    [..|apply List.Forall2_nil];
    try apply fetchFeeds_outline.
  - unfold fetchScienceContent. rewrite !map_app, (fetchFeeds_outline w now1 now2).
    simpl. rewrite (fetchArXiv_outline w now1 now2). reflexivity.
  - simpl. rewrite (fetchNewsAPI_outline w now1 now2). reflexivity.
  - simpl. rewrite (fetchGuardianAPI_outline w now1 now2). reflexivity.
Qed.

Lemma activeFetchers_outline sources gs1 gs2 :
  Forall2 sameGroups gs1 gs2 ->
  map outline (concat (map (fun f => catchEmpty (snd f)) (activeFetchers sources gs1)))
  = map outline (concat (map (fun f => catchEmpty (snd f)) (activeFetchers sources gs2))).
Proof.
  intros H. unfold activeFetchers. destruct sources as [names|].
  - induction H as [|g1 g2 gs1 gs2 [Hn Ho] _ IH]; [reflexivity|].
    rewrite !filter_cons, Hn.
    destruct (decide (g2.1 ∈ names)); [|exact IH].
    simpl. rewrite !map_app, Ho, IH. reflexivity.
  - induction H as [|g1 g2 gs1 gs2 [Hn Ho] _ IH]; [reflexivity|].
    simpl. rewrite !map_app, Ho, IH. reflexivity.
Qed.

Lemma outline_ids rs1 : forall rs2,
  map outline rs1 = map outline rs2 ->
  map docId (concat (map items (List.filter success rs1)))
  = map docId (concat (map items (List.filter success rs2))).
Proof.
  induction rs1 as [|r1 rs1 IH]; intros [|r2 rs2] H; simpl in H; try discriminate;
    [reflexivity|].
  injection H as Hs _ Hi H.
  simpl. rewrite Hs. destruct (success r2); [|apply IH; exact H].
  simpl. rewrite !map_app, Hi, (IH rs2 H). reflexivity.
Qed.

End PersistLoop.

Section FailureIsolation.
Import JsString Collector.

Lemma aggregate_from results : forall acc,
  fold_left aggregateStep results acc
  = mkAggregate
      (allItems acc ++ concat (map items (List.filter success results)))
      (aggErrors acc ++ map errorEntry (List.filter failed results))
      (aggAttempted acc + length results)
      (aggSucceeded acc + length (List.filter success results)).
Proof.
  induction results as [|r results IH]; intros [its errs att suc]; simpl.
  - rewrite !app_nil_r, !Nat.add_0_r. reflexivity.
  - rewrite IH. unfold aggregateStep, failed. destruct (success r); simpl.
    + rewrite <- app_assoc. f_equal; lia.
    + rewrite <- app_assoc. f_equal; lia.
Qed.

Lemma aggregate_spec results :
  aggregate results
  = mkAggregate (concat (map items (List.filter success results)))
      (map errorEntry (List.filter failed results))
      (length results) (length (List.filter success results)).
Proof. unfold aggregate. rewrite aggregate_from. reflexivity. Qed.










Lemma collectAllContent_live w gorseRequest faults cap now db options :
  dry options = false ->
  let p := persist cap now faults (discovered w now options) (content db) in
  exists synced,
    collectAllContent w gorseRequest faults cap now db options
    = (mkDb (stored p)
         (Some (mkMetrics (length (attemptedResults w now options))
            (length (List.filter success (attemptedResults w now options)))
            (added p) (size (stored p)) synced
            (map errorEntry (List.filter failed (attemptedResults w now options)))))
         (Some (mkMetrics (length (attemptedResults w now options))
            (length (List.filter success (attemptedResults w now options)))
            (added p) (size (stored p)) synced
            (map errorEntry (List.filter failed (attemptedResults w now options))))),
       Complete (mkMetrics (length (attemptedResults w now options))
            (length (List.filter success (attemptedResults w now options)))
            (added p) (size (stored p)) synced
            (map errorEntry (List.filter failed (attemptedResults w now options))))).
Proof.
  intros Hdry p. unfold collectAllContent, collectFrom.
  fold (attemptedResults w now options).
  rewrite aggregate_spec, Hdry. cbn [allItems aggAttempted aggSucceeded aggErrors].
  fold (discovered w now options). fold p.
  eexists. reflexivity.
Qed.



End FailureIsolation.

Section CollectionRuns.
Import JsString Collector.

Lemma discovered_ids w now1 now2 options :
  map docId (discovered w now1 options) = map docId (discovered w now2 options).
Proof.
  unfold discovered. apply outline_ids. unfold attemptedResults.
  apply activeFetchers_outline, fetchers_outline.
Qed.

(** C4, as the code has it. A live run persists, in the order of arrival,
    a sublist of the items found; a document that exists is kept as it is;
    the items persisted were not stored before, have distinct ids and
    number at most [cap]; without faults, of items with distinct unstored
    ids exactly the first [cap] are persisted and the rest are dropped. A
    run without faults that ends below the cap leaves nothing to a second
    run on the same sources. *)
Theorem collectAllContent_persists_up_to_cap
    (w : World) (gorseRequest : list GorseItem -> Result unit)
    (faults : nat -> Fault) (cap : nat) (now : Z) (db : Db) (options : Options) :
  dry options = false ->
  let found := discovered w now options in
  let p := persist cap now faults found (content db) in
  let run := collectAllContent w gorseRequest faults cap now db options in
  content (fst run) = stored p
  /\ resultAdded (snd run) = length (itemsToSync p)
  /\ sublist (itemsToSync p) found
  /\ content (fst run) = writeAll now (itemsToSync p) (content db)
  /\ Forall (fun item => content db !! docId item = None) (itemsToSync p)
  /\ NoDup (map docId (itemsToSync p))
  /\ (forall id s, content db !! id = Some s -> content (fst run) !! id = Some s)
  /\ (resultAdded (snd run) <= cap)%nat
  /\ ((forall n, faults n = NoFault) ->
      NoDup (map docId found) ->
      Forall (fun id => content db !! id = None) (map docId found) ->
      itemsToSync p = take cap found
      /\ resultAdded (snd run) = Nat.min cap (length found))
  /\ ((forall n, faults n = NoFault) ->
      (resultAdded (snd run) < cap)%nat ->
      forall gorseRequest' faults' now',
        let run' :=
          collectAllContent w gorseRequest' faults' cap now' (fst run) options in
        resultAdded (snd run') = O /\ content (fst run') = content (fst run)).
Proof.
  intros Hdry. cbv zeta.
  destruct (collectAllContent_live w gorseRequest faults cap now db options Hdry)
    as [synced Hrun]. cbv zeta in Hrun. rewrite Hrun. cbn [fst snd content resultAdded newItemsAdded].
  unfold persist.
  set (P := persistFrom cap now faults (discovered w now options)
              (mkPersist (content db) O O [])).
  destruct (persistFrom_shape cap now (discovered w now options) faults
              (mkPersist (content db) O O []))
    as (new & Hsub & Hsync & Hstored & Hadded & Hcap & Hnew & Hnd).
  fold P in Hsync, Hstored, Hadded, Hcap.
  cbn [stored added itemsToSync app Nat.add] in Hsync, Hstored, Hadded, Hcap, Hnew.
  repeat apply conj.
  - reflexivity.
  - rewrite Hsync. exact Hadded.
  - rewrite Hsync. exact Hsub.
  - rewrite Hsync. exact Hstored.
  - rewrite Hsync. exact Hnew.
  - rewrite Hsync. exact Hnd.
  - intros id s Hid. apply persistFrom_preserves. exact Hid.
  - apply Hcap. lia.
  - intros Hfaults Hdistinct Hfresh. unfold P.
    rewrite (persistFrom_ext cap now _ faults noFault) by exact Hfaults.
    destruct (persistFrom_take cap now (discovered w now options)
                (mkPersist (content db) O O []) Hdistinct Hfresh) as [H1 H2].
    cbn [added itemsToSync app Nat.add] in H1, H2. rewrite Nat.sub_0_r in H1, H2.
    split; assumption.
  - intros Hfaults Hbelow gorseRequest' faults' now'.
    unfold P in Hbelow |- *.
    rewrite (persistFrom_ext cap now _ faults noFault) in Hbelow |- * by exact Hfaults.
    pose proof (persistFrom_below_cap cap now _ _ Hbelow) as Hall.
    rewrite (discovered_ids w now now' options) in Hall.
    set (db1 := mkDb _ _ _).
    destruct (collectAllContent_live w gorseRequest' faults' cap now' db1 options Hdry)
      as [synced' Hrun']. cbv zeta in Hrun'. rewrite Hrun'.
    cbn [fst snd content resultAdded newItemsAdded]. unfold persist.
    destruct (persistFrom_all_stored cap now' (discovered w now' options) faults'
                (mkPersist (content db1) O O []) Hall) as (E1 & E2 & _).
    rewrite E1, E2. split; reflexivity.
Qed.

Lemma collectAllContent_persists_up_to_cap_witness :
  resultAdded (snd (collectAllContent (oneFeed 3) gorseUp noFault 2000 1000 emptyDb live))
  = 3%nat
  /\ resultAdded
       (snd (collectAllContent (oneFeed 3) gorseUp noFault 2000 2000
               (fst (collectAllContent (oneFeed 3) gorseUp noFault 2000 1000 emptyDb live))
               live))
     = O.
Proof.
  destruct (collectAllContent_persists_up_to_cap (oneFeed 3) gorseUp noFault 2000 1000
              emptyDb live eq_refl)
    as (_ & Hadded & _ & _ & _ & _ & _ & _ & _ & Hrerun).
  assert (H3 : resultAdded
                 (snd (collectAllContent (oneFeed 3) gorseUp noFault 2000 1000 emptyDb live))
               = 3%nat) by (vm_compute; reflexivity).
  split; [exact H3|].
  apply (Hrerun (fun n => eq_refl)).
  rewrite H3. lia.
Defined.

(** With a cap of 2 and a feed of three new posts, the first run persists
    two of them and the second run, on the same sources, the third. *)
Lemma collectAllContent_second_run_adds_items :
  resultAdded (snd (collectAllContent (oneFeed 3) gorseUp noFault 2 1000 emptyDb live))
  = 2%nat
  /\ resultAdded
       (snd (collectAllContent (oneFeed 3) gorseUp noFault 2 2000
               (fst (collectAllContent (oneFeed 3) gorseUp noFault 2 1000 emptyDb live))
               live))
     = 1%nat
  /\ ~ (resultAdded
          (snd (collectAllContent (oneFeed 3) gorseUp noFault 2 2000
                  (fst (collectAllContent (oneFeed 3) gorseUp noFault 2 1000 emptyDb live))
                  live))
        = O).
Proof.
  assert (H : resultAdded
       (snd (collectAllContent (oneFeed 3) gorseUp noFault 2 2000
               (fst (collectAllContent (oneFeed 3) gorseUp noFault 2 1000 emptyDb live))
               live)) = 1%nat) by (vm_compute; reflexivity).
  split; [vm_compute; reflexivity|]. split; [exact H|]. rewrite H. discriminate.
Qed.

End CollectionRuns.

Section Relevance.
Import JsString Recommender.

Lemma append_nil_r s : s +:+ "" = s.
Proof. induction s as [|c s IH]; [reflexivity|]. rewrite append_cons, IH. reflexivity. Qed.

Lemma startsWith_spec p s :
  startsWith p s = true <-> exists post, s = p +:+ post.
Proof.
  revert s. induction p as [|a p IH]; intros s.
  - split; [intros _; exists s; reflexivity | reflexivity].
  - destruct s as [|b s]; simpl.
    + split; [discriminate | intros [post H]; discriminate].
    + destruct (ascii_dec a b) as [->|Hne].
      * rewrite IH. split; intros [post H]; exists post.
        -- rewrite append_cons, H. reflexivity.
        -- rewrite append_cons in H. injection H as H. exact H.
      * split; [discriminate|]. intros [post H]. rewrite append_cons in H.
        injection H as H _. congruence.
Qed.

(** [includes] finds exactly the strings that occur. *)
Lemma includes_spec s t : includes s t = true <-> occursIn t s.
Proof.
  unfold occursIn. induction s as [|c s IH].
  - simpl. rewrite orb_false_r, startsWith_spec. split.
    + intros [post H]. exists "", post. exact H.
    + intros [[|a pre] [post H]].
      * exists post. exact H.
      * rewrite append_cons in H. discriminate.
  - simpl. rewrite orb_true_iff, startsWith_spec, IH. split.
    + intros [[post H]|[pre [post H]]].
      * exists "", post. exact H.
      * exists (String c pre), post. rewrite append_cons, H. reflexivity.
    + intros [[|a pre] [post H]].
      * left. exists post. exact H.
      * right. rewrite append_cons in H. injection H as _ H. exists pre, post. exact H.
Qed.

Lemma includes_refl s : includes s s = true.
Proof. apply includes_spec. exists "", "". rewrite append_nil_r. reflexivity. Qed.

Lemma containsEither_spec tag interest :
  containsEither tag interest = true <-> ciContains tag interest.
Proof.
  unfold containsEither, ciContains.
  rewrite orb_true_iff, !includes_spec. reflexivity.
Qed.

Lemma ciEqual_contains tag interest : ciEqual tag interest -> ciContains tag interest.
Proof.
  unfold ciEqual, ciContains. intros ->. left.
  apply includes_spec, includes_refl.
Qed.

Lemma partialTag_spec userInterests tag :
  partialTag userInterests tag = true
  <-> exists interest, interest ∈ userInterests /\ ciContains tag interest.
Proof.
  unfold partialTag. rewrite existsb_exists. split.
  - intros [i [Hi H]]. exists i. split; [apply list_elem_of_In; exact Hi|].
    apply containsEither_spec. exact H.
  - intros [i [Hi H]]. exists i. split; [apply list_elem_of_In; exact Hi|].
    apply containsEither_spec. exact H.
Qed.

Lemma hasPartialMatch_spec userInterests tags :
  hasPartialMatch userInterests tags = true
  <-> exists tag interest,
        tag ∈ tags /\ interest ∈ userInterests /\ ciContains tag interest.
Proof.
  unfold hasPartialMatch. rewrite existsb_exists. split.
  - intros [tag [Ht H]]. apply partialTag_spec in H as [i [Hi H]].
    exists tag, i. repeat split; [apply list_elem_of_In|..]; assumption.
  - intros (tag & i & Ht & Hi & H). exists tag.
    split; [apply list_elem_of_In; exact Ht|]. apply partialTag_spec. eauto.
Qed.

(** The exact test of the resolver compares the tag in lower case with
    the interest as it is; whatever it finds, the partial test finds. *)
Lemma hasExactMatch_partial userInterests tags :
  hasExactMatch userInterests tags = true -> hasPartialMatch userInterests tags = true.
Proof.
  unfold hasExactMatch. rewrite existsb_exists. intros [tag [Ht H]].
  apply bool_decide_eq_true in H. apply hasPartialMatch_spec.
  exists tag, (toLowerCase tag). split; [apply list_elem_of_In; exact Ht|].
  split; [exact H|]. apply ciEqual_contains. unfold ciEqual.
  rewrite toLowerCase_idem. reflexivity.
Qed.

Lemma relevant_iff userInterests tags :
  relevant userInterests tags = true
  <-> userInterests = []
      \/ (exists tag interest,
            tag ∈ tags /\ interest ∈ userInterests /\ ciEqual tag interest)
      \/ (exists tag interest,
            tag ∈ tags /\ interest ∈ userInterests /\ ciContains tag interest).
Proof.
  unfold relevant. rewrite !orb_true_iff, Nat.eqb_eq, hasPartialMatch_spec. split.
  - intros [[H|H]|H].
    + left. destruct userInterests; [reflexivity | discriminate].
    + right. right. apply hasPartialMatch_spec, hasExactMatch_partial, H.
    + right. right. exact H.
  - intros [->|[(tag & i & Ht & Hi & H)|H]].
    + left. left. reflexivity.
    + right. exists tag, i. repeat split; try assumption.
      apply ciEqual_contains, H.
    + right. exact H.
Qed.

(** A verbatim match is a partial match too. *)
Lemma verbatim_partialTag userInterests tag :
  tag ∈ userInterests -> partialTag userInterests tag = true.
Proof.
  intros H. apply partialTag_spec. exists tag. split; [exact H|].
  apply ciEqual_contains. reflexivity.
Qed.

Lemma filter_length_zero {A} (P : A -> bool) l :
  length (List.filter P l) = O <-> forall x, x ∈ l -> P x = false.
Proof.
  induction l as [|x l IH]; simpl.
  - split; [intros _ x Hx; inversion Hx | reflexivity].
  - destruct (P x) eqn:E; simpl.
    + split; [discriminate|]. intros H. specialize (H x ltac:(left)). congruence.
    + rewrite IH. split.
      * intros H y Hy. apply elem_of_cons in Hy as [->|Hy]; auto.
      * intros H y Hy. apply H. right. exact Hy.
Qed.

(** What the filter of the resolver drops, the fallback does not score. *)
Lemma irrelevant_not_scored userInterests now id data :
  relevant userInterests (default [] (tags data)) = false ->
  scoreDoc userInterests now (id, data) = None.
Proof.
  intros H. unfold relevant in H.
  apply orb_false_iff in H as [H Hp]. apply orb_false_iff in H as [_ He].
  unfold scoreDoc.
  assert (Hp0 : partialMatches userInterests (default [] (tags data)) = O).
  { unfold partialMatches. apply filter_length_zero. intros tag Ht.
    unfold hasPartialMatch in Hp.
    destruct (partialTag userInterests tag) eqn:E; [|reflexivity].
    assert (existsb (partialTag userInterests) (default [] (tags data)) = true).
    { apply existsb_exists. exists tag. split; [apply list_elem_of_In; exact Ht | exact E]. }
    congruence. }
  assert (He0 : tagMatchCount userInterests (default [] (tags data)) = O).
  { unfold tagMatchCount. apply filter_length_zero. intros tag Ht.
    apply bool_decide_eq_false. intros Hin.
    pose proof (verbatim_partialTag _ _ Hin) as E.
    assert (existsb (partialTag userInterests) (default [] (tags data)) = true).
    { apply existsb_exists. exists tag. split; [apply list_elem_of_In; exact Ht | exact E]. }
    unfold hasPartialMatch in Hp. congruence. }
  rewrite Hp0, He0. reflexivity.
Qed.

(** C6, as the code has it: a candidate that resolves to a stored record
    is kept exactly when the user has no interests, or a tag equals an
    interest without regard to case, or of a tag and an interest one
    contains the other without regard to case; what is dropped does not
    come back through the fallback. With the interests technology and
    design, a record tagged technology is kept, and so is one tagged
    tech; records tagged tech-news or poetry are dropped. *)
Theorem resolveCandidate_keeps_relevant :
  (forall fs userInterests rec id,
     (is_Some (resolveCandidate fs userInterests rec id)
      <-> exists data,
            content fs !! id = Some data
            /\ (userInterests = []
                \/ (exists tag interest,
                      tag ∈ default [] (tags data) /\ interest ∈ userInterests
                      /\ ciEqual tag interest)
                \/ (exists tag interest,
                      tag ∈ default [] (tags data) /\ interest ∈ userInterests
                      /\ ciContains tag interest)))
     /\ (forall item, resolveCandidate fs userInterests rec id = Some item ->
           contentId item = id /\ Qeq (score item) (recScore rec))
     /\ (forall data now, content fs !! id = Some data ->
           resolveCandidate fs userInterests rec id = None ->
           scoreDoc userInterests now (id, data) = None))
  /\ relevant technologyDesign ["technology"] = true
  /\ relevant technologyDesign ["tech"] = true
  /\ relevant technologyDesign ["tech-news"] = false
  /\ relevant technologyDesign ["poetry"] = false.
Proof.
  split; [|repeat split; vm_compute; reflexivity].
  intros fs userInterests rec id. unfold resolveCandidate. split; [|split].
  - destruct (content fs !! id) as [data|] eqn:E.
    + destruct (relevant userInterests (default [] (tags data))) eqn:R.
      * split; [|intros _; eexists; reflexivity].
        intros _. exists data. split; [reflexivity|]. apply relevant_iff, R.
      * split; [intros [x H]; discriminate|].
        intros (data' & [= <-] & H). apply relevant_iff in H. congruence.
    + split; [intros [x H]; discriminate | intros (data' & H & _); discriminate].
  - intros item H. destruct (content fs !! id) as [data|]; [|discriminate].
    destruct (relevant _ _); [|discriminate]. injection H as <-. split; reflexivity.
  - intros data now E H. rewrite E in H.
    destruct (relevant userInterests (default [] (tags data))) eqn:R; [discriminate|].
    apply irrelevant_not_scored, R.
Qed.

Lemma resolveCandidate_keeps_relevant_witness :
  scoreDoc technologyDesign 0 ("c2", taggedDoc ["tech-news"]) = None
  /\ is_Some (resolveCandidate sampleStore technologyDesign (RecString "c1") "c1").
Proof.
  destruct resolveCandidate_keeps_relevant as [H _].
  destruct (H sampleStore technologyDesign (RecString "c2") "c2") as (_ & _ & Hdrop).
  destruct (H sampleStore technologyDesign (RecString "c1") "c1") as (Hkeep & _ & _).
  split.
  - apply Hdrop; vm_compute; reflexivity.
  - apply Hkeep. exists (taggedDoc ["technology"]). split; [vm_compute; reflexivity|].
    right. left. exists "technology", "technology".
    split; [constructor|]. split; [constructor | reflexivity].
Defined.

(** The candidate tagged tech-news is dropped: neither tech-news nor
    technology contains the other. *)
Lemma resolver_drops_tech_news :
  map contentId
    (items (snd (getRecommendationsForUser sampleStore rankerUp 1000 "u1" 20 ∅)))
  = ["c1"]
  /\ resolveCandidate sampleStore technologyDesign (RecObject "c2" (Some (8 # 10))) "c2"
     = None
  /\ relevant technologyDesign ["tech-news"] = false.
Proof. vm_compute. repeat split; reflexivity. Qed.

End Relevance.

Section FallbackScore.
Import JsString Recommender.

(** A verbatim match counts under both heads of the score. *)
Lemma partialMatches_split userInterests tags :
  partialMatches userInterests tags
  = (tagMatchCount userInterests tags + partialOnly userInterests tags)%nat.
Proof.
  unfold partialMatches, tagMatchCount, partialOnly.
  induction tags as [|tag tags IH]; [reflexivity|]. simpl.
  destruct (bool_decide (tag ∈ userInterests)) eqn:E.
  - apply bool_decide_eq_true in E.
    rewrite (verbatim_partialTag _ _ E). simpl. rewrite IH. reflexivity.
  - destruct (partialTag userInterests tag); simpl; rewrite IH; lia.
Qed.

Lemma partialOnly_spec userInterests tag :
  partialTag userInterests tag && negb (bool_decide (tag ∈ userInterests)) = true
  <-> (exists interest, interest ∈ userInterests /\ ciContains tag interest)
      /\ tag ∉ userInterests.
Proof.
  rewrite andb_true_iff, negb_true_iff, bool_decide_eq_false, partialTag_spec.
  reflexivity.
Qed.

Lemma daysSince_nonneg now publishedAt :
  publishedAt <= now -> (0 <= daysSince now publishedAt)%Q.
Proof.
  intros H. unfold daysSince, Qdiv. apply Qmult_le_0_compat.
  - change 0%Q with (inject_Z 0). rewrite <- Zle_Qle. lia.
  - vm_compute. discriminate.
Qed.

Lemma daysSince_days now publishedAt n :
  now - publishedAt = n * day -> (daysSince now publishedAt == inject_Z n)%Q.
Proof.
  intros H. unfold daysSince. rewrite H. unfold day.
  rewrite inject_Z_mult. field. vm_compute. discriminate.
Qed.

Lemma recencyBoost_bounds now publishedAt :
  (0 <= recencyBoost now publishedAt)%Q
  /\ (publishedAt <= now -> (recencyBoost now publishedAt <= 5)%Q)
  /\ (35 * day <= now - publishedAt ->
      (recencyBoost now publishedAt == 0)%Q).
Proof.
  unfold recencyBoost. repeat apply conj.
  - apply Q.le_max_l.
  - intros H. apply Q.max_lub; [lra|].
    pose proof (daysSince_nonneg now publishedAt H) as Hd.
    unfold Qdiv. assert (E : (/ 7 == 1 # 7)%Q) by reflexivity. rewrite E. lra.
  - intros H. apply Q.max_l.
    assert (Hd : (35 <= daysSince now publishedAt)%Q).
    { unfold daysSince. apply Qle_shift_div_l; [reflexivity|].
      change (35 * inject_Z (1000 * 60 * 60 * 24))%Q with (inject_Z (35 * day)).
      rewrite <- Zle_Qle. exact H. }
    unfold Qdiv. assert (E : (/ 7 == 1 # 7)%Q) by reflexivity. rewrite E. lra.
Qed.

Lemma boosts_bounds data :
  (0 <= importanceBoost data <= 3)%Q
  /\ ((8 # 10) <= contentTypeBoost data <= 1)%Q.
Proof.
  unfold importanceBoost, contentTypeBoost.
  destruct (important data), (decide (contentType data = "article")); split; split; lra.
Qed.

Lemma inject_nat_nonneg n k : (0 <= k)%Z -> (0 <= inject_Z (Z.of_nat n * k))%Q.
Proof. intros H. change 0%Q with (inject_Z 0). rewrite <- Zle_Qle. lia. Qed.

(** C1, as the code has it. For every candidate the score is
    [(exactMatches * 10 + partialMatches * 5 + recencyBoost
      + importanceBoost) * contentTypeFactor]. [exactMatches] counts the
    tags that are verbatim in the interest set. [partialMatches] counts
    tags, each at most once however many interests it matches: every tag
    that matches an interest in part and is not verbatim in the set
    counts, and no tag counts that matches no interest; whether a tag
    counted as exact counts again is left open, so that the count lies
    between the tags that match in part only and those plus the exact
    matches. So a candidate without a verbatim match gets [5] for each
    partially matching tag, and in general each verbatim match gets [10]
    and at most [5] more. The factor is [1] for an article and [0.8] for
    anything else. A candidate with two verbatim matches published
    today scores strictly higher than one with a single partial match
    published thirty days ago. *)
Theorem fallbackScore_formula (userInterests : list string) (now : Z) :
  (forall data,
     let tags := default [] (tags data) in
     let sum (matches : Z) : Q :=
       ((inject_Z matches + recencyBoost now (default now (publishedAt data))
         + importanceBoost data) * contentTypeBoost data)%Q in
     (tagMatchCount userInterests tags = O <-> forall tag, tag ∈ tags -> tag ∉ userInterests)
     /\ (forall tag,
           partialTag userInterests tag && negb (bool_decide (tag ∈ userInterests)) = true
           <-> (exists interest, interest ∈ userInterests /\ ciContains tag interest)
               /\ tag ∉ userInterests)
     /\ (tagMatchCount userInterests tags = O ->
         (fallbackScore userInterests now data
          == sum (Z.of_nat (partialOnly userInterests tags) * 5)%Z)%Q)
     /\ (sum (Z.of_nat (tagMatchCount userInterests tags) * 10
              + Z.of_nat (partialOnly userInterests tags) * 5)%Z
         <= fallbackScore userInterests now data)%Q
     /\ (importanceBoost data == if important data then 3 else 0)%Q
     /\ (contentTypeBoost data
         == if decide (contentType data = "article") then 1 else 8 # 10)%Q
     /\ (is_Some (scoreDoc userInterests now ("id", data))
         <-> (0 < tagMatchCount userInterests tags
              \/ 0 < partialOnly userInterests tags)%nat)
     /\ (fallbackScore userInterests now data
         == sum (Z.of_nat (tagMatchCount userInterests tags) * 10
                 + Z.of_nat (partialMatches userInterests tags) * 5)%Z)%Q
     /\ (partialOnly userInterests tags <= partialMatches userInterests tags
         <= partialOnly userInterests tags + tagMatchCount userInterests tags)%nat
     /\ (partialMatches userInterests tags <= length tags)%nat
     /\ (fallbackScore userInterests now data
         <= sum (Z.of_nat (tagMatchCount userInterests tags) * 15
                 + Z.of_nat (partialOnly userInterests tags) * 5)%Z)%Q)
  /\ (forall publishedAt,
        (recencyBoost now publishedAt
         == Qmax 0 (5 - (inject_Z (now - publishedAt) / inject_Z day) / 7))%Q
        /\ (0 <= recencyBoost now publishedAt)%Q
        /\ (publishedAt <= now -> (recencyBoost now publishedAt <= 5)%Q)
        /\ (35 * day <= now - publishedAt ->
            (recencyBoost now publishedAt == 0)%Q))
  /\ (forall first second,
        tagMatchCount userInterests (default [] (tags first)) = 2%nat ->
        publishedAt first = Some now ->
        tagMatchCount userInterests (default [] (tags second)) = O ->
        partialMatches userInterests (default [] (tags second)) = 1%nat ->
        publishedAt second = Some (now - 30 * day) ->
        (fallbackScore userInterests now second
         < fallbackScore userInterests now first)%Q).
Proof.
  split; [|split].
  - intros data. cbv zeta.
    set (tags := default [] (Recommender.tags data)).
    pose proof (partialMatches_split userInterests tags) as Hsplit.
    pose proof (recencyBoost_bounds now (default now (publishedAt data))) as (HR & _ & _).
    pose proof (boosts_bounds data) as [[HI _] [HF _]].
    split; [|split; [|split; [|split; [|split; [|split; [|split; [|split; [|split; [|split]]]]]]]]].
    + unfold tagMatchCount. rewrite filter_length_zero. split.
      * intros H tag Ht. apply (proj1 (bool_decide_eq_false _)). apply H. exact Ht.
      * intros H tag Ht. apply (proj2 (bool_decide_eq_false _)). apply H. exact Ht.
    + intros tag. apply partialOnly_spec.
    + intros HE. unfold fallbackScore. fold tags. rewrite Hsplit, HE.
      change (inject_Z (Z.of_nat 0 * 10)) with 0%Q. cbn [Nat.add]. ring.
    + unfold fallbackScore. fold tags. rewrite Hsplit.
      set (E := tagMatchCount userInterests tags). set (N := partialOnly userInterests tags).
      rewrite Nat2Z.inj_add.
      assert (HEq : (0 <= inject_Z (Z.of_nat E))%Q)
        by (change 0%Q with (inject_Z 0); rewrite <- Zle_Qle; lia).
      rewrite !inject_Z_plus, !inject_Z_mult, !inject_Z_plus.
      set (e := inject_Z (Z.of_nat E)) in *. set (n := inject_Z (Z.of_nat N)).
      apply Qmult_le_compat_r; [|lra].
      change (inject_Z 10) with 10%Q. change (inject_Z 5) with 5%Q. lra.
    + unfold importanceBoost. destruct (important data); reflexivity.
    + unfold contentTypeBoost. destruct (decide _); reflexivity.
    + unfold scoreDoc. fold tags. rewrite Hsplit.
      destruct (tagMatchCount userInterests tags) as [|E];
        destruct (partialOnly userInterests tags) as [|N]; simpl.
      * split; [intros [x H]; discriminate | lia].
      * split; [lia | intros _; eexists; reflexivity].
      * split; [lia | intros _; eexists; reflexivity].
      * split; [lia | intros _; eexists; reflexivity].
    + unfold fallbackScore. fold tags.
      rewrite !inject_Z_plus. reflexivity.
    + rewrite Hsplit. lia.
    + unfold partialMatches. apply List.filter_length_le.
    + unfold fallbackScore. fold tags. rewrite Hsplit.
      set (E := tagMatchCount userInterests tags). set (N := partialOnly userInterests tags).
      rewrite Nat2Z.inj_add.
      rewrite !inject_Z_plus, !inject_Z_mult, !inject_Z_plus.
      set (e := inject_Z (Z.of_nat E)) in *. set (n := inject_Z (Z.of_nat N)).
      apply Qmult_le_compat_r; [|lra].
      change (inject_Z 10) with 10%Q. change (inject_Z 5) with 5%Q.
      change (inject_Z 15) with 15%Q. lra.
  - intros publishedAt.
    pose proof (recencyBoost_bounds now publishedAt) as (H1 & H2 & H3).
    split; [reflexivity|]. split; [exact H1|]. split; assumption.
  - intros first second HE1 Hp1 HE2 HP2 Hp2.
    unfold fallbackScore. rewrite HE1, HE2, HP2, Hp1, Hp2.
    change (default now (Some now)) with now.
    change (default now (Some (now - 30 * day))) with (now - 30 * day).
    pose proof (recencyBoost_bounds now now) as (HR1 & _ & _).
    pose proof (boosts_bounds first) as [[HI1 _] [HF1 _]].
    pose proof (boosts_bounds second) as [[_ HI2] [HF2a HF2]].
    assert (HR2 : (recencyBoost now (now - 30 * day) <= 1)%Q).
    { unfold recencyBoost. apply Q.max_lub; [lra|].
      rewrite (daysSince_days now (now - 30 * day) 30) by lia.
      vm_compute. discriminate. }
    pose proof (recencyBoost_bounds now (now - 30 * day)) as (HR2a & _ & _).
    assert (HP1 : (0 <= inject_Z (Z.of_nat
                    (partialMatches userInterests (default [] (tags first))) * 5))%Q)
      by (apply inject_nat_nonneg; lia).
    set (P1 := inject_Z (Z.of_nat (partialMatches userInterests (default [] (tags first))) * 5)) in *.
    set (R1 := recencyBoost now now) in *.
    set (R2 := recencyBoost now (now - 30 * day)) in *.
    set (I1 := importanceBoost first) in *. set (I2 := importanceBoost second) in *.
    change (inject_Z (Z.of_nat 2 * 10)) with 20%Q.
    change (inject_Z (Z.of_nat 0 * 10)) with 0%Q.
    change (inject_Z (Z.of_nat 1 * 5)) with 5%Q.
    unfold contentTypeBoost.
    destruct (decide (contentType first = "article")),
      (decide (contentType second = "article")); lra.
Qed.

Lemma fallbackScore_formula_witness :
  (fallbackScore ["technology"; "design"] (40 * day) onePartialOld
   < fallbackScore ["technology"; "design"] (40 * day) twoExactToday)%Q
  /\ (fallbackScore ["machine"; "learning"] 1000 machineLearningDoc == 10)%Q.
Proof.
  destruct (fallbackScore_formula ["technology"; "design"] (40 * day))
    as (_ & _ & Horder).
  destruct (fallbackScore_formula ["machine"; "learning"] 1000) as (Hsum & _ & _).
  split.
  - apply Horder; reflexivity.
  - destruct (Hsum machineLearningDoc) as (_ & _ & Hzero & _).
    rewrite Hzero by reflexivity. vm_compute. reflexivity.
Defined.

(** A tag that matches two interests counts once: the score is 10 where
    the formula over pairs gives 15. *)
Lemma fallbackScore_counts_tags_not_pairs :
  (fallbackScore ["machine"; "learning"] 1000 machineLearningDoc == 10)%Q
  /\ (specScore ["machine"; "learning"] 1000 machineLearningDoc == 15)%Q
  /\ ~ (fallbackScore ["machine"; "learning"] 1000 machineLearningDoc
        == specScore ["machine"; "learning"] 1000 machineLearningDoc)%Q.
Proof.
  repeat apply conj; try (vm_compute; reflexivity).
  vm_compute. discriminate.
Qed.

End FallbackScore.

Section CacheAndThrottle.
Import JsString Recommender.

Lemma checkRateLimit_throttled now uid rateLimitMap :
  throttled now uid rateLimitMap ->
  checkRateLimit now uid rateLimitMap = (rateLimitMap, false).
Proof.
  intros (lastCall & Hl & Hnz & Hlt). unfold checkRateLimit. rewrite Hl.
  destruct (Z.eqb_spec lastCall 0); [contradiction|].
  destruct (Z.ltb_spec (now - lastCall) RATE_LIMIT_MS); [reflexivity | lia].
Qed.

Lemma checkRateLimit_free now uid rateLimitMap :
  ~ throttled now uid rateLimitMap ->
  checkRateLimit now uid rateLimitMap = (<[uid := now]> rateLimitMap, true).
Proof.
  intros H. unfold checkRateLimit.
  destruct (rateLimitMap !! uid) as [lastCall|] eqn:Hl; [|reflexivity].
  destruct (Z.eqb_spec lastCall 0); [reflexivity|].
  destruct (Z.ltb_spec (now - lastCall) RATE_LIMIT_MS); [|reflexivity].
  exfalso. apply H. exists lastCall. auto.
Qed.

Lemma getCached_fresh now uid count cache entry :
  freshEntry now uid count cache entry ->
  getCachedRecommendations now uid count cache = (cache, Some (data entry)).
Proof.
  intros [Hl Hf]. unfold getCachedRecommendations. rewrite Hl.
  destruct (Z.ltb_spec CACHE_TTL_MS (now - timestamp entry)); [lia | reflexivity].
Qed.

Lemma getCached_none now uid count cache :
  noFreshEntry now uid count cache ->
  snd (getCachedRecommendations now uid count cache) = None
  /\ fst (getCachedRecommendations now uid count cache) !! getCacheKey uid count = None
  /\ forall key, key <> getCacheKey uid count ->
       fst (getCachedRecommendations now uid count cache) !! key = cache !! key.
Proof.
  intros H. unfold getCachedRecommendations.
  destruct (cache !! getCacheKey uid count) as [entry|] eqn:Hl.
  - specialize (H entry Hl).
    destruct (Z.ltb_spec CACHE_TTL_MS (now - timestamp entry)); [|lia].
    simpl. split; [reflexivity|]. split; [apply lookup_delete_eq|].
    intros key Hk. apply lookup_delete_ne. congruence.
  - simpl. auto.
Qed.

Lemma fresh_or_not now uid count cache :
  (exists entry, freshEntry now uid count cache entry)
  \/ noFreshEntry now uid count cache.
Proof.
  unfold freshEntry, noFreshEntry.
  destruct (cache !! getCacheKey uid count) as [entry|]; [|right; intros ? [=]].
  destruct (Z.le_gt_cases (now - timestamp entry) CACHE_TTL_MS).
  - left. eauto.
  - right. intros ? [= <-]. lia.
Qed.

Lemma getRecommendations_cached fs gorse now uid count cache entry :
  freshEntry now uid count cache entry ->
  getRecommendationsForUser fs gorse now uid count cache
  = (cache, markCached (data entry)).
Proof.
  intros H. unfold getRecommendationsForUser.
  rewrite (getCached_fresh _ _ _ _ _ H). reflexivity.
Qed.

(** C3, as the code has it: the endpoint checks the rate first. A user
    who called less than a second ago is rejected with the rate-limit
    signal whatever the cache holds, and the rejected call leaves the
    state as it is. A request that passes the check and finds a fresh
    entry gets that entry marked as cached, without a call of the ranker;
    so does every direct call of [getRecommendationsForUser], which does
    not look at the rate. *)
Theorem recommendationsEndpoint_checks_rate_first
    (fs : Firestore) (gorse : string -> nat -> Result (list GorseRec))
    (now : Z) (uid : string) (count : nat) (st : State) :
  uid <> "" ->
  (throttled now uid (rateLimitMap st) ->
   recommendationsEndpoint fs gorse now (Some uid) count st = (st, RateLimited429))
  /\ (~ throttled now uid (rateLimitMap st) ->
      forall entry, freshEntry now uid count (cache st) entry ->
        recommendationsEndpoint fs gorse now (Some uid) count st
        = (mkState (cache st) (<[uid := now]> (rateLimitMap st)),
           Json (markCached (data entry))))
  /\ (forall cache entry, freshEntry now uid count cache entry ->
        getRecommendationsForUser fs gorse now uid count cache
        = (cache, markCached (data entry)))
  /\ (~ throttled now uid (rateLimitMap st) ->
      exists recommendations,
        snd (recommendationsEndpoint fs gorse now (Some uid) count st)
        = Json recommendations
        /\ rateLimitMap (fst (recommendationsEndpoint fs gorse now (Some uid) count st))
             !! uid = Some now).
Proof.
  intros Huid.
  assert (Ht : truthy (Some uid) = Some uid) by (destruct uid; [contradiction | reflexivity]).
  unfold recommendationsEndpoint. rewrite Ht. repeat apply conj.
  - intros H. rewrite (checkRateLimit_throttled _ _ _ H). destruct st; reflexivity.
  - intros H entry He. rewrite (checkRateLimit_free _ _ _ H).
    rewrite (getRecommendations_cached _ _ _ _ _ _ _ He). reflexivity.
  - intros cache entry. apply getRecommendations_cached.
  - intros H. rewrite (checkRateLimit_free _ _ _ H).
    destruct (getRecommendationsForUser fs gorse now uid count (cache st)) as [c r].
    exists r. simpl. split; [reflexivity | apply lookup_insert_eq].
Qed.

Lemma recommendationsEndpoint_checks_rate_first_witness :
  recommendationsEndpoint sampleStore rankerUp 1500 (Some "u1") 20
    (fst (recommendationsEndpoint sampleStore rankerUp 1000 (Some "u1") 20 emptyState))
  = (fst (recommendationsEndpoint sampleStore rankerUp 1000 (Some "u1") 20 emptyState),
     RateLimited429).
Proof.
  apply recommendationsEndpoint_checks_rate_first.
  - discriminate.
  - exists 1000. vm_compute. repeat split; congruence.
Defined.

(** A request half a second after the one that filled the cache is
    rejected, though a fresh result for it is cached. *)
Lemma cached_request_rate_limited :
  let first := recommendationsEndpoint sampleStore rankerUp 1000 (Some "u1") 20 emptyState in
  let result := snd (getRecommendationsForUser sampleStore rankerUp 1000 "u1" 20 ∅) in
  snd first = Json result
  /\ freshEntry 1500 "u1" 20 (cache (fst first)) (mkEntry result 1000)
  /\ snd (recommendationsEndpoint sampleStore rankerUp 1500 (Some "u1") 20 (fst first))
     = RateLimited429.
Proof.
  cbv zeta. split; [vm_compute; reflexivity|].
  split; [|vm_compute; reflexivity].
  split; [vm_compute; reflexivity | vm_compute; discriminate].
Qed.

End CacheAndThrottle.

Section CacheContents.
Import JsString Recommender.

Lemma fallback_source fs now uid count :
  source (getFallbackRecommendations fs now uid count) = "fallback"
  /\ cached (getFallbackRecommendations fs now uid count) = false.
Proof.
  unfold getFallbackRecommendations.
  destruct (users fs !! uid) as [user|]; [|auto].
  destruct (default [] (interests user)); [auto|].
  destruct (recentContent fs (cutoffDate now)); auto.
Qed.

Lemma rankerItems_none fs now uid count recs :
  rankerItems fs now uid count recs = None
  <-> mapM recId (take count recs) = None.
Proof.
  unfold rankerItems. destruct (mapM recId (take count recs)); simpl.
  - split; discriminate.
  - split; reflexivity.
Qed.

(** Without a fresh entry the call asks the ranker; it answers from the
    fallback, and writes nothing, when the ranker gives nothing to
    resolve, and it writes the result of the ranker path otherwise. *)
Lemma getRecommendations_uncached fs gorse now uid count cache :
  noFreshEntry now uid count cache ->
  let cache0 := fst (getCachedRecommendations now uid count cache) in
  (rankerFails gorse uid count ->
   getRecommendationsForUser fs gorse now uid count cache
   = (cache0, getFallbackRecommendations fs now uid count))
  /\ (~ rankerFails gorse uid count ->
      exists items,
        getRecommendationsForUser fs gorse now uid count cache
        = (setCachedRecommendations now uid count (mkResult items "gorse" None false) cache0,
           mkResult items "gorse" None false)).
Proof.
  intros Hno. cbv zeta.
  destruct (getCached_none _ _ _ _ Hno) as (Hsnd & _ & _).
  unfold getRecommendationsForUser, rankerFails.
  destruct (getCachedRecommendations now uid count cache) as [c0 o]. simpl in *. subst o.
  destruct (gorse uid (count * 2)%nat) as [recs|e].
  - split.
    + intros [H|H].
      * rewrite H. reflexivity.
      * destruct (take count recs) eqn:Et; [reflexivity|].
        rewrite <- Et in H. apply rankerItems_none with (fs := fs) (now := now) (uid := uid) in H.
        rewrite H. reflexivity.
    + intros H. destruct (take count recs) eqn:Et; [exfalso; apply H; left; reflexivity|].
      destruct (rankerItems fs now uid count recs) as [items|] eqn:Er.
      * exists items. reflexivity.
      * exfalso. apply H. right. rewrite <- Et. apply (rankerItems_none fs now uid count). exact Er.
  - split; [reflexivity | intros H; exfalso; apply H; exact I].
Qed.

Lemma rankerFails_dec gorse uid count :
  rankerFails gorse uid count \/ ~ rankerFails gorse uid count.
Proof.
  unfold rankerFails. destruct (gorse uid (count * 2)%nat) as [recs|]; [|auto].
  destruct (take count recs); [auto|].
  destruct (mapM recId (g :: l)); [right; intros [H|H]; discriminate | auto].
Qed.

Lemma rankerOnly_getCached now uid count cache :
  rankerOnly cache -> rankerOnly (fst (getCachedRecommendations now uid count cache)).
Proof.
  intros H. unfold getCachedRecommendations.
  destruct (cache !! getCacheKey uid count) as [entry|]; [|exact H].
  destruct (CACHE_TTL_MS <? now - timestamp entry); [|exact H].
  intros key e He. simpl in He. apply lookup_delete_Some in He as [_ He].
  apply (H key e He).
Qed.

Lemma rankerOnly_step fs gorse now uid count cache :
  rankerOnly cache ->
  rankerOnly (fst (getRecommendationsForUser fs gorse now uid count cache)).
Proof.
  intros H.
  destruct (fresh_or_not now uid count cache) as [[entry He]|Hno].
  - rewrite (getRecommendations_cached _ _ _ _ _ _ _ He). exact H.
  - destruct (getRecommendations_uncached fs gorse now uid count cache Hno) as [Hf Hr].
    destruct (rankerFails_dec gorse uid count) as [Hd|Hd].
    + rewrite (Hf Hd). simpl. apply rankerOnly_getCached, H.
    + destruct (Hr Hd) as [items ->]. simpl.
      intros key e He. unfold setCachedRecommendations in He.
      destruct (decide (getCacheKey uid count = key)) as [<-|Hne].
      * rewrite lookup_insert_eq in He. injection He as <-. auto.
      * rewrite lookup_insert_ne in He by exact Hne.
        apply (rankerOnly_getCached now uid count cache H key e He).
Qed.

Lemma rankerOnly_endpoint fs gorse now uid count st :
  rankerOnly (cache st) ->
  rankerOnly (cache (fst (recommendationsEndpoint fs gorse now uid count st))).
Proof.
  intros H. unfold recommendationsEndpoint.
  destruct (truthy uid) as [u|]; [|exact H].
  destruct (checkRateLimit now u (rateLimitMap st)) as [rl []]; [|exact H].
  pose proof (rankerOnly_step fs gorse now u count (cache st) H) as Hs.
  destruct (getRecommendationsForUser fs gorse now u count (cache st)). exact Hs.
Qed.

Lemma rankerOnly_serveAll fs gorseAt requests : forall st,
  rankerOnly (cache st) ->
  rankerOnly (cache (fst (serveAll fs gorseAt requests st))).
Proof.
  induction requests as [|[[now uid] count] rest IH]; intros st H; [exact H|].
  simpl.
  pose proof (rankerOnly_endpoint fs (gorseAt now) now (Some uid) count st H) as Hs.
  destruct (recommendationsEndpoint fs (gorseAt now) now (Some uid) count st) as [st' r].
  specialize (IH st' Hs). destruct (serveAll fs gorseAt rest st'). exact IH.
Qed.

(** C10, as the code has it. Whatever requests the endpoint serves, every
    entry of the cache is a result of the ranker path. A call that finds
    no fresh entry while the ranker gives nothing to resolve returns the
    result of the fallback, not marked as cached, and leaves no entry for
    its key, so that the next such call computes the fallback again. A
    call that finds a fresh entry returns it marked as cached, also while
    the ranker is down. *)
Theorem cache_holds_ranker_results_only (fs : Firestore) :
  (forall gorseAt requests,
     rankerOnly (cache (fst (serveAll fs gorseAt requests emptyState))))
  /\ (forall gorse now uid count cache,
        rankerOnly cache ->
        rankerOnly (fst (getRecommendationsForUser fs gorse now uid count cache)))
  /\ (forall gorse now uid count cache,
        noFreshEntry now uid count cache ->
        rankerFails gorse uid count ->
        let call := getRecommendationsForUser fs gorse now uid count cache in
        snd call = getFallbackRecommendations fs now uid count
        /\ source (snd call) = "fallback"
        /\ cached (snd call) = false
        /\ fst call !! getCacheKey uid count = None
        /\ (forall key, key <> getCacheKey uid count -> fst call !! key = cache !! key)
        /\ forall gorse' now',
             rankerFails gorse' uid count ->
             let next := getRecommendationsForUser fs gorse' now' uid count (fst call) in
             snd next = getFallbackRecommendations fs now' uid count
             /\ cached (snd next) = false
             /\ fst next = fst call)
  /\ (forall gorse now uid count cache entry,
        freshEntry now uid count cache entry ->
        getRecommendationsForUser fs gorse now uid count cache
        = (cache, markCached (data entry)))
  /\ (forall gorse now uid count cache,
        rankerOnly cache ->
        source (snd (getRecommendationsForUser fs gorse now uid count cache)) = "fallback" ->
        cached (snd (getRecommendationsForUser fs gorse now uid count cache)) = false
        /\ fst (getRecommendationsForUser fs gorse now uid count cache)
             !! getCacheKey uid count = None).
Proof.
  repeat apply conj.
  - intros gorseAt requests. apply rankerOnly_serveAll.
    intros key e He. simpl in He. rewrite lookup_empty in He. discriminate.
  - intros gorse now uid count cache. apply rankerOnly_step.
  - intros gorse now uid count cache Hno Hfail. cbv zeta.
    destruct (getRecommendations_uncached fs gorse now uid count cache Hno) as [Hf _].
    destruct (getCached_none _ _ _ _ Hno) as (_ & Hkey & Hother).
    rewrite (Hf Hfail). cbn [fst snd].
    destruct (fallback_source fs now uid count) as [Hs Hc].
    repeat apply conj; try assumption; try reflexivity.
    intros gorse' now' Hfail'.
    assert (Hno' : noFreshEntry now' uid count
                     (fst (getCachedRecommendations now uid count cache))).
    { intros entry He. rewrite Hkey in He. discriminate. }
    destruct (getRecommendations_uncached fs gorse' now' uid count _ Hno') as [Hf' _].
    rewrite (Hf' Hfail'). cbn [fst snd].
    destruct (fallback_source fs now' uid count) as [_ Hc'].
    repeat apply conj; try assumption; try reflexivity.
    unfold getCachedRecommendations at 1. rewrite Hkey. reflexivity.
  - intros gorse now uid count cache entry. apply getRecommendations_cached.
  - intros gorse now uid count cache Hro Hsrc.
    destruct (fresh_or_not now uid count cache) as [[entry He]|Hno].
    + rewrite (getRecommendations_cached _ _ _ _ _ _ _ He) in Hsrc. simpl in Hsrc.
      destruct He as [He _]. destruct (Hro _ _ He) as [Hg _]. congruence.
    + destruct (getRecommendations_uncached fs gorse now uid count cache Hno) as [Hf Hr].
      destruct (rankerFails_dec gorse uid count) as [Hd|Hd].
      * rewrite (Hf Hd). cbn [fst snd].
        split; [apply fallback_source | apply (getCached_none _ _ _ _ Hno)].
      * destruct (Hr Hd) as [items E]. rewrite E in Hsrc. simpl in Hsrc. discriminate.
Qed.

Lemma cache_holds_ranker_results_only_witness :
  snd (getRecommendationsForUser sampleStore rankerDown 1000 "u1" 20 ∅)
  = getFallbackRecommendations sampleStore 1000 "u1" 20
  /\ fst (getRecommendationsForUser sampleStore rankerDown 1000 "u1" 20 ∅)
       !! getCacheKey "u1" 20 = None.
Proof.
  destruct (cache_holds_ranker_results_only sampleStore) as (_ & _ & H & _).
  destruct (H rankerDown 1000 "u1" 20%nat ∅) as (H1 & _ & _ & H2 & _).
  - intros entry He. rewrite lookup_empty in He. discriminate.
  - exact I.
  - split; assumption.
Defined.

(** The ranker is down at the second request, and the request is served
    from the cache and marked as cached: the fallback is not computed. *)
Lemma cached_result_while_ranker_down :
  let first :=
    recommendationsEndpoint sampleStore (rankerUntil2000 1000) 1000 (Some "u1") 20
      emptyState in
  let second :=
    recommendationsEndpoint sampleStore (rankerUntil2000 3000) 3000 (Some "u1") 20
      (fst first) in
  rankerUntil2000 3000 "u1" 40 = Throw (Error "Gorse API error (503): unavailable")
  /\ (exists result,
        snd second = Json result /\ cached result = true /\ source result = "gorse"
        /\ result <> getFallbackRecommendations sampleStore 3000 "u1" 20).
Proof.
  cbv zeta. split; [reflexivity|].
  eexists. split; [vm_compute; reflexivity|].
  split; [reflexivity|]. split; [reflexivity|]. vm_compute. discriminate.
Qed.

End CacheContents.

(** * Further properties of the code *)

Section FallbackRanking.
Import JsString Recommender.









End FallbackRanking.

Section CacheKeys.
Import JsString Collector Recommender.

Lemma hasChar_app c s t : hasChar c (s +:+ t) = hasChar c s || hasChar c t.
Proof.
  induction s as [|d s IH]; [reflexivity|].
  rewrite append_cons. simpl. destruct (ascii_dec c d); [reflexivity | exact IH].
Qed.

Lemma pretty_N_go_no_colon x s :
  hasChar ":" s = false -> hasChar ":" (pretty_N_go x s) = false.
Proof.
  revert s. induction (N.lt_wf_0 x) as [x _ IH]; intros s Hs.
  destruct (N.eq_dec x 0%N) as [->|Hx]; [rewrite pretty_N_go_0; exact Hs|].
  rewrite pretty_N_go_step by lia. apply IH.
  - apply N.div_lt; lia.
  - assert (Hc : pretty_N_char (x `mod` 10) <> ":"%char).
    { unfold pretty_N_char. repeat case_match; discriminate. }
    cbn [hasChar]. destruct (ascii_dec ":" (pretty_N_char (x `mod` 10))); [congruence | exact Hs].
Qed.

Lemma pretty_nat_no_colon (n : nat) : hasChar ":" (pretty n) = false.
Proof.
  unfold pretty, pretty_nat, pretty, pretty_N.
  case_decide; [reflexivity|]. apply pretty_N_go_no_colon. reflexivity.
Qed.

Lemma hasChar_sep sep u d : hasChar sep (u +:+ String sep d) = true.
Proof.
  rewrite hasChar_app. cbn [hasChar].
  destruct (ascii_dec sep sep); [apply orb_true_r | contradiction].
Qed.

(** A string splits in one way only at its last separator. *)
Lemma split_at_last sep u u' d d' :
  hasChar sep d = false -> hasChar sep d' = false ->
  u +:+ String sep d = u' +:+ String sep d' -> u = u' /\ d = d'.
Proof.
  intros Hd Hd'. revert u'. induction u as [|c u IH]; intros [|c' u'] H.
  - injection H as H. auto.
  - assert (E : d = u' +:+ String sep d') by (injection H as _ H; exact H).
    rewrite E, hasChar_sep in Hd. discriminate.
  - assert (E : d' = u +:+ String sep d) by (injection H as _ H; symmetry; exact H).
    rewrite E, hasChar_sep in Hd'. discriminate.
  - injection H as -> H. destruct (IH _ H) as [-> ->]. auto.
Qed.

Lemma getCacheKey_eq uid count uid' count' :
  getCacheKey uid count = getCacheKey uid' count' -> uid = uid' /\ count = count'.
Proof.
  unfold getCacheKey. intros H.
  apply (split_at_last ":") in H as [-> H]; try apply pretty_nat_no_colon.
  split; [reflexivity|]. apply (inj pretty), H.
Qed.

(** X2. The cache key tells users and counts apart: two lookups share an
    entry only if they are for the same user and the same count. *)
Theorem getCacheKey_injective uid count uid' count' :
  getCacheKey uid count = getCacheKey uid' count'
  <-> uid = uid' /\ count = count'.
Proof.
  split; [apply getCacheKey_eq|]. intros [-> ->]. reflexivity.
Qed.

Lemma getCacheKey_injective_witness :
  getCacheKey "u:1" 2 <> getCacheKey "u" 12.
Proof.
  intros H. apply (getCacheKey_injective "u:1" 2 "u" 12) in H as [H _].
  discriminate.
Defined.

(** X3. What is stored for a user and a count is what a later lookup for
    them returns, up to five minutes later and no longer; the lookup that
    comes too late removes the entry. A lookup for another user or
    another count does not see it. *)
Theorem cache_round_trip now later uid count data cache :
  getCachedRecommendations later uid count
    (setCachedRecommendations now uid count data cache)
  = (if CACHE_TTL_MS <? later - now
     then (delete (getCacheKey uid count) cache, None)
     else (setCachedRecommendations now uid count data cache, Some data))
  /\ forall uid' count',
       (uid', count') <> (uid, count) ->
       snd (getCachedRecommendations later uid' count'
              (setCachedRecommendations now uid count data cache))
       = snd (getCachedRecommendations later uid' count' cache).
Proof.
  unfold getCachedRecommendations, setCachedRecommendations. split.
  - rewrite lookup_insert_eq. cbn [timestamp Recommender.data].
    destruct (CACHE_TTL_MS <? later - now); [|reflexivity].
    rewrite delete_insert_eq. reflexivity.
  - intros uid' count' Hne.
    rewrite lookup_insert_ne.
    + destruct (cache !! getCacheKey uid' count') as [e|]; [|reflexivity].
      destruct (CACHE_TTL_MS <? later - timestamp e); reflexivity.
    + intros H. apply getCacheKey_eq in H as [-> ->]. congruence.
Qed.

Lemma cache_round_trip_witness :
  snd (getCachedRecommendations 301001 "u1" 10
         (setCachedRecommendations 1000 "u1" 20 (fallbackEmpty "no_content") ∅))
  = None.
Proof.
  destruct (cache_round_trip 1000 301001 "u1" 20 (fallbackEmpty "no_content") ∅)
    as [_ H].
  rewrite (H "u1" 10%nat); [reflexivity | discriminate].
Defined.

Lemma startsWith_colon_free p d :
  hasChar ":" p = true -> hasChar ":" d = false -> startsWith p d = false.
Proof.
  revert d. induction p as [|a p IH]; intros [|b d] Hp Hd;
    cbn [hasChar startsWith] in *; try discriminate; try reflexivity.
  destruct (ascii_dec a b) as [->|]; [|reflexivity].
  destruct (ascii_dec ":" b); [discriminate|]. apply IH; assumption.
Qed.

Lemma startsWith_cons a p b s :
  startsWith (String a p) (String b s) = if ascii_dec a b then startsWith p s else false.
Proof. reflexivity. Qed.

Lemma startsWith_own_key uid d :
  startsWith (uid +:+ ":") (uid +:+ ":" +:+ d) = true.
Proof.
  induction uid as [|c uid IH].
  - change (startsWith (String ":" "") (String ":" d) = true).
    rewrite startsWith_cons. destruct (ascii_dec ":" ":"); [reflexivity | contradiction].
  - change (startsWith (String c (uid +:+ ":")) (String c (uid +:+ ":" +:+ d)) = true).
    rewrite startsWith_cons. destruct (ascii_dec c c); [exact IH | contradiction].
Qed.

(** The key of another user does not start with the prefix of [uid],
    unless the id of that user does. *)
Lemma startsWith_other_key uid uid' d :
  hasChar ":" d = false -> uid' <> uid ->
  startsWith (uid +:+ ":") uid' = false ->
  startsWith (uid +:+ ":") (uid' +:+ ":" +:+ d) = false.
Proof.
  intros Hd. revert uid'. induction uid as [|a p IH]; intros [|c u] Hne Hs.
  - contradiction.
  - change (startsWith (String ":" "") (String c u) = false) in Hs.
    change (startsWith (String ":" "") (String c (u +:+ ":" +:+ d)) = false).
    rewrite startsWith_cons in *.
    destruct (ascii_dec ":" c); [discriminate | reflexivity].
  - change (startsWith (String a (p +:+ ":")) (String ":" d) = false).
    rewrite startsWith_cons.
    destruct (ascii_dec a ":"); [|reflexivity].
    apply startsWith_colon_free; [|exact Hd].
    rewrite hasChar_app. apply orb_true_r.
  - change (startsWith (String a (p +:+ ":")) (String c u) = false) in Hs.
    change (startsWith (String a (p +:+ ":")) (String c (u +:+ ":" +:+ d)) = false).
    rewrite startsWith_cons in *.
    destruct (ascii_dec a c) as [->|]; [|reflexivity].
    apply IH; [congruence | exact Hs].
Qed.

Lemma invalidateCache_lookup uid cache key :
  invalidateCache uid cache !! key
  = if startsWith (uid +:+ ":") key then None else cache !! key.
Proof.
  unfold invalidateCache.
  destruct (startsWith (uid +:+ ":") key) eqn:E.
  - apply map_lookup_filter_None. right. intros x _ H. simpl in H. congruence.
  - destruct (cache !! key) as [x|] eqn:L.
    + apply map_lookup_filter_Some. split; [exact L | exact E].
    + apply map_lookup_filter_None. left. exact L.
Qed.

Lemma invalidateCache_own uid count cache :
  invalidateCache uid cache !! getCacheKey uid count = None.
Proof.
  rewrite invalidateCache_lookup. unfold getCacheKey.
  rewrite startsWith_own_key. reflexivity.
Qed.

(** X4. Invalidation for a user leaves nothing of that user in the
    cache, whatever the count; it keeps every entry of a user whose id
    does not itself begin with the id and a colon, and drops the entries
    of the users whose id does. *)
Theorem invalidateCache_clears_user uid cache :
  (forall now count,
     getCachedRecommendations now uid count (invalidateCache uid cache)
     = (invalidateCache uid cache, None))
  /\ (forall uid' count,
        uid' <> uid -> startsWith (uid +:+ ":") uid' = false ->
        invalidateCache uid cache !! getCacheKey uid' count
        = cache !! getCacheKey uid' count)
  /\ (forall uid' count,
        startsWith (uid +:+ ":") uid' = true ->
        invalidateCache uid cache !! getCacheKey uid' count = None)
  /\ (forall key entry,
        invalidateCache uid cache !! key = Some entry -> cache !! key = Some entry).
Proof.
  repeat apply conj.
  - intros now count. unfold getCachedRecommendations.
    rewrite invalidateCache_own. reflexivity.
  - intros uid' count Hne Hs. rewrite invalidateCache_lookup. unfold getCacheKey.
    rewrite startsWith_other_key; auto using pretty_nat_no_colon.
  - intros uid' count Hs. rewrite invalidateCache_lookup. unfold getCacheKey.
    rewrite (startsWith_app _ _ _ Hs). reflexivity.
  - intros key entry. rewrite invalidateCache_lookup.
    destruct (startsWith (uid +:+ ":") key); [discriminate | auto].
Qed.

Lemma invalidateCache_clears_user_witness :
  invalidateCache "u" (setCachedRecommendations 1000 "u:1" 20
                         (fallbackEmpty "no_content") ∅)
    !! getCacheKey "u:1" 20 = None
  /\ invalidateCache "u" (setCachedRecommendations 1000 "v" 20
                            (fallbackEmpty "no_content") ∅)
       !! getCacheKey "v" 20
     = Some (mkEntry (fallbackEmpty "no_content") 1000).
Proof.
  split.
  - apply invalidateCache_clears_user. reflexivity.
  - destruct (invalidateCache_clears_user "u"
                (setCachedRecommendations 1000 "v" 20 (fallbackEmpty "no_content") ∅))
      as (_ & H & _).
    rewrite H; [vm_compute; reflexivity | discriminate | reflexivity].
Defined.

End CacheKeys.

Section RequestTraces.
Import JsString Recommender.

Lemma fallback_length fs now uid count :
  (length (items (getFallbackRecommendations fs now uid count)) <= count)%nat.
Proof.
  unfold getFallbackRecommendations.
  destruct (users fs !! uid) as [user|]; [|simpl; lia].
  destruct (default [] (interests user)); [simpl; lia|].
  destruct (recentContent fs (cutoffDate now)); [simpl; lia|].
  cbn [items]. rewrite length_take. lia.
Qed.








(** What a request does to the throttle map, by the kind of response. *)
Lemma endpoint_throttle fs gorse now uid count st :
  let call := recommendationsEndpoint fs gorse now (Some uid) count st in
  (rateLimitMap (fst call) = rateLimitMap st
   /\ forall r, snd call <> Json r)
  \/ (rateLimitMap (fst call) = <[uid := now]> (rateLimitMap st)
      /\ (exists r, snd call = Json r)
      /\ forall last, rateLimitMap st !! uid = Some last ->
           last = 0 \/ last + RATE_LIMIT_MS <= now).
Proof.
  cbv zeta. unfold recommendationsEndpoint.
  destruct (truthy (Some uid)) as [u|] eqn:Et; [|left; split; [reflexivity | discriminate]].
  assert (u = uid) as -> by (destruct uid; [discriminate | injection Et; auto]).
  unfold checkRateLimit.
  assert (Hfree : forall rl,
            let '(c, r) := getRecommendationsForUser fs gorse now uid count (cache st) in
            exists r', snd (mkState c rl, Json r) = Json r').
  { intros rl. destruct (getRecommendationsForUser _ _ _ _ _ _) as [c r]. eauto. }
  destruct (rateLimitMap st !! uid) as [lastCall|] eqn:El.
  - destruct (Z.eqb_spec lastCall 0) as [->|Hnz]; simpl.
    + right. specialize (Hfree (<[uid:=now]> (rateLimitMap st))).
      destruct (getRecommendationsForUser _ _ _ _ _ _) as [c r]. simpl.
      split; [reflexivity|]. split; [exact Hfree|]. intros last [= <-]. auto.
    + destruct (Z.ltb_spec (now - lastCall) RATE_LIMIT_MS) as [Hlt|Hge].
      * left. simpl. split; [reflexivity | discriminate].
      * right. specialize (Hfree (<[uid:=now]> (rateLimitMap st))).
        destruct (getRecommendationsForUser _ _ _ _ _ _) as [c r]. simpl.
        split; [reflexivity|]. split; [exact Hfree|]. intros last [= <-]. lia.
  - right. specialize (Hfree (<[uid:=now]> (rateLimitMap st))).
    destruct (getRecommendationsForUser _ _ _ _ _ _) as [c r]. simpl.
    split; [reflexivity|]. split; [exact Hfree|]. discriminate.
Qed.

Lemma calls_spaced fs gorseAt calls st lo uid :
  (forall u last, rateLimitMap st !! u = Some last -> 0 < last <= lo) ->
  StronglySorted Z.le (instants calls) ->
  Forall (fun now => lo <= now /\ 0 < now) (instants calls) ->
  let runs := answeredRuns uid calls (snd (serveCalls fs gorseAt calls st)) in
  Forall (StronglySorted (fun a b => a + RATE_LIMIT_MS <= b)) runs
  /\ forall run rest, runs = run :: rest ->
       Forall (fun t => lo <= t
                        /\ forall last, rateLimitMap st !! uid = Some last ->
                             last + RATE_LIMIT_MS <= t) run.
Proof.
  cbv zeta. revert st lo.
  induction calls as [|[now u count|u] rest IH]; intros st lo Hinv Hs Hlo.
  - simpl. split; [repeat constructor|]. intros run rest' [= <- <-]. constructor.
  - change (instants (Recommendations now u count :: rest))
      with (now :: instants rest) in Hs, Hlo.
    inversion Hs as [|? ? Hs' Hnow]; subst.
    inversion Hlo as [|? ? [Hlo1 Hpos] Hlo']; subst.
    cbn [serveCalls].
    pose proof (endpoint_throttle fs (gorseAt now) now u count st) as He.
    cbv zeta in He.
    destruct (recommendationsEndpoint fs (gorseAt now) now (Some u) count st)
      as [st' response]. simpl in He.
    destruct He as [[Hrl Hno] | (Hrl & [r ->] & Hfree)].
    + assert (IH' := IH st' lo).
      rewrite Hrl in IH'. specialize (IH' Hinv Hs' Hlo').
      destruct (serveCalls fs gorseAt rest st') as [st'' replies]. cbn [snd] in *.
      destruct response as [r| |]; [exfalso; apply (Hno r); reflexivity | exact IH' ..].
    + assert (Hinv' : forall u' last,
                rateLimitMap st' !! u' = Some last -> 0 < last <= now).
      { intros u' last. rewrite Hrl. destruct (decide (u = u')) as [->|Hne].
        - rewrite lookup_insert_eq. intros [= <-]. lia.
        - rewrite lookup_insert_ne by exact Hne. intros H.
          apply Hinv in H. lia. }
      assert (Hlo'' : Forall (fun t => now <= t /\ 0 < t) (instants rest)).
      { apply Forall_forall. intros t Ht. split.
        - rewrite Forall_forall in Hnow. apply Hnow, Ht.
        - rewrite Forall_forall in Hlo'. apply Hlo', Ht. }
      specialize (IH st' now Hinv' Hs' Hlo'').
      destruct (serveCalls fs gorseAt rest st') as [st'' replies]. cbn [snd] in *.
      destruct IH as [IH1 IH2]. rewrite Hrl in IH2.
      cbn [answeredRuns]. destruct (decide (u = uid)) as [->|Hne].
      * rewrite lookup_insert_eq in IH2.
        destruct (answeredRuns uid rest replies) as [|run runs] eqn:Er.
        { split; [repeat constructor|]. intros run rest' [= <- <-].
          constructor; [|constructor]. split; [exact Hlo1|]. intros last Hl.
          destruct (Hfree last Hl) as [->|H]; [|exact H].
          apply Hinv in Hl. lia. }
        specialize (IH2 run runs eq_refl).
        assert (Hgap : Forall (fun b => now + RATE_LIMIT_MS <= b) run).
        { eapply Forall_impl; [exact IH2|]. intros t [_ H]. apply H. reflexivity. }
        inversion IH1 as [|? ? Hrun Hruns]; subst. split.
        -- constructor; [|exact Hruns]. constructor; assumption.
        -- intros run' rest' [= <- <-]. constructor.
           ++ split; [exact Hlo1|]. intros last Hl.
              destruct (Hfree last Hl) as [->|H]; [|exact H].
              apply Hinv in Hl. lia.
           ++ apply Forall_forall. intros t Ht. rewrite Forall_forall in Hgap.
              specialize (Hgap t Ht).
              split; [unfold RATE_LIMIT_MS in *; lia|].
              intros last Hl. apply Hinv in Hl. lia.
      * rewrite lookup_insert_ne in IH2 by exact Hne.
        split; [exact IH1|]. intros run rest' Hr.
        eapply Forall_impl; [exact (IH2 run rest' Hr)|].
        intros t [H1 H2]. split; [lia | exact H2].
  - change (instants (InvalidateCache u :: rest)) with (instants rest) in Hs, Hlo.
    cbn [serveCalls]. destruct (truthy (Some u)) as [u'|] eqn:Et.
    + assert (u' = u) as -> by (destruct u; [discriminate | injection Et; auto]).
      assert (Hinv' : forall u' last,
                rateLimitMap (invalidateEndpoint u st) !! u' = Some last ->
                0 < last <= lo).
      { intros u' last H. cbn [invalidateEndpoint rateLimitMap] in H.
        apply lookup_delete_Some in H as [_ H]. apply (Hinv u' last H). }
      specialize (IH (invalidateEndpoint u st) lo Hinv' Hs Hlo).
      destruct (serveCalls fs gorseAt rest (invalidateEndpoint u st))
        as [st'' replies]. cbn [snd] in *.
      destruct IH as [IH1 IH2].
      cbn [answeredRuns]. destruct (decide (u = uid)) as [->|Hne].
      * split; [constructor; [constructor | exact IH1]|].
        intros run rest' [= <- <-]. constructor.
      * split; [exact IH1|]. intros run rest' Hr.
        cbn [invalidateEndpoint rateLimitMap] in IH2.
        rewrite lookup_delete_ne in IH2 by exact Hne. exact (IH2 run rest' Hr).
    + specialize (IH st lo Hinv Hs Hlo).
      destruct (serveCalls fs gorseAt rest st) as [st'' replies]. cbn [snd] in *.
      exact IH.
Qed.

(** X6. With a clock that does not run backwards, the endpoint answers
    one user with recommendations at most once a second, as long as the
    cache of that user is not invalidated in between: any two requests
    of a user that it answers without an invalidation for that user
    between them are at least a second apart, whatever other users do
    meanwhile. An invalidation clears the throttle of the user, so that
    a request right after it is answered. *)
Theorem answered_requests_a_second_apart fs gorseAt calls uid :
  clockAdvancesOver calls ->
  Forall (StronglySorted (fun a b => a + RATE_LIMIT_MS <= b))
    (answeredRuns uid calls (snd (serveCalls fs gorseAt calls emptyState))).
Proof.
  intros [Hs Hpos].
  destruct (instants calls) as [|first others] eqn:E.
  - apply (calls_spaced fs gorseAt calls emptyState 0 uid).
    + intros u last H. simpl in H. rewrite lookup_empty in H. discriminate.
    + rewrite E. constructor.
    + rewrite E. constructor.
  - apply (calls_spaced fs gorseAt calls emptyState (Z.min 1 first) uid).
    + intros u last H. simpl in H. rewrite lookup_empty in H. discriminate.
    + rewrite E. exact Hs.
    + rewrite E. inversion Hs as [|? ? _ Hfirst]; subst.
      inversion Hpos as [|? ? Hp Hrest]; subst.
      constructor; [lia|].
      apply Forall_forall. intros t Ht. split.
      * rewrite Forall_forall in Hfirst. specialize (Hfirst t Ht). lia.
      * rewrite Forall_forall in Hrest. apply Hrest, Ht.
Qed.

Lemma answered_requests_a_second_apart_witness :
  answeredRuns "u1"
    [Recommendations 1000 "u1" 20; Recommendations 1500 "u1" 20;
     InvalidateCache "u1"; Recommendations 1501 "u1" 20;
     Recommendations 2600 "u1" 20]
    (snd (serveCalls sampleStore (fun _ => rankerUp)
            [Recommendations 1000 "u1" 20; Recommendations 1500 "u1" 20;
             InvalidateCache "u1"; Recommendations 1501 "u1" 20;
             Recommendations 2600 "u1" 20]
            emptyState))
  = [[1000]; [1501; 2600]]
  /\ Forall (StronglySorted (fun a b => a + RATE_LIMIT_MS <= b))
       (answeredRuns "u1"
          [Recommendations 1000 "u1" 20; Recommendations 1500 "u1" 20;
           InvalidateCache "u1"; Recommendations 1501 "u1" 20;
           Recommendations 2600 "u1" 20]
          (snd (serveCalls sampleStore (fun _ => rankerUp)
                  [Recommendations 1000 "u1" 20; Recommendations 1500 "u1" 20;
                   InvalidateCache "u1"; Recommendations 1501 "u1" 20;
                   Recommendations 2600 "u1" 20]
                  emptyState))).
Proof.
  split; [vm_compute; reflexivity|].
  apply answered_requests_a_second_apart. split.
  - cbn [instants omap list_omap].
    repeat first [apply SSorted_nil | apply SSorted_cons
                 | apply List.Forall_nil | apply List.Forall_cons]; lia.
  - cbn [instants omap list_omap].
    repeat first [apply List.Forall_nil | apply List.Forall_cons]; lia.
Defined.

Lemma uncached_not_marked fs gorse now uid count cache :
  cache !! getCacheKey uid count = None ->
  cached (snd (getRecommendationsForUser fs gorse now uid count cache)) = false.
Proof.
  intros H.
  assert (Hno : noFreshEntry now uid count cache).
  { intros entry He. congruence. }
  destruct (getRecommendations_uncached fs gorse now uid count cache Hno) as [H1 H2].
  destruct (rankerFails_dec gorse uid count) as [Hf|Hf].
  - rewrite (H1 Hf). apply fallback_source.
  - destruct (H2 Hf) as [l ->]. reflexivity.
Qed.

(** X7. After the invalidation endpoint has run for a user, the next
    request of that user, at whatever instant and for whatever count, is
    neither throttled nor answered from the cache. A successful
    interaction sync clears the cache of the user in the same way but
    leaves the throttle as it is, and a failed one leaves the whole state
    as it is, the stale cache entries included. *)
Theorem invalidation_forces_recomputation fs gorse now uid count st :
  uid <> "" ->
  (exists r,
     snd (recommendationsEndpoint fs gorse now (Some uid) count
            (invalidateEndpoint uid st)) = Json r
     /\ cached r = false)
  /\ (forall gorseRequest contentId type st',
        interactionSyncEndpoint gorseRequest (Some uid) contentId type st
        = (st', SyncDone) ->
        rateLimitMap st' = rateLimitMap st
        /\ cached (snd (getRecommendationsForUser fs gorse now uid count (cache st')))
           = false)
  /\ (forall gorseRequest contentId type st' m,
        interactionSyncEndpoint gorseRequest (Some uid) contentId type st
        = (st', SyncFailed500 m) ->
        st' = st).
Proof.
  intros Huid.
  assert (Ht : truthy (Some uid) = Some uid) by (destruct uid; [contradiction | reflexivity]).
  repeat apply conj.
  - unfold recommendationsEndpoint, invalidateEndpoint. rewrite Ht.
    cbn [rateLimitMap cache]. unfold checkRateLimit. rewrite lookup_delete_eq.
    pose proof (uncached_not_marked fs gorse now uid count
                  (invalidateCache uid (cache st)) (invalidateCache_own _ _ _)) as H.
    destruct (getRecommendationsForUser fs gorse now uid count
                (invalidateCache uid (cache st))) as [c r].
    exists r. split; [reflexivity | exact H].
  - intros g contentId type st'. unfold interactionSyncEndpoint. rewrite Ht.
    destruct (truthy contentId); [|discriminate].
    destruct (truthy type); [|discriminate].
    destruct (g _ _ _); [|discriminate]. intros [= <-]. cbn [rateLimitMap cache].
    split; [reflexivity|]. apply uncached_not_marked, invalidateCache_own.
  - intros g contentId type st' m. unfold interactionSyncEndpoint. rewrite Ht.
    destruct (truthy contentId); [|discriminate].
    destruct (truthy type); [|discriminate].
    destruct (g _ _ _); [discriminate|]. intros [= <- _]. reflexivity.
Qed.

Lemma invalidation_forces_recomputation_witness :
  exists r,
    snd (recommendationsEndpoint sampleStore rankerUp 1001 (Some "u1") 20
           (invalidateEndpoint "u1"
              (fst (recommendationsEndpoint sampleStore rankerUp 1000 (Some "u1") 20
                      emptyState)))) = Json r
    /\ cached r = false.
Proof.
  apply invalidation_forces_recomputation. discriminate.
Defined.

End RequestTraces.

Section RankerPath.
Import JsString Recommender.

Lemma recScore_nonzero rec : ~ (recScore rec == 0)%Q.
Proof.
  unfold recScore. destruct rec as [Id [s|]|id]; try discriminate.
  destruct (Qeq_bool s 0) eqn:E; [discriminate|].
  intros H. apply Qeq_bool_iff in H. congruence.
Qed.

(** The candidates resolved are those stored and relevant, in the order
    of the ranker, each with the score of its candidate and the fields
    of its document. *)
Lemma resolved_spec fs userInterests recs ids :
  Forall2 (fun rec id => recId rec = Some id) recs ids ->
  let resolved :=
    omap (fun p => resolveCandidate fs userInterests (fst p) (snd p)) (zip recs ids) in
  map contentId resolved = List.filter (relevantStored fs userInterests) ids
  /\ map (fun item => (contentId item, score item)) resolved
     = map (fun p => (snd p, recScore (fst p)))
         (List.filter (fun p => relevantStored fs userInterests (snd p))
                      (zip recs ids))
  /\ Forall (fun item =>
               ~ (score item == 0)%Q
               /\ exists data,
                    content fs !! contentId item = Some data
                    /\ relevant userInterests (default [] (tags data)) = true
                    /\ item = mkRecItem (contentId item) (score item) (title data)
                                (excerpt data) (tags data) (publishedAt data)
                                (url data)) resolved.
Proof.
  cbv zeta. induction 1 as [|rec id recs ids Hid _ (IH1 & IH2 & IH3)];
    [repeat split; constructor|].
  change (zip (rec :: recs) (id :: ids)) with ((rec, id) :: zip recs ids).
  set (f := fun p : GorseRec * string => resolveCandidate fs userInterests (fst p) (snd p))
    in *.
  change (omap f ((rec, id) :: zip recs ids))
    with (match f (rec, id) with
          | Some y => y :: omap f (zip recs ids)
          | None => omap f (zip recs ids)
          end).
  cbn [List.filter fst snd].
  assert (Hf : f (rec, id)
               = match content fs !! id with
                 | Some data =>
                     if relevant userInterests (default [] (tags data)) then
                       Some (mkRecItem id (recScore rec) (title data) (excerpt data)
                               (tags data) (publishedAt data) (url data))
                     else None
                 | None => None
                 end) by reflexivity.
  assert (Hrs : relevantStored fs userInterests id
                = match content fs !! id with
                  | Some data => relevant userInterests (default [] (tags data))
                  | None => false
                  end) by reflexivity.
  rewrite Hf, !Hrs. clear Hf Hrs.
  destruct (content fs !! id) as [data|] eqn:Ec; [|auto].
  destruct (relevant userInterests (default [] (tags data))) eqn:Er; [|auto].
  cbn [map contentId score fst snd]. rewrite IH1, IH2.
  split; [reflexivity|]. split; [reflexivity|].
  constructor; [|exact IH3]. cbn [contentId score].
  split; [apply recScore_nonzero|]. exists data. auto.
Qed.

(** X23. The result of the ranker path is the resolved candidates
    followed by what the fallback adds, and nothing else. The resolved
    candidates are exactly those of the first [count] candidates of the
    ranker whose document is stored and relevant to the stored
    interests of the user: all of them, in the order of the ranker,
    each with the score of its own candidate (a missing or zero score
    counting as 1, so that none scores 0) and with the fields of its
    stored document. The fallback adds its items for the missing number
    when the resolved candidates are fewer than [count] and the user has
    interests, and nothing otherwise. There are at most [count] items,
    so that the final cut at the count removes nothing. *)
Theorem rankerItems_puts_ranker_first fs now uid count recs l :
  rankerItems fs now uid count recs = Some l ->
  exists ids resolved extra,
    mapM recId (take count recs) = Some ids
    /\ l = resolved ++ extra
    /\ (length l <= count)%nat
    /\ map contentId resolved
       = List.filter (relevantStored fs (storedInterests fs uid)) ids
    /\ map (fun item => (contentId item, score item)) resolved
       = map (fun p => (snd p, recScore (fst p)))
           (List.filter (fun p => relevantStored fs (storedInterests fs uid) (snd p))
                        (zip (take count recs) ids))
    /\ Forall (fun item =>
                 ~ (score item == 0)%Q
                 /\ exists data,
                      content fs !! contentId item = Some data
                      /\ relevant (storedInterests fs uid) (default [] (tags data))
                         = true
                      /\ item = mkRecItem (contentId item) (score item) (title data)
                                  (excerpt data) (tags data) (publishedAt data)
                                  (url data)) resolved
    /\ ((length resolved < count)%nat -> storedInterests fs uid <> [] ->
        extra = items (getFallbackRecommendations fs now uid
                         (count - length resolved)))
    /\ ((count <= length resolved)%nat \/ storedInterests fs uid = [] ->
        extra = []).
Proof.
  unfold rankerItems. destruct (mapM recId (take count recs)) as [ids|] eqn:Em;
    [|discriminate].
  cbn [mbind option_bind]. intros [= <-].
  fold (storedInterests fs uid). set (userInterests := storedInterests fs uid).
  apply mapM_Some in Em.
  destruct (resolved_spec fs userInterests _ _ Em) as (Hids & Hpairs & Hall).
  set (resolved := omap _ (zip (take count recs) ids)) in *.
  assert (Hlen : (length resolved <= count)%nat).
  { rewrite <- (length_map contentId), Hids.
    pose proof (List.filter_length_le (relevantStored fs userInterests) ids).
    apply Forall2_length in Em. rewrite length_take in Em. lia. }
  exists ids, resolved.
  destruct ((length resolved <? count)%nat && (0 <? length userInterests)%nat) eqn:Eif.
  - apply andb_true_iff in Eif as [E1 E2].
    apply Nat.ltb_lt in E1. apply Nat.ltb_lt in E2.
    pose proof (fallback_length fs now uid (count - length resolved)) as Hf.
    exists (items (getFallbackRecommendations fs now uid (count - length resolved))).
    split; [reflexivity|].
    rewrite take_ge by (rewrite length_app; lia).
    split; [reflexivity|]. rewrite length_app.
    split; [lia|]. split; [exact Hids|]. split; [exact Hpairs|].
    split; [exact Hall|]. split; [reflexivity|].
    intros [H|H]; [lia|]. rewrite H in E2. simpl in E2. lia.
  - exists []. split; [reflexivity|].
    rewrite app_nil_r, take_ge by exact Hlen.
    split; [reflexivity|]. split; [exact Hlen|]. split; [exact Hids|].
    split; [exact Hpairs|]. split; [exact Hall|]. split; [|reflexivity].
    intros H1 H2. apply andb_false_iff in Eif as [E|E].
    + apply Nat.ltb_ge in E. lia.
    + apply Nat.ltb_ge in E. destruct userInterests; [congruence | simpl in E; lia].
Qed.

Lemma rankerItems_puts_ranker_first_witness :
  exists l ids resolved extra,
    rankerItems mixedStore (40 * day) "u1" 3
      [RecObject "c1" (Some 0%Q); RecString "c3"; RecString "gone"] = Some l
    /\ map contentId l = ["c1"; "new"]
    /\ ids = ["c1"; "c3"; "gone"]
    /\ l = resolved ++ extra
    /\ map (fun item => (contentId item, score item)) resolved = [("c1", 1%Q)]
    /\ extra = items (getFallbackRecommendations mixedStore (40 * day) "u1" 2).
Proof.
  destruct (rankerItems mixedStore (40 * day) "u1" 3
              [RecObject "c1" (Some 0%Q); RecString "c3"; RecString "gone"])
    as [l|] eqn:E; [|vm_compute in E; discriminate].
  destruct (rankerItems_puts_ranker_first mixedStore (40 * day) "u1" 3
              [RecObject "c1" (Some 0%Q); RecString "c3"; RecString "gone"] l E)
    as (ids & resolved & extra & H1 & H2 & _ & H3 & H4 & _ & H5 & _).
  assert (ids = ["c1"; "c3"; "gone"]) as -> by (vm_compute in H1; congruence).
  assert (Hr : length resolved = 1%nat).
  { rewrite <- (length_map contentId), H3. vm_compute. reflexivity. }
  exists l, ["c1"; "c3"; "gone"], resolved, extra.
  split; [reflexivity|]. split; [vm_compute in E; injection E as <-; reflexivity|].
  split; [reflexivity|]. split; [exact H2|]. split; [rewrite H4; vm_compute; reflexivity|].
  rewrite Hr in H5. apply H5; [lia | vm_compute; discriminate].
Defined.

End RankerPath.

Section InterestNormalisation.
Import JsString Recommender.

Lemma normalized_fixed data :
  let data' := match normalizedInterests data with
               | Some l => mkUser (Some l) (displayName data)
               | None => data
               end in
  normalizedInterests data' = None /\ lowerCased data'
  /\ displayName data' = displayName data.
Proof.
  cbv zeta. unfold normalizedInterests, lowerCased.
  destruct (interests data) as [l|] eqn:E.
  - destruct (decide (l = map toLowerCase l)) as [Hl|Hl].
    + rewrite E. destruct (decide (l = map toLowerCase l)); [|contradiction].
      split; [reflexivity|]. split; [|reflexivity].
      intros l' i [= <-] Hi. rewrite Hl in Hi.
      apply list_elem_of_fmap in Hi as (j & -> & _). apply toLowerCase_idem.
    + cbn [interests displayName].
      destruct (decide (map toLowerCase l = map toLowerCase (map toLowerCase l)))
        as [|H].
      * split; [reflexivity|]. split; [|reflexivity].
        intros l' i [= <-] Hi.
        apply list_elem_of_fmap in Hi as (j & -> & _). apply toLowerCase_idem.
      * exfalso. apply H. rewrite map_map. apply map_ext. intros i.
        symmetry. apply toLowerCase_idem.
  - rewrite E. split; [reflexivity|]. split; [discriminate | reflexivity].
Qed.

Lemma hasExactMatch_lowered l tags :
  hasExactMatch (map toLowerCase l) tags = true
  <-> exists tag interest, tag ∈ tags /\ interest ∈ l /\ ciEqual tag interest.
Proof.
  unfold hasExactMatch, ciEqual. rewrite existsb_exists. split.
  - intros (tag & Ht & H). apply bool_decide_eq_true in H.
    apply list_elem_of_fmap in H as (i & Hi & Hl).
    exists tag, i. split; [apply list_elem_of_In, Ht | auto].
  - intros (tag & i & Ht & Hi & E). exists tag.
    split; [apply list_elem_of_In, Ht|]. apply bool_decide_eq_true.
    rewrite E. apply list_elem_of_fmap. exists i. auto.
Qed.

(** X8. The interest normalisation puts every interest of every user in
    lower case and touches nothing else: the same users, the same display
    names. It is idempotent: run again, it updates no user and changes
    nothing. On the normalised interests the exact-match test of the
    resolver, which lowers the tag only, is the comparison without regard
    to case against the interests as they were. *)
Theorem normalizeInterests_idempotent users :
  let users' := fst (normalizeInterestsEndpoint users) in
  (forall uid, is_Some (users' !! uid) <-> is_Some (users !! uid))
  /\ (forall uid data', users' !! uid = Some data' ->
        lowerCased data'
        /\ exists data, users !! uid = Some data
                        /\ displayName data' = displayName data
                        /\ interests data' = map toLowerCase <$> interests data)
  /\ normalizeInterestsEndpoint users' = (users', O)
  /\ (snd (normalizeInterestsEndpoint users) <= size users)%nat
  /\ (forall l tags,
        hasExactMatch (map toLowerCase l) tags = true
        <-> exists tag interest, tag ∈ tags /\ interest ∈ l /\ ciEqual tag interest).
Proof.
  cbv zeta. unfold normalizeInterestsEndpoint. cbn [fst snd].
  set (f := fun data => match normalizedInterests data with
                        | Some l => mkUser (Some l) (displayName data)
                        | None => data
                        end).
  repeat apply conj.
  - intros uid. rewrite lookup_fmap. destruct (users !! uid); simpl.
    + split; eauto.
    + split; intros [x H]; discriminate.
  - intros uid data'. rewrite lookup_fmap.
    destruct (users !! uid) as [data|]; [|discriminate]. simpl. intros [= <-].
    destruct (normalized_fixed data) as (_ & Hl & Hd). fold (f data) in Hl, Hd.
    split; [exact Hl|]. exists data. split; [reflexivity|]. split; [exact Hd|].
    unfold f, normalizedInterests. destruct (interests data) as [l|] eqn:E.
    + destruct (decide (l = map toLowerCase l)) as [Hl'|]; [|reflexivity].
      rewrite E. simpl. congruence.
    + rewrite E. reflexivity.
  - f_equal.
    + apply map_eq. intros uid. rewrite !lookup_fmap.
      destruct (users !! uid) as [data|]; [|reflexivity]. simpl. f_equal.
      destruct (normalized_fixed data) as (Hn & _). fold (f data) in Hn.
      fold (f (f data)). unfold f at 1. rewrite Hn. reflexivity.
    + apply filter_length_zero. intros [uid data'] Hin.
      apply elem_of_map_to_list in Hin. rewrite lookup_fmap in Hin.
      destruct (users !! uid) as [data|]; [|discriminate]. simpl in Hin.
      injection Hin as <-. destruct (normalized_fixed data) as (Hn & _).
      fold (f data) in Hn. cbn [snd]. rewrite Hn.
      apply bool_decide_eq_false. intros [x Hx]. discriminate.
  - etransitivity; [apply List.filter_length_le|].
    rewrite length_map_to_list. reflexivity.
  - apply hasExactMatch_lowered.
Qed.

Lemma normalizeInterests_idempotent_witness :
  normalizeInterestsEndpoint (fst (normalizeInterestsEndpoint mixedCaseUsers))
  = (fst (normalizeInterestsEndpoint mixedCaseUsers), O)
  /\ snd (normalizeInterestsEndpoint mixedCaseUsers) = 1%nat.
Proof.
  split; [apply normalizeInterests_idempotent | vm_compute; reflexivity].
Defined.

End InterestNormalisation.

Section Pagination.
Import JsString Sync.
Context {D G : Type} (toGorse : D -> G) (post : list G -> Result unit).
Context (pageSize : nat) (Hpage : (0 < pageSize)%nat).

Lemma div_step a b : (0 < b)%nat -> (b <= a)%nat -> (a / b = S ((a - b) / b))%nat.
Proof.
  intros Hb Hab. replace a with ((a - b) + 1 * b)%nat at 1 by lia.
  rewrite Nat.div_add by lia. lia.
Qed.

(** With fuel for every page the loop ends. If it ends well it has posted
    all the documents, in their order and once each, in batches of at
    most a page, and has asked for one page more than there are full
    pages; if it ends in an error, the error is that of the ranker at a
    batch, and the batches before it are posted. *)
Lemma syncPages_spec fuel docs totalSynced :
  (length docs / pageSize < fuel)%nat ->
  exists p,
    syncPages toGorse post pageSize fuel docs totalSynced = Some p
    /\ Forall (fun batch => batch <> [] /\ (length batch <= pageSize)%nat
                            /\ exists u, post batch = Ok u) (posted p)
    /\ match outcome p with
       | Ok n =>
           n = (totalSynced + length docs)%nat
           /\ concat (posted p) = map toGorse docs
           /\ queries p = S (length docs / pageSize)
       | Throw error =>
           exists k,
             post (map toGorse (take pageSize (drop (k * pageSize) docs)))
             = Throw error
             /\ (k * pageSize < length docs)%nat
             /\ concat (posted p) = map toGorse (take (k * pageSize) docs)
             /\ queries p = S k
       end.
Proof.
  revert docs totalSynced.
  induction fuel as [|fuel IH]; intros docs totalSynced Hf; [lia|].
  cbn [syncPages].
  destruct (take pageSize docs) as [|d snapshot] eqn:Et.
  - assert (docs = []) as ->.
    { destruct docs; [reflexivity|]. destruct pageSize; [lia | discriminate]. }
    eexists. split; [reflexivity|]. cbn [posted outcome queries].
    split; [constructor|]. rewrite Nat.Div0.div_0_l. simpl. auto with lia.
  - rewrite <- Et.
    destruct (post (map toGorse (take pageSize docs))) as [u|error] eqn:Ep.
    + destruct (Nat.ltb_spec (length (take pageSize docs)) pageSize) as [Hlt|Hge].
      * eexists. split; [reflexivity|]. cbn [posted outcome queries].
        rewrite length_take in Hlt.
        assert (Hall : take pageSize docs = docs) by (apply take_ge; lia).
        split.
        -- constructor; [|constructor]. rewrite length_map, length_take. split.
           ++ rewrite Et. discriminate.
           ++ split; [lia | eauto].
        -- rewrite length_map, Hall. simpl. rewrite app_nil_r.
           rewrite Nat.div_small by lia. auto.
      * rewrite length_take in Hge.
        assert (Hlen : (pageSize <= length docs)%nat) by lia.
        destruct (IH (drop pageSize docs)
                     (totalSynced + length (map toGorse (take pageSize docs)))%nat)
          as (p & -> & Hposted & Hout).
        { rewrite length_drop. rewrite (div_step (length docs) pageSize) in Hf; lia. }
        eexists. split; [reflexivity|]. cbn [posted outcome queries].
        split.
        -- constructor; [|exact Hposted]. rewrite length_map, length_take. split.
           ++ rewrite Et. discriminate.
           ++ split; [lia | eauto].
        -- destruct (outcome p) as [n|error].
           ++ destruct Hout as (-> & Hc & Hq).
              rewrite length_map, length_take, length_drop. split; [lia|].
              split.
              ** simpl. rewrite Hc, <- map_app, take_drop. reflexivity.
              ** rewrite Hq, length_drop.
                 rewrite (div_step (length docs) pageSize); lia.
           ++ destruct Hout as (k & Hk & Hin & Hc & Hq). exists (S k).
              rewrite drop_drop in Hk. rewrite length_drop in Hin.
              replace (S k * pageSize)%nat with (pageSize + k * pageSize)%nat by lia.
              split; [exact Hk|]. split; [lia|]. split; [|lia].
              simpl. rewrite Hc. rewrite <- map_app. f_equal.
              apply take_take_drop.
    + eexists. split; [reflexivity|]. cbn [posted outcome queries].
      split; [constructor|]. exists O. simpl. rewrite drop_0.
      split; [exact Ep|]. split; [|auto].
      destruct docs; [destruct pageSize; discriminate | simpl; lia].
Qed.

(** X9. A sync ends whenever there is fuel for every page, and every
    batch it has posted was accepted by the ranker, was not empty and
    was no longer than a page. Either the ranker accepted all: then each
    document the query ranges over was posted once, in the order of the
    query, and the sync reports their number if the metadata document
    could be written and the error of that write if not. Or the ranker
    rejected a batch, the page [k] of the query: then the sync stops
    there and reports the error of the ranker, the pages before it stay
    posted, nothing after them is, and no count is reported. In
    particular a count is reported only when all documents were posted
    and the metadata was written. *)
Theorem syncAll_posts_every_document setMeta fuel docs :
  (length docs / pageSize < fuel)%nat ->
  exists result batches,
    syncAll toGorse post setMeta pageSize fuel docs = Some (result, batches)
    /\ Forall (fun batch => batch <> [] /\ (length batch <= pageSize)%nat
                            /\ exists u, post batch = Ok u) batches
    /\ ((concat batches = map toGorse docs
         /\ result = match setMeta (length docs) with
                     | Ok _ => Synced (length docs)
                     | Throw error => SyncError (message error)
                     end)
        \/ (exists k error,
              (k * pageSize < length docs)%nat
              /\ post (map toGorse (take pageSize (drop (k * pageSize) docs)))
                 = Throw error
              /\ concat batches = map toGorse (take (k * pageSize) docs)
              /\ result = SyncError (message error)))
    /\ (forall n, result = Synced n ->
          n = length docs /\ concat batches = map toGorse docs
          /\ exists u, setMeta n = Ok u).
Proof.
  intros Hf. destruct (syncPages_spec fuel docs O Hf) as (p & Hp & Hposted & Hout).
  unfold syncAll. rewrite Hp. simpl.
  eexists _, _. split; [reflexivity|]. repeat apply conj.
  - exact Hposted.
  - destruct (outcome p) as [n|error].
    + left. destruct Hout as (-> & Hc & _). simpl. auto.
    + right. destruct Hout as (k & Hk & Hin & Hc & _). exists k, error. auto.
  - intros n Hn. destruct (outcome p) as [m|error]; [|discriminate].
    destruct Hout as (-> & Hc & _). simpl in Hn.
    destruct (setMeta (length docs)) as [u|] eqn:Em; [|discriminate].
    injection Hn as <-. rewrite Em. eauto.
Qed.

End Pagination.

Section PaginationSample.
Import JsString Sync.

Lemma syncAll_posts_every_document_witness :
  syncAll (fun n : nat => n) acceptAll (fun _ => Ok tt) 2 4 [1; 2; 3; 4]%nat
  = Some (Synced 4, [[1; 2]; [3; 4]]%nat)
  /\ syncAll (fun n : nat => n) (rejectWith 3) (fun _ => Ok tt) 2 4 [1; 2; 3; 4]%nat
     = Some (SyncError "Gorse API error (500): failed", [[1; 2]]%nat)
  /\ exists result batches,
       syncAll (fun n : nat => n) (rejectWith 3) (fun _ => Ok tt) 2 4 [1; 2; 3; 4]%nat
       = Some (result, batches)
       /\ Forall (fun batch => batch <> [] /\ (length batch <= 2)%nat
                               /\ exists u, rejectWith 3 batch = Ok u) batches
       /\ forall n, result <> Synced n.
Proof.
  split; [vm_compute; reflexivity|]. split; [vm_compute; reflexivity|].
  destruct (syncAll_posts_every_document (fun n : nat => n) (rejectWith 3) 2
              ltac:(lia) (fun _ => Ok tt) 4 [1; 2; 3; 4]%nat)
    as (result & batches & H & Hb & _ & Hn).
  - vm_compute. lia.
  - exists result, batches. split; [exact H|]. split; [exact Hb|].
    intros n Hr. destruct (Hn n Hr) as (-> & Hc & _).
    assert (Hin : (3%nat : nat) ∈ concat batches) by (rewrite Hc; set_solver).
    apply list_elem_of_In, in_concat in Hin as (batch & Hbatch & Hin).
    apply list_elem_of_In in Hbatch. apply list_elem_of_In in Hin.
    rewrite Forall_forall in Hb. destruct (Hb batch Hbatch) as (_ & _ & [u Hu]).
    unfold rejectWith in Hu. rewrite bool_decide_eq_true_2 in Hu by exact Hin.
    discriminate.
Defined.

End PaginationSample.

Section TextCleaning.
Import JsString Collector.

Lemma collapseSpacesFrom_tidy inRun s :
  singleBlanks (collapseSpacesFrom inRun s) = true
  /\ (inRun = true -> startsBlank (collapseSpacesFrom inRun s) = false).
Proof.
  revert inRun. induction s as [|c s IH]; intros inRun; [split; reflexivity|].
  cbn [collapseSpacesFrom]. destruct (isSpace c) eqn:Ec.
  - destruct inRun.
    + apply IH.
    + destruct (IH true) as [H1 H2]. split; [|discriminate].
      cbn [singleBlanks]. rewrite H1, (H2 eq_refl). reflexivity.
  - destruct (IH false) as [H1 _]. split.
    + cbn [singleBlanks]. rewrite Ec, H1. reflexivity.
    + intros _. exact Ec.
Qed.

Lemma singleBlanks_tail c s : singleBlanks (String c s) = true -> singleBlanks s = true.
Proof. cbn [singleBlanks]. intros H. apply andb_true_iff in H. tauto. Qed.

Lemma trimStart_tidy s :
  singleBlanks s = true ->
  singleBlanks (trimStart s) = true /\ startsBlank (trimStart s) = false.
Proof.
  induction s as [|c s IH]; intros H; [split; reflexivity|].
  cbn [trimStart]. destruct (isSpace c) eqn:Ec.
  - apply IH. apply (singleBlanks_tail c), H.
  - split; [exact H | exact Ec].
Qed.

(** [trimEnd] keeps the first character of what it leaves. *)
Lemma trimEnd_head s d r :
  trimEnd s = String d r -> exists s', s = String d s'.
Proof.
  destruct s as [|c s]; [discriminate|]. cbn [trimEnd].
  destruct (trimEnd s); [destruct (isSpace c)|]; intros [= <- _]; eauto.
Qed.

Lemma trimEnd_tidy s :
  singleBlanks s = true ->
  singleBlanks (trimEnd s) = true
  /\ endsBlank (trimEnd s) = false
  /\ (startsBlank s = false -> startsBlank (trimEnd s) = false).
Proof.
  induction s as [|c s IH]; intros H; [repeat split; reflexivity|].
  pose proof (singleBlanks_tail c s H) as Hs. destruct (IH Hs) as (I1 & I2 & I3).
  cbn [trimEnd]. destruct (trimEnd s) as [|d r] eqn:Et.
  - destruct (isSpace c) eqn:Ec.
    + split; [reflexivity|]. split; [reflexivity|]. cbn [startsBlank]. congruence.
    + cbn [singleBlanks endsBlank startsBlank]. rewrite Ec. auto.
  - destruct (trimEnd_head s d r Et) as [s' ->].
    split; [|split].
    + cbn [singleBlanks] in H |- *. apply andb_true_iff in H as [H _].
      cbn [startsBlank] in H |- *. rewrite H. exact I1.
    + exact I2.
    + intros Hc. exact Hc.
Qed.

Lemma startsWith_length p s :
  startsWith p s = true -> (String.length p <= String.length s)%nat.
Proof.
  revert s. induction p as [|a p IH]; intros [|b s] H; simpl in *;
    try lia; try discriminate.
  destruct (ascii_dec a b); [|discriminate]. specialize (IH s H). lia.
Qed.

Lemma length_append s t :
  String.length (s +:+ t) = (String.length s + String.length t)%nat.
Proof. induction s as [|c s IH]; [reflexivity|]. rewrite append_cons. simpl. lia. Qed.

Lemma length_replaceAllFrom pat rep skip s :
  (String.length rep <= String.length pat)%nat ->
  (String.length (replaceAllFrom pat rep skip s) + Nat.min skip (String.length s)
   <= String.length s)%nat.
Proof.
  intros Hrep. revert skip. induction s as [|c s IH]; intros skip; [simpl; lia|].
  cbn [replaceAllFrom]. destruct skip as [|k].
  - destruct (startsWith pat (String c s)) eqn:Es.
    + apply startsWith_length in Es. rewrite length_append.
      specialize (IH (String.length pat - 1)%nat). simpl in *. lia.
    + specialize (IH O). simpl in *. lia.
  - specialize (IH k). simpl in *. lia.
Qed.

Lemma length_replaceAll pat rep s :
  (String.length rep <= String.length pat)%nat ->
  (String.length (replaceAll pat rep s) <= String.length s)%nat.
Proof.
  intros H. pose proof (length_replaceAllFrom pat rep O s H). unfold replaceAll. lia.
Qed.

Lemma length_stripTagsFrom inTag s :
  (String.length (stripTagsFrom inTag s) <= String.length s)%nat.
Proof.
  revert inTag. induction s as [|c s IH]; intros inTag; [simpl; lia|].
  cbn [stripTagsFrom]. pose proof (IH true). pose proof (IH false).
  destruct inTag; [destruct (ascii_dec c ">")|];
    [..|destruct (ascii_dec c "<"); [destruct (hasChar ">" s)|]]; simpl; lia.
Qed.

Lemma length_collapseSpacesFrom inRun s :
  (String.length (collapseSpacesFrom inRun s) <= String.length s)%nat.
Proof.
  revert inRun. induction s as [|c s IH]; intros inRun; [simpl; lia|].
  cbn [collapseSpacesFrom]. pose proof (IH true). pose proof (IH false).
  destruct (isSpace c); [destruct inRun|]; simpl; lia.
Qed.

Lemma length_trimStart s : (String.length (trimStart s) <= String.length s)%nat.
Proof.
  induction s as [|c s IH]; [simpl; lia|]. cbn [trimStart].
  destruct (isSpace c); simpl in *; lia.
Qed.

Lemma length_trimEnd s : (String.length (trimEnd s) <= String.length s)%nat.
Proof.
  induction s as [|c s IH]; [simpl; lia|]. cbn [trimEnd].
  destruct (trimEnd s); [destruct (isSpace c)|]; simpl in *; lia.
Qed.

Lemma length_trim s : (String.length (trim s) <= String.length s)%nat.
Proof.
  unfold trim. pose proof (length_trimEnd (trimStart s)).
  pose proof (length_trimStart s). lia.
Qed.

Lemma trim_tidy s :
  singleBlanks s = true ->
  singleBlanks (trim s) = true /\ startsBlank (trim s) = false
  /\ endsBlank (trim s) = false.
Proof.
  intros H. unfold trim. destruct (trimStart_tidy s H) as [H1 H2].
  destruct (trimEnd_tidy (trimStart s) H1) as (H3 & H4 & H5). auto.
Qed.

(** X10. Text cleaned by [stripHTML] is never longer than the markup it
    comes from, and its white space is normalised whatever the markup:
    every white-space character left is a blank, no two blanks follow
    each other, and the text neither starts nor ends with one. The
    [htmlToPlainText] of the article parser, written apart, is the same
    function. *)
Theorem stripHTML_normalises_white_space html :
  (String.length (stripHTML html) <= String.length html)%nat
  /\ singleBlanks (stripHTML html) = true
  /\ startsBlank (stripHTML html) = false
  /\ endsBlank (stripHTML html) = false
  /\ ArticleParser.htmlToPlainText html = stripHTML html.
Proof.
  unfold stripHTML. split; [|split; [|split; [|split]]].
  - etransitivity; [apply length_trim|].
    etransitivity; [apply length_collapseSpacesFrom|].
    repeat (etransitivity; [apply length_replaceAll; simpl; lia|]).
    apply length_stripTagsFrom.
  - apply trim_tidy. apply collapseSpacesFrom_tidy.
  - apply trim_tidy. apply collapseSpacesFrom_tidy.
  - apply trim_tidy. apply collapseSpacesFrom_tidy.
  - reflexivity.
Qed.

End TextCleaning.

Section PlainText.
Import JsString Collector.

Lemma thinned_hasChar s t :
  thinned s t -> hasChar ">" t = true -> hasChar ">" s = true.
Proof.
  induction 1 as [|c s t _ IH|c s t _ IH|c d s t [_ Hc] [_ Hd] _ IH];
    cbn [hasChar]; intros H; auto.
  - destruct (ascii_dec ">" c); auto.
  - destruct (ascii_dec ">" c); auto.
  - destruct (ascii_dec ">" d); [congruence|].
    destruct (ascii_dec ">" c); auto.
Qed.

Lemma thinned_tagFree s t : thinned s t -> tagFree s = true -> tagFree t = true.
Proof.
  induction 1 as [|c s t _ IH|c s t Hst IH|c d s t [Hc _] [Hd _] _ IH];
    cbn [tagFree]; intros H; auto; apply andb_true_iff in H as [H1 H2].
  - auto.
  - rewrite (IH H2), andb_true_r. destruct (ascii_dec c "<"); [|reflexivity].
    destruct (hasChar ">" t) eqn:E; [|reflexivity].
    rewrite (thinned_hasChar s t Hst E) in H1. discriminate.
  - rewrite (IH H2). destruct (ascii_dec d "<"); [contradiction | reflexivity].
Qed.

Lemma thinned_refl s : thinned s s.
Proof. induction s; [apply thinned_nil | apply thinned_keep; assumption]. Qed.

Lemma thinned_trans s t u : thinned s t -> thinned t u -> thinned s u.
Proof.
  intros H. revert u. induction H as [|c s t _ IH|c s t _ IH|c d s t Hc Hd _ IH];
    intros u Hu.
  - exact Hu.
  - constructor. apply IH, Hu.
  - inversion Hu; subst;
      [apply thinned_skip | apply thinned_keep | apply thinned_swap]; auto.
  - inversion Hu as [|? ? ? H1|? ? ? H1|? e ? ? H0 He H1]; subst.
    + apply thinned_skip. auto.
    + apply thinned_swap; auto.
    + apply thinned_swap; auto.
Qed.

Lemma isSpace_notAngle c : isSpace c = true -> notAngle c.
Proof.
  intros H. split; intros ->; vm_compute in H; discriminate.
Qed.

Lemma thinned_collapseSpacesFrom inRun s : thinned s (collapseSpacesFrom inRun s).
Proof.
  revert inRun. induction s as [|c s IH]; intros inRun; [constructor|].
  cbn [collapseSpacesFrom]. destruct (isSpace c) eqn:Ec.
  - destruct inRun; [apply thinned_skip, IH|].
    apply thinned_swap; [apply isSpace_notAngle, Ec | split; discriminate | apply IH].
  - apply thinned_keep, IH.
Qed.

Lemma thinned_trimStart s : thinned s (trimStart s).
Proof.
  induction s as [|c s IH]; [constructor|]. cbn [trimStart].
  destruct (isSpace c); [apply thinned_skip, IH | apply thinned_refl].
Qed.

Lemma thinned_trimEnd s : thinned s (trimEnd s).
Proof.
  induction s as [|c s IH]; [constructor|]. cbn [trimEnd].
  destruct (trimEnd s); [destruct (isSpace c)|];
    [apply thinned_skip | apply thinned_keep | apply thinned_keep]; exact IH.
Qed.

Lemma thinned_substring0 n s : thinned s (substring0 n s).
Proof.
  assert (Hnil : forall r, thinned r "").
  { intros r. induction r; [apply thinned_nil | apply thinned_skip; assumption]. }
  revert s. induction n as [|n IH]; intros [|c s]; cbn [substring0];
    try apply Hnil. apply thinned_keep, IH.
Qed.

Lemma stripTagsFrom_closes inTag s :
  hasChar ">" s = false -> hasChar ">" (stripTagsFrom inTag s) = false.
Proof.
  revert inTag. induction s as [|c s IH]; intros inTag H; [reflexivity|].
  cbn [hasChar] in H. destruct (ascii_dec ">" c) as [|Hc]; [discriminate|].
  cbn [stripTagsFrom]. destruct inTag.
  - destruct (ascii_dec c ">"); [congruence | auto].
  - assert (Hk : hasChar ">" (String c (stripTagsFrom false s)) = false).
    { cbn [hasChar]. destruct (ascii_dec ">" c); [contradiction | auto]. }
    destruct (ascii_dec c "<"); [rewrite H|]; exact Hk.
Qed.

Lemma stripTagsFrom_tagFree inTag s : tagFree (stripTagsFrom inTag s) = true.
Proof.
  revert inTag. induction s as [|c s IH]; intros inTag; [reflexivity|].
  cbn [stripTagsFrom]. destruct inTag.
  - destruct (ascii_dec c ">"); [|apply IH].
    cbn [tagFree]. rewrite IH. reflexivity.
  - destruct (ascii_dec c "<") as [->|Hc].
    + destruct (hasChar ">" s) eqn:E; [apply IH|].
      cbn [tagFree]. rewrite IH, (stripTagsFrom_closes false s E). reflexivity.
    + cbn [tagFree]. rewrite IH. destruct (ascii_dec c "<"); [contradiction | reflexivity].
Qed.

Lemma singleBlanks_substring0 n s :
  singleBlanks s = true -> singleBlanks (substring0 n s) = true.
Proof.
  revert s. induction n as [|n IH]; intros [|c s] H; try reflexivity.
  cbn [substring0 singleBlanks] in *. apply andb_true_iff in H as [H1 H2].
  rewrite (IH s H2), andb_true_r. destruct (isSpace c); [|reflexivity].
  apply andb_true_iff in H1 as [H1 H3]. rewrite H1. simpl.
  destruct n, s; try reflexivity. exact H3.
Qed.

Lemma startsBlank_substring0 n s :
  startsBlank s = false -> startsBlank (substring0 n s) = false.
Proof. destruct n, s; auto. Qed.

(** X12. The plain text that the feed parser keeps of an item holds at
    most 500 characters and no markup tag: no [<] of it is followed by a
    [>], whatever the markup was. Its white space is normalised, but for
    a blank that the cut at 500 characters may leave at its end. *)
Theorem extractPlainText_has_no_tags html :
  (String.length (Ingestion.extractPlainText html) <= 500)%nat
  /\ tagFree (Ingestion.extractPlainText html) = true
  /\ singleBlanks (Ingestion.extractPlainText html) = true
  /\ startsBlank (Ingestion.extractPlainText html) = false.
Proof.
  unfold Ingestion.extractPlainText. repeat apply conj.
  - rewrite length_substring0. lia.
  - eapply thinned_tagFree; [|apply (stripTagsFrom_tagFree false html)].
    eapply thinned_trans; [apply thinned_collapseSpacesFrom|].
    eapply thinned_trans; [|apply thinned_substring0].
    unfold trim. eapply thinned_trans; [apply thinned_trimStart | apply thinned_trimEnd].
  - apply singleBlanks_substring0, trim_tidy, collapseSpacesFrom_tidy.
  - apply startsBlank_substring0, trim_tidy, collapseSpacesFrom_tidy.
Qed.

End PlainText.

Section SafeIds.
Import JsString Collector.

Lemma hexDigit_hex n : 0 <= n < 16 -> isHexDigit (Md5.hexDigit n) = true.
Proof.
  intros H. rewrite <- (Z2Nat.id n) by lia.
  assert (Hk : (Z.to_nat n < 16)%nat) by lia.
  revert Hk. generalize (Z.to_nat n) as k. intros k Hk.
  do 16 (destruct k as [|k]; [reflexivity|]). lia.
Qed.

Lemma hex_digits bs : allChars isHexDigit (Md5.hex bs) = true.
Proof.
  induction bs as [|b bs IH]; [reflexivity|]. cbn [Md5.hex allChars].
  rewrite IH, !hexDigit_hex; [reflexivity| |].
  - change 15 with (Z.ones 4). rewrite Z.land_ones by lia.
    apply Z.mod_pos_bound. reflexivity.
  - change 255 with (Z.ones 8). rewrite Z.land_ones, Z.shiftr_div_pow2 by lia.
    pose proof (Z.mod_pos_bound b (2 ^ 8) eq_refl) as Hb. split.
    + apply Z.div_pos; lia.
    + apply Z.div_lt_upper_bound; lia.
Qed.

Lemma allChars_substring0 p n s :
  allChars p s = true -> allChars p (substring0 n s) = true.
Proof.
  revert s. induction n as [|n IH]; intros [|c s] H; try reflexivity.
  cbn [substring0 allChars] in *. apply andb_true_iff in H as [-> H].
  rewrite (IH s H). reflexivity.
Qed.

Lemma allChars_mapChars (p : ascii -> bool) f s :
  (forall c, p (f c) = true) -> allChars p (mapChars f s) = true.
Proof.
  intros H. induction s as [|c s IH]; [reflexivity|].
  cbn [mapChars allChars]. rewrite H, IH. reflexivity.
Qed.

Lemma allChars_hasChar p c s :
  allChars p s = true -> p c = false -> hasChar c s = false.
Proof.
  intros H Hc. induction s as [|d s IH]; [reflexivity|].
  cbn [allChars hasChar] in *. apply andb_true_iff in H as [Hd H].
  destruct (ascii_dec c d) as [->|]; [congruence | auto].
Qed.

Lemma document_ids_hex url :
  String.length (generateDocId url) = 20%nat
  /\ allChars isHexDigit (generateDocId url) = true.
Proof.
  split; [apply length_generateDocId|].
  unfold generateDocId, Md5.md5hex. apply allChars_substring0, hex_digits.
Qed.

(** X11. Both paths name a document by an id that is safe as a path
    segment of the store. The id of the collector is made of 20
    characters out of 0-9 and a-f; the id of the older feed parser of at
    most 100 characters out of 0-9, A-Z, a-z and the underscore, taken
    from the guid of the item whenever it has one and from its link
    otherwise. Neither holds a slash. *)
Theorem document_ids_are_path_safe :
  (forall url,
     String.length (generateDocId url) = 20%nat
     /\ allChars isHexDigit (generateDocId url) = true
     /\ hasChar "/" (generateDocId url) = false)
  /\ (forall url guid,
        (String.length (Ingestion.generateDocId url guid) <= 100)%nat
        /\ allChars isIdChar (Ingestion.generateDocId url guid) = true
        /\ hasChar "/" (Ingestion.generateDocId url guid) = false)
  /\ (forall url url' g,
        g <> "" ->
        Ingestion.generateDocId url (Some g) = Ingestion.generateDocId url' (Some g))
  /\ (forall url,
        Ingestion.generateDocId url None = Ingestion.generateDocId url (Some "")).
Proof.
  assert (H1 : forall url, allChars isHexDigit (generateDocId url) = true).
  { intros url. apply document_ids_hex. }
  assert (H2 : forall url guid,
            allChars isIdChar (Ingestion.generateDocId url guid) = true).
  { intros url guid. unfold Ingestion.generateDocId.
    apply allChars_substring0, allChars_mapChars. intros c. unfold isIdChar.
    destruct (Ingestion.isAlnum c) eqn:E; [rewrite E; reflexivity|].
    apply orb_true_r. }
  repeat apply conj.
  - intros url. split; [apply length_generateDocId|]. split; [apply H1|].
    apply (allChars_hasChar isHexDigit); [apply H1 | reflexivity].
  - intros url guid. split.
    + unfold Ingestion.generateDocId. rewrite length_substring0. lia.
    + split; [apply H2|].
      apply (allChars_hasChar isIdChar); [apply H2 | reflexivity].
  - intros url url' g Hg. unfold Ingestion.generateDocId, orDefault.
    destruct g; [contradiction | reflexivity].
  - intros url. reflexivity.
Qed.

Lemma document_ids_are_path_safe_witness :
  Ingestion.generateDocId "https://example.com/a" (Some "tag:example.com,2024:1")
  = Ingestion.generateDocId "https://example.com/b" (Some "tag:example.com,2024:1")
  /\ Ingestion.generateDocId "https://example.com/a" (Some "tag:example.com,2024:1")
     = "tag_example_com_2024_1".
Proof.
  split; [|vm_compute; reflexivity].
  destruct document_ids_are_path_safe as (_ & _ & H & _).
  apply H. discriminate.
Defined.

End SafeIds.

Section FeedParser.
Import JsString Ingestion.

Lemma omap_length_le {A B} (f : A -> option B) l :
  (length (omap f l) <= length l)%nat.
Proof.
  induction l as [|x l IH]; [reflexivity|].
  change (omap f (x :: l)) with (match f x with
                                 | Some y => y :: omap f l
                                 | None => omap f l
                                 end).
  destruct (f x); simpl; lia.
Qed.

(** X13. The older feed parser returns, of a feed that answers, the
    items with a link whose id is not stored, and no other: each record
    comes from an item of the feed, carries its link, the feed and the
    tags of the feed, an excerpt of at most 300 characters and a plain
    text of at most 500, under the id made of its guid or link. Of a feed
    that fails it returns no item and the message of the error. *)
Theorem parseFeed_returns_unstored_items parseURL exists_ now feedUrl tags :
  let r := parseFeed parseURL exists_ now feedUrl tags in
  (forall feedItems, parseURL feedUrl = Ok feedItems ->
     pfSuccess r = true /\ totalItems r = length feedItems
     /\ (length (newItems r) <= length feedItems)%nat
     /\ (forall id d, (id, d) ∈ newItems r ->
           exists_ id = false /\ url d <> ""
           /\ source d = feedUrl /\ Ingestion.tags d = tags
           /\ (String.length (excerpt d) <= 300)%nat
           /\ (String.length (plain_text d) <= 500)%nat
           /\ exists item, item ∈ feedItems /\ link item = Some (url d)
                           /\ id = generateDocId (url d) (guid item))
     /\ (forall item l, item ∈ feedItems -> link item = Some l -> l <> "" ->
           exists_ (generateDocId l (guid item)) = false ->
           generateDocId l (guid item) ∈ map fst (newItems r)))
  /\ (forall e, parseURL feedUrl = Throw e ->
        r = mkParsedFeed false feedUrl O [] (Some (message e))).
Proof.
  cbv zeta. unfold parseFeed. split.
  - intros feedItems ->. cbn [pfSuccess totalItems newItems].
    split; [reflexivity|]. split; [reflexivity|]. split; [|split].
    + apply omap_length_le.
    + intros id d Hin. apply list_elem_of_omap in Hin as (item & Hitem & H).
      destruct (truthy (link item)) as [l|] eqn:El; [|discriminate].
      destruct (exists_ (generateDocId l (guid item))) eqn:Ex; [discriminate|].
      injection H as <- <-. unfold contentData.
      cbn [url source Ingestion.tags excerpt plain_text].
      assert (Hl : link item = Some l /\ l <> "").
      { unfold truthy in El. destruct (link item) as [[|c s]|]; try discriminate.
        injection El as <-. split; [reflexivity | discriminate]. }
      destruct Hl as [Hl Hne].
      repeat apply conj; try reflexivity; try assumption.
      * rewrite length_substring0. lia.
      * unfold extractPlainText. rewrite length_substring0. lia.
      * exists item. auto.
    + intros item l Hitem Hl Hne Hex.
      apply list_elem_of_fmap. eexists (_, _). split; [reflexivity|].
      apply list_elem_of_omap. exists item. split; [exact Hitem|].
      rewrite Hl. destruct l; [contradiction|]. cbn [truthy].
      rewrite Hex. reflexivity.
  - intros e ->. reflexivity.
Qed.

Lemma parseFeed_returns_unstored_items_witness :
  map fst (newItems (parseFeed (fun _ => Ok [markedUp; longFeedItem])
                       (fun id => bool_decide (id = "tag_example_com_2024_post_1"))
                       1000 "https://example.com/feed" ["news"]))
  = ["https___example_com_post"]
  /\ pfSuccess (parseFeed (fun _ => Ok [markedUp; longFeedItem])
                  (fun id => bool_decide (id = "tag_example_com_2024_post_1"))
                  1000 "https://example.com/feed" ["news"]) = true.
Proof.
  split; [vm_compute; reflexivity|].
  eapply (parseFeed_returns_unstored_items (fun _ => Ok [markedUp; longFeedItem])).
  reflexivity.
Defined.

End FeedParser.

Section FeedCooldown.
Import JsString Ingestion.

Lemma isFeedOnCooldown_spec now feedUrl m :
  isFeedOnCooldown now feedUrl m = true
  <-> exists t, m !! feedUrl = Some t /\ t <> 0 /\ now - t < FEED_COOLDOWN_MS.
Proof.
  unfold isFeedOnCooldown. destruct (m !! feedUrl) as [t|].
  - destruct (Z.eqb_spec t 0) as [->|Hnz]; simpl.
    + split; [discriminate|]. intros (t & [= <-] & H & _). contradiction.
    + rewrite Z.ltb_lt. split; [eauto|]. intros (t' & [= <-] & _ & H). exact H.
  - split; [discriminate|]. intros (t & H & _). discriminate.
Qed.

(** X14. In an incremental run a feed that was fetched less than an hour
    before is counted and passed over: it is not parsed, adds no item
    and no error, and keeps its mark. From one hour on it is parsed
    again; so it is in every run of another mode, whatever its mark. A
    feed that answers is marked with the instant of the run, a feed that
    fails keeps the mark it had. *)
Theorem gatherFeed_respects_cooldown r tags feedUrl g :
  let now := clock r (totalFeeds g) in
  let parsed := parseFeed (parseURL r) (exists_ r) now feedUrl tags in
  (mode r = "incremental" ->
   forall t, feedLastFetched g !! feedUrl = Some t -> t <> 0 ->
     now - t < FEED_COOLDOWN_MS ->
     gatherFeed r tags feedUrl g = (counted 1 g, false))
  /\ ((mode r <> "incremental"
       \/ feedLastFetched g !! feedUrl = None
       \/ exists t, feedLastFetched g !! feedUrl = Some t
                    /\ FEED_COOLDOWN_MS <= now - t) ->
      let g' := fst (gatherFeed r tags feedUrl g) in
      allNewItems g' = allNewItems g ++ newItems parsed
      /\ totalFeeds g' = S (totalFeeds g)
      /\ (pfSuccess parsed = true ->
          feedLastFetched g' = markFeedFetched now feedUrl (feedLastFetched g)
          /\ successfulFeeds g' = S (successfulFeeds g)
          /\ failedFeeds g' = failedFeeds g /\ errors g' = errors g)
      /\ (pfSuccess parsed = false ->
          feedLastFetched g' = feedLastFetched g
          /\ successfulFeeds g' = successfulFeeds g
          /\ failedFeeds g' = S (failedFeeds g)
          /\ errors g' = errors g ++ [(feedUrl, pfError parsed)]))
  /\ (forall t later,
        t <> 0 ->
        (isFeedOnCooldown later feedUrl (markFeedFetched t feedUrl (feedLastFetched g))
         = true <-> later - t < FEED_COOLDOWN_MS)).
Proof.
  cbv zeta. unfold gatherFeed. cbn [feedLastFetched totalFeeds].
  split; [|split].
  - intros Hm t Ht Hnz Hlt. rewrite bool_decide_eq_true_2 by exact Hm.
    assert (Hc : isFeedOnCooldown (clock r (totalFeeds g)) feedUrl (feedLastFetched g)
                 = true).
    { apply isFeedOnCooldown_spec. eauto. }
    rewrite Hc. reflexivity.
  - intros H.
    assert (Hc : bool_decide (mode r = "incremental")
                 && isFeedOnCooldown (clock r (totalFeeds g)) feedUrl (feedLastFetched g)
                 = false).
    { destruct H as [H|[H|(t & Ht & H)]].
      - rewrite bool_decide_eq_false_2 by exact H. reflexivity.
      - unfold isFeedOnCooldown. rewrite H. apply andb_false_r.
      - unfold isFeedOnCooldown. rewrite Ht.
        destruct (Z.ltb_spec (clock r (totalFeeds g) - t) FEED_COOLDOWN_MS); [lia|].
        rewrite andb_false_r. apply andb_false_r. }
    rewrite Hc. cbn [fst].
    destruct (pfSuccess (parseFeed (parseURL r) (exists_ r) (clock r (totalFeeds g))
                           feedUrl tags)) eqn:Es;
      cbn [allNewItems totalFeeds feedLastFetched successfulFeeds failedFeeds errors].
    + unfold parseFeed in *. destruct (parseURL r feedUrl); [|discriminate].
      repeat split; try discriminate; reflexivity.
    + unfold parseFeed in *. destruct (parseURL r feedUrl); [discriminate|].
      cbn [newItems]. rewrite app_nil_r. repeat split; try discriminate; reflexivity.
  - intros t later Hnz. rewrite isFeedOnCooldown_spec. unfold markFeedFetched.
    rewrite lookup_insert_eq. split.
    + intros (t' & [= <-] & _ & H). exact H.
    + intros H. eauto.
Qed.

Lemma gatherFeed_respects_cooldown_witness :
  gatherFeed (sampleRun 500 "incremental") ["ai"] "https://towardsdatascience.com/feed"
    (startOfRun (allFetchedAt 7000000))
  = (counted 1 (startOfRun (allFetchedAt 7000000)), false).
Proof.
  destruct (gatherFeed_respects_cooldown (sampleRun 500 "incremental") ["ai"]
              "https://towardsdatascience.com/feed" (startOfRun (allFetchedAt 7000000)))
    as [H _].
  apply (H eq_refl 7000000); [vm_compute; reflexivity | discriminate | vm_compute; reflexivity].
Defined.

Lemma Accounted_start r m : Accounted r m (startOfRun m).
Proof. split; simpl; auto. Qed.

Lemma gatherFeed_accounted r m tags feedUrl g :
  Accounted r m g ->
  Accounted r m (fst (gatherFeed r tags feedUrl g))
  /\ totalFeeds (fst (gatherFeed r tags feedUrl g)) = S (totalFeeds g).
Proof.
  intros [H1 H2 H3 H4 H5]. unfold gatherFeed. cbn [feedLastFetched totalFeeds].
  destruct (bool_decide (mode r = "incremental")
            && isFeedOnCooldown (clock r (totalFeeds g)) feedUrl (feedLastFetched g)).
  - cbn [fst]. split; [|reflexivity]. split; simpl; auto with lia.
  - cbn [fst]. unfold parseFeed.
    destruct (parseURL r feedUrl) as [feedItems|e] eqn:Ep;
      cbn [pfSuccess newItems pfError allNewItems totalFeeds feedLastFetched
           successfulFeeds failedFeeds errors totalNewItems].
    + split; [|reflexivity]. split;
        cbn [allNewItems totalFeeds feedLastFetched successfulFeeds failedFeeds
             errors totalNewItems].
      * rewrite length_app. lia.
      * lia.
      * exact H3.
      * apply Forall_app. split; [exact H4|]. apply Forall_forall.
        intros [id d] Hin. apply list_elem_of_omap in Hin as (item & _ & Hsome).
        destruct (truthy (link item)) as [l|]; [|discriminate].
        destruct (exists_ r (generateDocId l (guid item))) eqn:Ex; [discriminate|].
        injection Hsome as <- _. exact Ex.
      * intros url t. unfold markFeedFetched.
        destruct (decide (feedUrl = url)) as [<-|Hne].
        -- rewrite lookup_insert_eq. intros [= <-]. right. eauto.
        -- rewrite lookup_insert_ne by exact Hne. apply H5.
    + split; [|reflexivity]. split;
        cbn [allNewItems totalFeeds feedLastFetched successfulFeeds failedFeeds
             errors totalNewItems]; auto.
      * lia.
      * rewrite length_app. simpl. lia.
Qed.

Lemma gatherFeeds_accounted r m tags feeds g :
  Accounted r m g ->
  Accounted r m (gatherFeeds r tags feeds g)
  /\ (totalFeeds (gatherFeeds r tags feeds g) <= length feeds + totalFeeds g)%nat.
Proof.
  revert g. induction feeds as [|feedUrl rest IH]; intros g H; [split; [exact H | simpl; lia]|].
  cbn [gatherFeeds]. destruct (gatherFeed_accounted r m tags feedUrl g H) as [H1 H2].
  destruct (gatherFeed r tags feedUrl g) as [g' stop]. cbn [fst] in *.
  destruct stop; [split; [exact H1 | simpl; lia]|].
  destruct (IH g' H1) as [H3 H4]. split; [exact H3 | simpl; lia].
Qed.

Lemma gatherCategories_accounted r m categories g :
  Accounted r m g ->
  Accounted r m (gatherCategories r categories g)
  /\ (totalFeeds (gatherCategories r categories g)
      <= length (concat (map feeds categories)) + totalFeeds g)%nat.
Proof.
  revert g. induction categories as [|c rest IH]; intros g H;
    [split; [exact H | simpl; lia]|].
  cbn [gatherCategories map concat]. rewrite length_app.
  destruct (gatherFeeds_accounted r m (categoryTags c) (feeds c) g H) as [H1 H2].
  destruct (limitReached r (gatherFeeds r (categoryTags c) (feeds c) g));
    [split; [exact H1 | lia]|].
  destruct (IH _ H1) as [H3 H4]. split; [exact H3 | lia].
Qed.

(** X15. Whatever the feeds answer, the first loop of the ingestion
    accounts for what it does: the count of new items is the number of
    items gathered; every feed counted is at most once a success or a
    failure, and at most the twelve configured feeds are counted; there
    is one error entry for each failed feed; no gathered item has an id
    that is stored; and a feed is marked as fetched only by a run that
    parsed it, so that a feed that fails keeps the mark it had. *)
Theorem gather_accounts_for_every_feed r m :
  Accounted r m (gather r m)
  /\ (totalFeeds (gather r m) <= 12)%nat
  /\ forall feedUrl e,
       parseURL r feedUrl = Throw e ->
       forall t, feedLastFetched (gather r m) !! feedUrl = Some t ->
                 m !! feedUrl = Some t.
Proof.
  destruct (gatherCategories_accounted r m FEED_SOURCES (startOfRun m)
              (Accounted_start r m)) as [H1 H2].
  split; [exact H1|]. split; [exact H2|].
  intros feedUrl e He t Ht. destruct (acc_marks _ _ _ H1 feedUrl t Ht) as [H|(n & l & _ & H)];
    [exact H | congruence].
Qed.

Lemma gatherFeed_bounded r k tags feedUrl g :
  (forall url feedItems, parseURL r url = Ok feedItems -> (length feedItems <= k)%nat) ->
  (length (allNewItems g) < maxItems r)%nat ->
  (length (allNewItems (fst (gatherFeed r tags feedUrl g))) < maxItems r + k)%nat
  /\ (snd (gatherFeed r tags feedUrl g) = false ->
      (length (allNewItems (fst (gatherFeed r tags feedUrl g))) < maxItems r)%nat).
Proof.
  intros Hk Hg. unfold gatherFeed. cbn [feedLastFetched totalFeeds].
  destruct (bool_decide (mode r = "incremental")
            && isFeedOnCooldown (clock r (totalFeeds g)) feedUrl (feedLastFetched g)).
  - cbn [fst snd allNewItems]. split; [lia | auto].
  - cbn [fst snd]. unfold parseFeed.
    destruct (parseURL r feedUrl) as [feedItems|e] eqn:Ep;
      cbn [pfSuccess newItems allNewItems]; unfold limitReached; cbn [allNewItems].
    + specialize (Hk _ _ Ep). rewrite length_app.
      match goal with |- context [omap ?f feedItems] =>
        pose proof (omap_length_le f feedItems) as Hlen end.
      split; [lia|]. intros Hstop. apply Nat.leb_gt in Hstop. lia.
    + split; [lia|]. intros Hstop. apply Nat.leb_gt in Hstop. exact Hstop.
Qed.

Lemma gatherFeeds_bounded r k tags feeds g :
  (forall url feedItems, parseURL r url = Ok feedItems -> (length feedItems <= k)%nat) ->
  (length (allNewItems g) < maxItems r)%nat ->
  (length (allNewItems (gatherFeeds r tags feeds g)) < maxItems r + k)%nat.
Proof.
  intros Hk. revert g. induction feeds as [|feedUrl rest IH]; intros g Hg;
    [simpl; lia|].
  cbn [gatherFeeds]. destruct (gatherFeed_bounded r k tags feedUrl g Hk Hg) as [H1 H2].
  destruct (gatherFeed r tags feedUrl g) as [g' stop]. cbn [fst snd] in *.
  destruct stop; [exact H1|]. apply IH, H2. reflexivity.
Qed.

Lemma gatherCategories_bounded r k categories g :
  (forall url feedItems, parseURL r url = Ok feedItems -> (length feedItems <= k)%nat) ->
  (length (allNewItems g) < maxItems r)%nat ->
  (length (allNewItems (gatherCategories r categories g)) < maxItems r + k)%nat.
Proof.
  intros Hk. revert g. induction categories as [|c rest IH]; intros g Hg;
    [simpl; lia|].
  cbn [gatherCategories].
  pose proof (gatherFeeds_bounded r k (categoryTags c) (feeds c) g Hk Hg) as H1.
  destruct (limitReached r (gatherFeeds r (categoryTags c) (feeds c) g)) eqn:El;
    [exact H1|].
  apply IH. unfold limitReached in El. apply Nat.leb_gt in El. exact El.
Qed.

(** X16. The limit on the items of a run is checked after each feed, not
    within one: a run gathers fewer items than the limit and the longest
    feed together; and the loop goes on after a feed only if the run
    holds fewer items than the limit, or has passed the feed over. *)
Theorem gather_overshoots_by_one_feed_at_most r m k :
  (0 < maxItems r)%nat ->
  (forall url feedItems, parseURL r url = Ok feedItems -> (length feedItems <= k)%nat) ->
  (length (allNewItems (gather r m)) < maxItems r + k)%nat
  /\ forall tags feedUrl g,
       snd (gatherFeed r tags feedUrl g) = false ->
       (length (allNewItems (fst (gatherFeed r tags feedUrl g))) < maxItems r)%nat
       \/ fst (gatherFeed r tags feedUrl g) = counted 1 g.
Proof.
  intros Hmax Hk. split.
  - apply gatherCategories_bounded; [exact Hk | simpl; lia].
  - intros tags feedUrl g. unfold gatherFeed. cbn [feedLastFetched totalFeeds].
    destruct (bool_decide (mode r = "incremental")
              && isFeedOnCooldown (clock r (totalFeeds g)) feedUrl (feedLastFetched g)).
    + right. reflexivity.
    + cbn [fst snd]. unfold limitReached. intros H. left.
      apply Nat.leb_gt in H. exact H.
Qed.

Lemma gather_overshoots_by_one_feed_at_most_witness :
  (length (allNewItems (gather (sampleRun 3 "full") ∅)) < 3 + 2)%nat
  /\ length (allNewItems (gather (sampleRun 3 "full") ∅)) = 4%nat.
Proof.
  split; [|vm_compute; reflexivity].
  apply (gather_overshoots_by_one_feed_at_most (sampleRun 3 "full") ∅ 2).
  - simpl. lia.
  - intros url feedItems [= <-]. simpl. lia.
Defined.

Lemma gatherFeeds_cooling r tags feeds g N :
  mode r = "incremental" -> (totalFeeds g + length feeds <= N)%nat ->
  (forall n feedUrl, (n < N)%nat -> feedUrl ∈ feeds ->
     isFeedOnCooldown (clock r n) feedUrl (feedLastFetched g) = true) ->
  gatherFeeds r tags feeds g = counted (length feeds) g.
Proof.
  intros Hm. revert g. induction feeds as [|feedUrl rest IH]; intros g HN Hc.
  - destruct g; reflexivity.
  - cbn [gatherFeeds]. unfold gatherFeed. cbn [feedLastFetched totalFeeds].
    rewrite bool_decide_eq_true_2 by exact Hm. cbn [length] in HN.
    rewrite Hc by (first [lia | left]). cbn [andb].
    rewrite IH.
    + unfold counted. simpl. f_equal. lia.
    + cbn [totalFeeds]. lia.
    + intros n url Hn Hin. cbn [feedLastFetched]. apply Hc; [exact Hn|].
      right. exact Hin.
Qed.

Lemma gatherCategories_cooling r categories g N :
  mode r = "incremental" -> (length (allNewItems g) < maxItems r)%nat ->
  (totalFeeds g + length (concat (map feeds categories)) <= N)%nat ->
  (forall n feedUrl, (n < N)%nat -> feedUrl ∈ concat (map feeds categories) ->
     isFeedOnCooldown (clock r n) feedUrl (feedLastFetched g) = true) ->
  gatherCategories r categories g
  = counted (length (concat (map feeds categories))) g.
Proof.
  intros Hm. revert g. induction categories as [|c rest IH]; intros g Hg HN Hc.
  - destruct g; reflexivity.
  - cbn [gatherCategories map concat] in *. rewrite length_app in HN.
    rewrite (gatherFeeds_cooling r (categoryTags c) (feeds c) g N).
    + unfold limitReached. cbn [counted allNewItems].
      destruct (Nat.leb_spec (maxItems r) (length (allNewItems g))); [lia|].
      rewrite IH.
      * rewrite length_app. unfold counted. simpl. f_equal. lia.
      * exact Hg.
      * cbn [counted totalFeeds]. lia.
      * intros n url Hn Hin. cbn [counted feedLastFetched]. apply Hc; [exact Hn|].
        apply elem_of_app. right. exact Hin.
    + exact Hm.
    + lia.
    + intros n url Hn Hin. apply Hc; [exact Hn|]. apply elem_of_app. left. exact Hin.
Qed.

(** X17. An incremental run that finds every configured feed fetched
    within the last hour parses none of them: it counts the twelve feeds
    and gathers nothing, reports neither success nor failure, and leaves
    the marks as they are, whatever the feeds would have answered. *)
Theorem gather_skips_feeds_on_cooldown r m :
  mode r = "incremental" -> (0 < maxItems r)%nat ->
  (forall n feedUrl, (n < 12)%nat -> feedUrl ∈ configuredFeeds ->
     isFeedOnCooldown (clock r n) feedUrl m = true) ->
  gather r m = mkGathered m [] 12 0 0 0 [].
Proof.
  intros Hm Hmax Hc. unfold gather.
  rewrite (gatherCategories_cooling r FEED_SOURCES (startOfRun m) 12).
  - reflexivity.
  - exact Hm.
  - simpl. exact Hmax.
  - simpl. lia.
  - exact Hc.
Qed.

Lemma gather_skips_feeds_on_cooldown_witness :
  gather (sampleRun 500 "incremental") (allFetchedAt 7000000)
  = mkGathered (allFetchedAt 7000000) [] 12 0 0 0 [].
Proof.
  apply gather_skips_feeds_on_cooldown.
  - reflexivity.
  - simpl. lia.
  - intros n feedUrl Hn Hin. apply isFeedOnCooldown_spec. exists 7000000.
    split; [|split; [discriminate | simpl; unfold FEED_COOLDOWN_MS; lia]].
    unfold configuredFeeds in Hin. simpl in Hin.
    repeat (apply elem_of_cons in Hin as [->|Hin]; [vm_compute; reflexivity|]).
    inversion Hin.
Defined.

End FeedCooldown.

Section ApiFetchers.
Import JsString Collector.

Lemma request_notOk {A} statusCode (body : Result A) :
  notOk statusCode ->
  request (Response statusCode body) = Throw (Error ("HTTP " +:+ pretty statusCode)).
Proof.
  intros H. unfold request.
  destruct (Z.leb_spec 200 statusCode), (Z.ltb_spec statusCode 300);
    try reflexivity. unfold notOk in H. lia.
Qed.

Lemma retry_notOk {A} (answers : nat -> HttpAnswer A) maxRetries statusCode body :
  answers O = Response statusCode body -> notOk statusCode ->
  (0 < maxRetries)%nat ->
  retryWithBackoff (fun n => request (answers n)) maxRetries
  = mkRetried (Throw (Error ("HTTP " +:+ pretty statusCode))) [] 1.
Proof.
  intros Ha Hs Hm. unfold retryWithBackoff.
  destruct maxRetries as [|k]; [lia|]. cbn [retryFrom].
  rewrite Ha, (request_notOk _ _ Hs). reflexivity.
Qed.

(** X18. The API fetchers do not retry a response that is not a 2xx one,
    a 429 or a 5xx included: the error they make of it carries no status,
    so that [retryWithBackoff] calls once, does not sleep and throws it.
    arXiv and the Guardian then report the failure with the message
    "HTTP" and the status. *)
Theorem http_errors_are_not_retried w now statusCode :
  notOk statusCode ->
  (forall A (answers : nat -> HttpAnswer A) maxRetries body,
     answers O = Response statusCode body -> (0 < maxRetries)%nat ->
     retryWithBackoff (fun n => request (answers n)) maxRetries
     = mkRetried (Throw (Error ("HTTP " +:+ pretty statusCode))) [] 1)
  /\ (forall body, arxivApi w O = Response statusCode body ->
        fetchArXiv w now
        = mkFetchResult false "arXiv" (Some ("HTTP " +:+ pretty statusCode)) [])
  /\ (forall body, GUARDIAN_API_KEY w <> "" ->
        guardianApi w O = Response statusCode body ->
        fetchGuardianAPI w now
        = mkFetchResult false "Guardian" (Some ("HTTP " +:+ pretty statusCode)) [])
  /\ (forall topic body, newsApi w topic O = Response statusCode body ->
        newsApiTopic w now topic = []).
Proof.
  intros Hs. repeat apply conj.
  - intros A answers maxRetries body Ha Hm. apply (retry_notOk answers _ _ body); assumption.
  - intros body Ha. unfold fetchArXiv.
    rewrite (retry_notOk (arxivApi w) 3 statusCode body Ha Hs) by lia. reflexivity.
  - intros body Hk Ha. unfold fetchGuardianAPI.
    destruct (decide (GUARDIAN_API_KEY w = "")); [contradiction|].
    rewrite (retry_notOk (guardianApi w) 3 statusCode body Ha Hs) by lia. reflexivity.
  - intros topic body Ha. unfold newsApiTopic.
    rewrite (retry_notOk (newsApi w topic) 3 statusCode body Ha Hs) by lia. reflexivity.
Qed.

Lemma http_errors_are_not_retried_witness :
  fetchArXiv unavailable 1000 = mkFetchResult false "arXiv" (Some "HTTP 503") []
  /\ fetchGuardianAPI unavailable 1000
     = mkFetchResult false "Guardian" (Some "HTTP 503") [].
Proof.
  destruct (http_errors_are_not_retried unavailable 1000 503) as (_ & H1 & H2 & _).
  - right. lia.
  - split.
    + apply (H1 (Ok [])). reflexivity.
    + apply (H2 (Ok None)); [discriminate | reflexivity].
Defined.

(** X19. NewsAPI reports the cause of a failure only when its key is
    missing. With a key the fetcher succeeds exactly when a topic gave an
    item; when none did, whatever went wrong with the requests, the
    result carries no error, and the run lists it as "Unknown error". *)
Theorem fetchNewsAPI_hides_the_cause w now :
  (NEWSAPI_KEY w = "" ->
   fetchNewsAPI w now
   = mkFetchResult false "NewsAPI" (Some "API key not configured") [])
  /\ (NEWSAPI_KEY w <> "" ->
      items (fetchNewsAPI w now)
      = newsApiTopic w now "science" ++ newsApiTopic w now "technology"
      /\ (success (fetchNewsAPI w now) = true <-> items (fetchNewsAPI w now) <> [])
      /\ (success (fetchNewsAPI w now) = false ->
          fetchNewsAPI w now = mkFetchResult false "NewsAPI" None []
          /\ aggErrors (aggregate [fetchNewsAPI w now])
             = [mkSourceError "NewsAPI" "Unknown error"])).
Proof.
  unfold fetchNewsAPI. split.
  - intros Hk. destruct (decide (NEWSAPI_KEY w = "")); [reflexivity | contradiction].
  - intros Hk. destruct (decide (NEWSAPI_KEY w = "")); [contradiction|].
    cbn [items success].
    destruct (newsApiTopic w now "science" ++ newsApiTopic w now "technology")
      as [|item rest].
    + split; [reflexivity|]. split; [split; [discriminate | congruence]|].
      intros _. split; reflexivity.
    + split; [reflexivity|]. split; [split; [discriminate | reflexivity]|].
      discriminate.
Qed.

Lemma fetchNewsAPI_hides_the_cause_witness :
  fetchNewsAPI unavailable 1000 = mkFetchResult false "NewsAPI" None []
  /\ aggErrors (aggregate [fetchNewsAPI unavailable 1000])
     = [mkSourceError "NewsAPI" "Unknown error"].
Proof.
  destruct (fetchNewsAPI_hides_the_cause unavailable 1000) as [_ H].
  destruct H as (_ & _ & H); [discriminate|].
  apply H. vm_compute. reflexivity.
Defined.

End ApiFetchers.

Section FetchedItems.
Import JsString Collector.

Lemma length_stripped_title s :
  (String.length (substring0 200 s) <= 200)%nat.
Proof. rewrite length_substring0. lia. Qed.

Lemma normalizeContent_wellFormed now raw src tags license contentType link r :
  orDefault (orElse (RawItem.link raw) (RawItem.url raw)) "" = link ->
  source r = src ->
  wellFormedItem r
    (mkItem (generateDocId link) (normalizeContent now raw src tags license contentType)).
Proof.
  intros Hl Hs. unfold wellFormedItem, normalizeContent.
  cbn [docId data Content.url Content.source Content.important Content.title].
  rewrite Hl, Hs. repeat split. apply length_stripped_title.
Qed.

Lemma truthy_orDefault o o' d l :
  truthy o = Some l -> orDefault (orElse o o') d = l.
Proof.
  intros H. unfold orDefault, orElse. rewrite H.
  destruct l; [destruct o as [[|]|]; discriminate | reflexivity].
Qed.

Lemma fetchRSS_wellFormed w now url tags license contentType :
  Forall (wellFormedItem (fetchRSS w now url tags license contentType))
    (items (fetchRSS w now url tags license contentType)).
Proof.
  unfold fetchRSS. destruct (parseURL w url) as [feedItems|e]; [|constructor].
  cbn [items]. apply Forall_forall. intros item Hin.
  apply list_elem_of_omap in Hin as (raw & _ & H).
  destruct (truthy (RawItem.link raw)) as [link|] eqn:El; [|discriminate].
  injection H as <-. apply normalizeContent_wellFormed; [|reflexivity].
  apply truthy_orDefault, El.
Qed.

Lemma newsApiTopic_wellFormed w now topic r :
  source r = "NewsAPI" -> Forall (wellFormedItem r) (newsApiTopic w now topic).
Proof.
  intros Hr. unfold newsApiTopic.
  destruct (outcome (retryWithBackoff _ 3)) as [[articles|]|]; try constructor.
  apply Forall_forall. intros item Hin.
  apply list_elem_of_omap in Hin as (article & _ & H).
  destruct (truthy (na_url article)) as [link|] eqn:El; [|discriminate].
  injection H as <-. apply normalizeContent_wellFormed; [|exact Hr].
  cbn [RawItem.link RawItem.url]. apply truthy_orDefault, El.
Qed.

Lemma fetchNewsAPI_wellFormed w now :
  Forall (wellFormedItem (fetchNewsAPI w now)) (items (fetchNewsAPI w now)).
Proof.
  assert (Hs : source (fetchNewsAPI w now) = "NewsAPI").
  { unfold fetchNewsAPI. destruct (decide (NEWSAPI_KEY w = "")); reflexivity. }
  generalize Hs. generalize (fetchNewsAPI w now) at 1 2. intros r Hr.
  unfold fetchNewsAPI. destruct (decide (NEWSAPI_KEY w = "")); [constructor|].
  cbn [items]. apply Forall_app. split; apply newsApiTopic_wellFormed, Hr.
Qed.

Lemma fetchGuardianAPI_wellFormed w now :
  Forall (wellFormedItem (fetchGuardianAPI w now)) (items (fetchGuardianAPI w now)).
Proof.
  unfold fetchGuardianAPI. destruct (decide (GUARDIAN_API_KEY w = "")); [constructor|].
  destruct (outcome (retryWithBackoff _ 3)) as [results|]; [|constructor].
  cbn [items]. apply Forall_forall. intros item Hin.
  apply list_elem_of_omap in Hin as (article & _ & H).
  destruct (truthy (webUrl article)) as [link|] eqn:El; [|discriminate].
  injection H as <-. apply normalizeContent_wellFormed; [|reflexivity].
  cbn [RawItem.link RawItem.url]. apply truthy_orDefault, El.
Qed.

Lemma fetchArXiv_wellFormed w now :
  Forall (wellFormedItem (fetchArXiv w now)) (items (fetchArXiv w now)).
Proof.
  unfold fetchArXiv.
  destruct (outcome (retryWithBackoff _ 3)) as [entries|]; [|constructor].
  cbn [items]. apply Forall_forall. intros item Hin.
  apply list_elem_of_omap in Hin as (entry & _ & H).
  destruct (titleMatch entry) as [title|]; [|discriminate].
  destruct (linkMatch entry) as [link|]; [|discriminate].
  injection H as <-. apply normalizeContent_wellFormed; [|reflexivity].
  cbn [RawItem.link RawItem.url]. destruct link; reflexivity.
Qed.

Lemma fetchedResults_wellFormed w now :
  Forall (fun r => Forall (wellFormedItem r) (items r)) (fetchedResults w now).
Proof.
  assert (Hfeeds : forall sources,
            Forall (fun r => Forall (wellFormedItem r) (items r))
              (fetchFeeds w now sources)).
  { intros sources. unfold fetchFeeds. apply Forall_map, Forall_forall.
    intros s _. apply fetchRSS_wellFormed. }
  unfold fetchedResults. apply Forall_concat, Forall_fmap, Forall_forall.
  intros group Hgroup. unfold fetchers in Hgroup.
  repeat (apply elem_of_cons in Hgroup as [->|Hgroup]);
    [..|inversion Hgroup]; cbn [snd catchEmpty compose];
    try apply Hfeeds.
  - unfold fetchScienceContent. apply Forall_app. split.
    + apply Hfeeds.
    + repeat constructor. apply fetchArXiv_wellFormed.
  - repeat constructor. apply fetchNewsAPI_wellFormed.
  - repeat constructor. apply fetchGuardianAPI_wellFormed.
Qed.

Lemma attempted_fetched w now options r :
  r ∈ attemptedResults w now options -> r ∈ fetchedResults w now.
Proof.
  unfold attemptedResults, fetchedResults. intros H.
  apply list_elem_of_In, in_concat in H as (l & Hl & Hr).
  apply list_elem_of_In, in_concat. exists l. split; [|exact Hr].
  apply in_map_iff in Hl as (f & <- & Hf). apply in_map_iff. exists f.
  split; [reflexivity|]. unfold activeFetchers in Hf.
  destruct (sources options); [|exact Hf].
  apply list_elem_of_In in Hf. apply list_elem_of_In.
  apply list_elem_of_filter in Hf. tauto.
Qed.

(** X20. Whatever the sources answer, every item that a run of the
    collector finds has the id made of the very url that its record
    stores, names the source that reported it, is not marked as
    important, and has a title of at most 200 characters. *)
Theorem fetched_items_are_well_formed w now options :
  forall r item,
    r ∈ attemptedResults w now options -> item ∈ items r ->
    wellFormedItem r item.
Proof.
  intros r item Hr Hitem. apply attempted_fetched in Hr.
  pose proof (fetchedResults_wellFormed w now) as H.
  rewrite Forall_forall in H. specialize (H r Hr).
  rewrite Forall_forall in H. apply H, Hitem.
Qed.

Lemma fetched_items_are_well_formed_witness :
  wellFormedItem (fetchRSS (oneFeed 1) 1000 "http://feeds.bbci.co.uk/news/rss.xml"
                    ["news"; "world"] "rss" "article")
    (mkItem (generateDocId "https://example.com/post/0")
       (normalizeContent 1000 (post 0) "http://feeds.bbci.co.uk/news/rss.xml"
          ["news"; "world"] "rss" "article")).
Proof.
  apply (fetched_items_are_well_formed (oneFeed 1) 1000 (mkOptions true (Some ["news"]))).
  - vm_compute. left.
  - vm_compute. left.
Defined.

End FetchedItems.

Section RunMetrics.
Import JsString Collector.

Lemma writeAll_size now new (m : gmap string Stored) :
  Forall (fun item => m !! docId item = None) new ->
  NoDup (map docId new) ->
  size (writeAll now new m) = (size m + length new)%nat.
Proof.
  unfold writeAll. revert m. induction new as [|item new IH]; intros m Hnew Hdup.
  - simpl. lia.
  - inversion Hnew as [|? ? Hitem Hrest]; subst.
    cbn [map] in Hdup. apply NoDup_cons in Hdup as [Hnotin Hdup].
    cbn [foldl]. rewrite IH.
    + rewrite map_size_insert_None by exact Hitem. simpl. lia.
    + apply Forall_forall. intros other Hother.
      rewrite lookup_insert_ne.
      * rewrite Forall_forall in Hrest. apply Hrest, Hother.
      * intros E. apply Hnotin. rewrite E. apply list_elem_of_fmap. eauto.
    + exact Hdup.
Qed.

Lemma persist_size cap now faults found (m : gmap string Stored) :
  size (stored (persist cap now faults found m))
  = (size m + added (persist cap now faults found m))%nat
  /\ length (itemsToSync (persist cap now faults found m))
     = added (persist cap now faults found m).
Proof.
  unfold persist.
  destruct (persistFrom_shape cap now found faults (mkPersist m O O []))
    as (new & _ & Hsync & Hstored & Hadded & _ & Hnone & Hdup).
  rewrite Hstored, Hadded, Hsync. cbn [stored added itemsToSync] in *.
  split; [|reflexivity]. apply writeAll_size; assumption.
Qed.

(** X21. The metrics of a live run add up, whatever the sources, the
    storage and the ranker do: the run returns the metrics that it stores
    under both metric documents; the total it reports is the number of
    documents before the run plus the number it added; it reports as
    synced either all the items it added or, when the ranker rejects
    them, none. The ranker has no part in what is stored, and is not
    asked at all by a run that adds nothing. *)
Theorem collectAllContent_metrics_add_up
    (w : World) (gorseRequest : list GorseItem -> Result unit)
    (faults : nat -> Fault) (cap : nat) (now : Z) (db : Db) (options : Options) :
  dry options = false ->
  let run := collectAllContent w gorseRequest faults cap now db options in
  exists metrics,
    snd run = Complete metrics
    /\ collection_metrics_latest (fst run) = Some metrics
    /\ last_collection_run_state (fst run) = Some metrics
    /\ totalItemsInFirestore metrics
       = (size (content db) + newItemsAdded metrics)%nat
    /\ (feedsSucceeded metrics <= feedsAttempted metrics)%nat
    /\ (syncedToGorse metrics = newItemsAdded metrics \/ syncedToGorse metrics = O)
    /\ ((forall gorseItems, exists e, gorseRequest gorseItems = Throw e) ->
        syncedToGorse metrics = O)
    /\ ((forall gorseItems, exists u, gorseRequest gorseItems = Ok u) ->
        syncedToGorse metrics = newItemsAdded metrics)
    /\ (forall gorseRequest',
          content (fst (collectAllContent w gorseRequest' faults cap now db options))
          = content (fst run))
    /\ (newItemsAdded metrics = O ->
        forall gorseRequest',
          collectAllContent w gorseRequest' faults cap now db options = run).
Proof.
  intros Hdry. cbv zeta. unfold collectAllContent, collectFrom. rewrite Hdry.
  set (found := allItems (aggregate _)).
  destruct (persist_size cap now faults found (content db)) as [Hsize Hlen].
  set (p := persist cap now faults found (content db)) in *.
  eexists. split; [reflexivity|].
  cbn [fst snd collection_metrics_latest last_collection_run_state content
       totalItemsInFirestore newItemsAdded feedsSucceeded feedsAttempted
       syncedToGorse].
  repeat apply conj; try reflexivity.
  - exact Hsize.
  - rewrite aggregate_spec. cbn [aggSucceeded aggAttempted].
    apply List.filter_length_le.
  - destruct (itemsToSync p) eqn:E; [right; reflexivity|].
    destruct (gorseRequest _); [left; rewrite length_map; exact Hlen | right; reflexivity].
  - intros Hfail. destruct (itemsToSync p) eqn:E; [reflexivity|].
    destruct (Hfail (map toGorseItem (i :: l))) as [e ->]. reflexivity.
  - intros Hok. destruct (itemsToSync p) eqn:E.
    + rewrite <- Hlen. reflexivity.
    + destruct (Hok (map toGorseItem (i :: l))) as [u ->].
      rewrite length_map. exact Hlen.
  - intros Hzero gorseRequest'. rewrite <- Hlen in Hzero.
    destruct (itemsToSync p); [reflexivity | discriminate].
Qed.

Lemma collectAllContent_metrics_add_up_witness :
  exists metrics,
    snd (collectAllContent (oneFeed 2) gorseUp noFault 2000 1000 emptyDb live)
    = Complete metrics
    /\ totalItemsInFirestore metrics = 2%nat /\ syncedToGorse metrics = 2%nat.
Proof.
  destruct (collectAllContent_metrics_add_up (oneFeed 2) gorseUp noFault 2000 1000
              emptyDb live eq_refl)
    as (metrics & H & _).
  exists metrics. split; [exact H|].
  revert H. vm_compute. intros [= <-]. split; reflexivity.
Defined.

Lemma filter_names_ext {A} (names names' : list string) (l : list (string * A)) :
  (forall name, name ∈ names <-> name ∈ names') ->
  filter (fun f => fst f ∈ names) l = filter (fun f => fst f ∈ names') l.
Proof.
  intros H. apply list_filter_iff. intros f. apply H.
Qed.

Lemma filter_names_none {A} (names : list string) (l : list (string * A)) :
  (forall name, name ∈ names -> name ∉ map fst l) ->
  filter (fun f => fst f ∈ names) l = [].
Proof.
  intros H. induction l as [|f l IH]; [reflexivity|].
  rewrite filter_cons. destruct (decide (fst f ∈ names)) as [Hin|_].
  - exfalso. apply (H _ Hin). left.
  - apply IH. intros name Hn Hl. apply (H name Hn). right. exact Hl.
Qed.

Lemma filter_names_fst {A} (names : list string) (l : list (string * A)) :
  map fst (filter (fun f => fst f ∈ names) l)
  = List.filter (fun name => bool_decide (name ∈ names)) (map fst l).
Proof.
  induction l as [|f l IH]; [reflexivity|].
  rewrite filter_cons. cbn [map List.filter].
  destruct (decide (fst f ∈ names)) as [Hin|Hout].
  - rewrite bool_decide_eq_true_2 by exact Hin. cbn [map]. rewrite IH. reflexivity.
  - rewrite bool_decide_eq_false_2 by exact Hout. exact IH.
Qed.

(** X22. The list of sources of a run is taken as a set of group names:
    two lists with the same names start the same fetchers, in the order
    of the code, whatever the order and the repetitions of the lists. A
    name that is no group name is passed over without an error; a run
    whose list names no group starts no fetcher, finds nothing and
    writes only its metrics. *)
Theorem sources_option_selects_groups
    (w : World) (gorseRequest : list GorseItem -> Result unit)
    (faults : nat -> Fault) (cap : nat) (now : Z) (db : Db) (dry : bool) :
  (forall names names',
     (forall name, name ∈ names <-> name ∈ names') ->
     collectAllContent w gorseRequest faults cap now db (mkOptions dry (Some names))
     = collectAllContent w gorseRequest faults cap now db (mkOptions dry (Some names')))
  /\ (forall names,
        (forall name, name ∈ names -> name ∉ groupNames) ->
        collectAllContent w gorseRequest faults cap now db (mkOptions dry (Some names))
        = if dry then (db, DryRun O O O [])
          else (mkDb (content db) (Some (idleMetrics db)) (Some (idleMetrics db)),
                Complete (idleMetrics db)))
  /\ (forall names,
        map fst (activeFetchers (Some names) (fetchers w now))
        = List.filter (fun name => bool_decide (name ∈ names)) groupNames).
Proof.
  repeat apply conj.
  - intros names names' H. unfold collectAllContent, collectFrom, activeFetchers.
    cbn [sources]. rewrite (filter_names_ext names names' _ H). reflexivity.
  - intros names H. unfold collectAllContent, collectFrom, activeFetchers.
    cbn [sources Collector.dry]. rewrite filter_names_none by exact H.
    destruct dry; reflexivity.
  - intros names. unfold activeFetchers. apply filter_names_fst.
Qed.

Lemma sources_option_selects_groups_witness :
  collectAllContent (oneFeed 2) gorseUp noFault 2000 1000 emptyDb
    (mkOptions false (Some ["poems"; "News"]))
  = (mkDb ∅ (Some (idleMetrics emptyDb)) (Some (idleMetrics emptyDb)),
     Complete (idleMetrics emptyDb)).
Proof.
  destruct (sources_option_selects_groups (oneFeed 2) gorseUp noFault 2000 1000
              emptyDb false) as (_ & H & _).
  apply (H ["poems"; "News"]). intros name Hn.
  repeat (apply elem_of_cons in Hn as [->|Hn]; [vm_compute; intros Hin;
    repeat (apply elem_of_cons in Hin as [Hin|Hin]; [discriminate|]); inversion Hin|]).
  inversion Hn.
Defined.

End RunMetrics.

Section ReadingTime.
Import JsString FeedScreen.

Lemma countWordsFrom_bound inWord text :
  (2 * countWordsFrom inWord text
   <= String.length text + (if inWord then 0 else 1))%nat.
Proof.
  revert inWord. induction text as [|c text IH]; intros inWord.
  - simpl. destruct inWord; lia.
  - cbn [countWordsFrom String.length]. destruct (Collector.isSpace c).
    + specialize (IH false). simpl in IH. destruct inWord; lia.
    + specialize (IH true). simpl in IH. destruct inWord; lia.
Qed.

Lemma getReadingTime_short text :
  (String.length text < 400)%nat ->
  getReadingTime text = 1%nat \/ getReadingTime text = 3%nat.
Proof.
  intros H. unfold getReadingTime, countWords.
  pose proof (countWordsFrom_bound false text) as Hb. cbv zeta.
  change (200 - 1)%nat with 199%nat. cbv iota in Hb.
  destruct (Nat.ltb_spec (countWordsFrom false text) 50); [right; reflexivity|].
  left. assert (Hd : ((countWordsFrom false text + 199) / 200 = 1)%nat).
  { symmetry. apply Nat.div_unique with (r := (countWordsFrom false text - 1)%nat); lia. }
  rewrite Hd. reflexivity.
Qed.

(** X24. The reading time shown on a card is at least a minute. A text
    of fewer than 50 words reads in 3 minutes, a longer one in its words
    over 200, rounded up, which is never below 1. So a text of fewer
    than 99 characters shows 3 minutes, and every text of fewer than 400
    characters shows 1 or 3: such are the excerpt and the title of every
    record of the collector, cut at 200 characters, and the excerpt of
    every record of the older feed parser, cut at 300. *)
Theorem getReadingTime_of_excerpts :
  (forall text,
     (1 <= getReadingTime text)%nat
     /\ ((countWords text < 50)%nat -> getReadingTime text = 3%nat)
     /\ ((50 <= countWords text)%nat ->
         getReadingTime text = ((countWords text + 199) / 200)%nat)
     /\ ((String.length text < 99)%nat -> getReadingTime text = 3%nat)
     /\ ((String.length text < 400)%nat ->
         getReadingTime text = 1%nat \/ getReadingTime text = 3%nat))
  /\ (forall now item source tags license contentType,
        let c := Collector.normalizeContent now item source tags license contentType in
        (getReadingTime (Collector.Content.excerpt c) = 1%nat
         \/ getReadingTime (Collector.Content.excerpt c) = 3%nat)
        /\ (getReadingTime (Collector.Content.title c) = 1%nat
            \/ getReadingTime (Collector.Content.title c) = 3%nat))
  /\ (forall now feedUrl tags link item,
        let d := Ingestion.contentData now feedUrl tags link item in
        getReadingTime (Ingestion.excerpt d) = 1%nat
        \/ getReadingTime (Ingestion.excerpt d) = 3%nat).
Proof.
  repeat apply conj.
  - intros text. pose proof (countWordsFrom_bound false text) as Hb.
    unfold getReadingTime, countWords in *. cbv zeta.
    change (200 - 1)%nat with 199%nat. cbv iota in Hb.
    destruct (Nat.ltb_spec (countWordsFrom false text) 50) as [Hlt|Hge].
    + repeat apply conj; try lia; auto.
    + assert (Hpos : (1 <= (countWordsFrom false text + 199) / 200)%nat).
      { apply Nat.div_le_lower_bound; lia. }
      repeat apply conj; try lia.
      intros H. assert (Hd : ((countWordsFrom false text + 199) / 200 = 1)%nat).
      { symmetry. apply Nat.div_unique with (r := (countWordsFrom false text - 1)%nat); lia. }
      rewrite Hd. auto.
  - intros now item source tags license contentType. cbv zeta.
    unfold Collector.normalizeContent.
    cbn [Collector.Content.excerpt Collector.Content.title].
    split; apply getReadingTime_short; rewrite length_substring0; lia.
  - intros now feedUrl tags link item. cbv zeta. unfold Ingestion.contentData.
    cbn [Ingestion.excerpt]. apply getReadingTime_short.
    rewrite length_substring0. lia.
Qed.

Lemma getReadingTime_of_excerpts_witness :
  getReadingTime fiftyWords = 1%nat /\ getReadingTime "Just a title" = 3%nat.
Proof.
  destruct getReadingTime_of_excerpts as [H _]. split.
  - destruct (H fiftyWords) as (_ & _ & H50 & _). rewrite H50; vm_compute; [reflexivity | lia].
  - destruct (H "Just a title") as (_ & _ & _ & H99 & _). apply H99. simpl. lia.
Defined.

End ReadingTime.

Section BookmarkStore.
Import JsString Collector Bookmarks.

Lemma bookmarkId_eq userId contentId userId' contentId' :
  hasChar "_" contentId = false -> hasChar "_" contentId' = false ->
  bookmarkId userId contentId = bookmarkId userId' contentId' ->
  userId = userId' /\ contentId = contentId'.
Proof. intros H H'. apply (split_at_last "_"); assumption. Qed.

(** X25. With an excerpt and a store that answers, a bookmark saved is
    stored under the id of its user and content and is found; a bookmark
    removed is not found. Without an excerpt, or when the store throws,
    to save throws 'Failed to save bookmark' and stores nothing; when
    the store throws, to remove throws 'Failed to remove bookmark' and
    removes nothing, and the check answers false whatever is stored.
    For content ids without an underscore the document id of a bookmark
    tells users and contents apart, so that to save or to remove one
    bookmark, whatever the outcome, changes what is stored for no
    other; the ids that the collector gives are such ids. *)
Theorem bookmarks_round_trip now userId contentId title url tags bookmarks :
  (forall text,
     let saved :=
       saveBookmark (Ok tt) now userId contentId title url (Some text) tags bookmarks in
     snd saved = Ok tt
     /\ fst saved !! bookmarkId userId contentId
        = Some (mkBookmark userId contentId title url (Some text) tags now)
     /\ isBookmarked (Ok tt) userId contentId (fst saved) = true
     /\ isBookmarked (Ok tt) userId contentId
          (fst (removeBookmark (Ok tt) userId contentId (fst saved))) = false)
  /\ (forall setDoc,
        saveBookmark setDoc now userId contentId title url None tags bookmarks
        = (bookmarks, Throw (Error "Failed to save bookmark")))
  /\ (forall error excerpt,
        saveBookmark (Throw error) now userId contentId title url excerpt tags bookmarks
        = (bookmarks, Throw (Error "Failed to save bookmark")))
  /\ (snd (removeBookmark (Ok tt) userId contentId bookmarks) = Ok tt
      /\ isBookmarked (Ok tt) userId contentId
           (fst (removeBookmark (Ok tt) userId contentId bookmarks)) = false)
  /\ (forall error,
        removeBookmark (Throw error) userId contentId bookmarks
        = (bookmarks, Throw (Error "Failed to remove bookmark")))
  /\ (forall error, isBookmarked (Throw error) userId contentId bookmarks = false)
  /\ (forall userId' contentId' setDoc deleteDoc excerpt,
        hasChar "_" contentId = false -> hasChar "_" contentId' = false ->
        (userId', contentId') <> (userId, contentId) ->
        fst (saveBookmark setDoc now userId contentId title url excerpt tags bookmarks)
          !! bookmarkId userId' contentId'
        = bookmarks !! bookmarkId userId' contentId'
        /\ fst (removeBookmark deleteDoc userId contentId bookmarks)
             !! bookmarkId userId' contentId'
           = bookmarks !! bookmarkId userId' contentId')
  /\ (forall link, hasChar "_" (generateDocId link) = false).
Proof.
  unfold isBookmarked, saveBookmark, removeBookmark. repeat apply conj.
  - intros text. cbv zeta. cbn [fst snd]. rewrite lookup_insert_eq, lookup_delete_eq.
    split; [reflexivity|]. split; [reflexivity|]. split.
    + apply bool_decide_eq_true. eauto.
    + apply bool_decide_eq_false. intros [x H]. discriminate.
  - intros setDoc. reflexivity.
  - intros error [text|]; reflexivity.
  - reflexivity.
  - cbn [fst]. rewrite lookup_delete_eq.
    apply bool_decide_eq_false. intros [x H]. discriminate.
  - reflexivity.
  - reflexivity.
  - intros userId' contentId' setDoc deleteDoc excerpt Hc Hc' Hne.
    assert (Hk : bookmarkId userId contentId <> bookmarkId userId' contentId').
    { intros E. apply bookmarkId_eq in E as [-> ->]; [congruence | assumption..]. }
    split.
    + destruct excerpt as [text|], setDoc as [u|error]; cbn [fst];
        rewrite ?lookup_insert_ne by exact Hk; reflexivity.
    + destruct deleteDoc as [u|error]; cbn [fst];
        rewrite ?lookup_delete_ne by exact Hk; reflexivity.
  - intros link.
    destruct document_ids_hex with (url := link) as [_ H].
    apply (allChars_hasChar isHexDigit); [exact H | reflexivity].
Qed.

Lemma bookmarks_round_trip_witness :
  isBookmarked (Ok tt) "u_1" "abc"
    (fst (saveBookmark (Ok tt) 1000 "u" "1_abc" "A title" "https://example.com/a"
            (Some "An excerpt") [] ∅)) = true
  /\ saveBookmark (Ok tt) 1000 "u" "abc" "A title" "https://example.com/a" None [] ∅
     = (∅, Throw (Error "Failed to save bookmark"))
  /\ fst (saveBookmark (Ok tt) 1000 "u1" (generateDocId "https://example.com/a")
            "A title" "https://example.com/a" (Some "An excerpt") [] ∅)
       !! bookmarkId "u2" (generateDocId "https://example.com/b")
     = (∅ : gmap string Bookmark) !! bookmarkId "u2" (generateDocId "https://example.com/b").
Proof.
  split; [vm_compute; reflexivity|]. split; [reflexivity|].
  destruct (bookmarks_round_trip 1000 "u1" (generateDocId "https://example.com/a")
              "A title" "https://example.com/a" [] ∅)
    as (_ & _ & _ & _ & _ & _ & H & Hid).
  apply (H "u2" (generateDocId "https://example.com/b") (Ok tt) (Ok tt)
           (Some "An excerpt")); [apply Hid | apply Hid | discriminate].
Defined.

End BookmarkStore.

